(** * CineTrack: the JSON-file store, the user-state API and the
      recommendation heuristic

    A shallow embedding of the Express server (store access, the
    [/api/...] handlers) and of the client state of [App.tsx] (the
    recommendation heuristic, the derived values, the loaders and the
    event handlers), followed by the properties the design document
    states about them and by further properties read off the code.

    Modelling conventions.
    - A JSON value is a [json]; an object is a finite map from property
      names to values.  Only own properties are looked at: the members
      every object inherits from [Object.prototype] are not modelled.
    - A number inside a JSON value is the rational a double denotes.  A
      literal beyond the double range, which [JSON.parse] reads as
      [Infinity], is outside the model, so every number of a request body
      or of the store file is finite.  Numbers computed at run time
      ([Number(...)], [getTime()]) are [num]s and can be [NaN] or infinite.
    - [undefined] is the [None] of an [option json]; [null] is [JNull].
    - The server file is an ES module, hence strict-mode code: writing a
      property of a primitive throws.
    - A string is a sequence of bytes; the functions of the runtime that
      look into strings ([trim], [Number], [Date]) are parameters.
    - The content of [store.json] is represented by what [JSON.parse]
      makes of it, and [JSON.stringify] writes the value it is given: all
      the values the server writes are JSON values.  The data directory
      can be made, and no file operation fails but for a missing file.
    - A handler is run to its end on the disk it is given: [run] serves
      requests one after the other.  The handlers are [async] and give
      way at each [await], so requests can overlap; [overlapped] is the
      schedule in which two requests read the store before either
      writes.
    - The client computes in doubles: [binary64] rounds a rational to
      the nearest double, and [stats] rounds each sum and the quotient. *)

From stdpp Require Import gmap strings list fin_maps pretty sorting.
From Stdlib Require Import QArith Lqa.

#[local] Set Warnings "-register-all".
#[local] Close Scope Q_scope.
#[local] Open Scope string_scope.

(** ** JSON values and run-time numbers *)

Inductive json :=
| JNull
| JBool (b : bool)
| JNum (q : Q)
| JStr (s : string)
| JArr (l : list json)
| JObj (m : gmap string json).

Inductive num :=
| NaN
| Inf (negative : bool)
| Fin (q : Q).

(** The result of evaluating a piece of JavaScript: a value, a thrown
    exception, or [Exotic] when evaluation needs the exotic behaviour of
    arrays and strings used as property bags (writing [length] or an
    index of an array, the UTF-16 units of a string), which this model
    does not follow. *)
Inductive outcome (A : Type) :=
| Ok (a : A)
| Throw
| Exotic.
Arguments Ok {A} a.
Arguments Throw {A}.
Arguments Exotic {A}.

#[export] Instance outcome_ret : MRet outcome := λ A a, Ok a.
#[export] Instance outcome_bind : MBind outcome := λ A B f o,
  match o with
  | Ok a => f a
  | Throw => Throw
  | Exotic => Exotic
  end.

(** [try { body } catch { handler }]. *)
Definition try_catch {A} (body : outcome A) (handler : outcome A) : outcome A :=
  match body with
  | Throw => handler
  | _ => body
  end.

(** [v ?? d] *)
Definition nullish (v : option json) (d : json) : json :=
  match v with
  | None | Some JNull => d
  | Some x => x
  end.

(** The functions of the JavaScript runtime the server calls without
    defining them. *)
Record Runtime := {
  ToString : Q → string;          (* a number used as property key or in a template *)
  trim : string → string;         (* String.prototype.trim *)
  ToNumber : string → num;        (* Number(s) on a string *)
  DateMs : option json → num;     (* new Date(v).getTime() *)
  toISOString : Z → string;       (* new Date(ms).toISOString() *)
}.

(** ** Numbers *)

(** [Number.isInteger(q)] for the number [q]. *)
Definition Q_is_integer (q : Q) : bool :=
  (Qnum q mod Zpos (Qden q) =? 0)%Z.

(** [v === n] for a run-time number [n]. *)
Definition strict_eq_num (v : option json) (n : num) : bool :=
  match v, n with
  | Some (JNum q), Fin q' => Qeq_bool q q'
  | _, _ => false
  end.

(** [a - b].  On finite doubles the sign of the rounded difference is the
    sign of the exact one, which is all the comparators below use. *)
Definition num_sub (a b : num) : num :=
  match a, b with
  | NaN, _ | _, NaN => NaN
  | Fin x, Fin y => Fin (x - y)
  | Fin _, Inf s => Inf (negb s)
  | Inf s, Fin _ => Inf s
  | Inf s, Inf s' => if Bool.eqb s s' then NaN else Inf s
  end.

(** Whether a comparator result asks to put its second argument first:
    [Array.prototype.sort] reads [NaN] as [0]. *)
Definition num_positive (n : num) : bool :=
  match n with
  | NaN => false
  | Inf s => negb s
  | Fin q => negb (Qle_bool q 0)
  end.

(** The double nearest to a rational, ties to the even significand
    (IEEE 754 binary64, the [Number] of JavaScript).  [round_half_even a b]
    is the integer nearest to [a / b] for a positive [b]. *)
Definition round_half_even (a b : Z) : Z :=
  let q := (a / b)%Z in
  let r := (a mod b)%Z in
  match (2 * r ?= b)%Z with
  | Lt => q
  | Gt => (q + 1)%Z
  | Eq => if Z.even q then q else (q + 1)%Z
  end.

(** The integer [e] with [2^e ≤ n / d < 2^(e+1)]. *)
Definition floor_log2 (n d : positive) : Z :=
  if (Z.pos d <=? Z.pos n)%Z then Z.log2 (Z.pos n / Z.pos d)
  else (- Z.log2_up ((Z.pos d + Z.pos n - 1) / Z.pos n))%Z.

(** A positive rational rounded to 53 significant bits, to a multiple of
    [2^-1074] below the normal range.  Overflow to [Infinity], which
    takes a value of 2^1024 or more, is not followed. *)
Definition binary64_pos (n d : positive) : Q :=
  let e := floor_log2 n d in
  let p := Z.max (e - 52) (-1074) in
  let up := Z.max 0 p in
  let down := Z.max 0 (- p) in
  let m := round_half_even (Z.pos n * 2 ^ down) (Z.pos d * 2 ^ up) in
  Qred (Qmake (m * 2 ^ up) (Z.to_pos (2 ^ down))).

Definition binary64 (q : Q) : Q :=
  let q := Qred q in
  match Qnum q with
  | Z0 => 0%Q
  | Z.pos n => binary64_pos n (Qden q)
  | Z.neg n => (- binary64_pos n (Qden q))%Q
  end.

(** ** Property access *)

Fixpoint parse_digits (acc : N) (s : string) : option N :=
  match s with
  | "" => Some acc
  | String c s' =>
      let d := Ascii.N_of_ascii c in
      if ((48 <=? d) && (d <=? 57))%N
      then parse_digits (acc * 10 + (d - 48))%N s'
      else None
  end.

(** An array index as a property name: the canonical decimal form of an
    integer below [2^32 - 1]. *)
Definition array_index (k : string) : option nat :=
  match k with
  | "" => None
  | _ =>
      match parse_digits 0 k with
      | Some n =>
          if bool_decide (pretty n = k) && (n <? 4294967295)%N
          then Some (N.to_nat n) else None
      | None => None
      end
  end.

Definition is_exotic_key (k : string) : bool :=
  bool_decide (k = "length") || bool_decide (is_Some (array_index k)).

(** [v[k]] *)
Definition get_prop (v : json) (k : string) : outcome (option json) :=
  match v with
  | JNull => Throw
  | JBool _ | JNum _ => Ok None
  | JObj m => Ok (m !! k)
  | JArr l =>
      if bool_decide (k = "length") then Ok (Some (JNum (inject_Z (Z.of_nat (length l)))))
      else Ok (i ← array_index k; l !! i)
  | JStr _ => if is_exotic_key k then Exotic else Ok None
  end.

(** [v[k] = x], giving the receiver as [JSON.stringify] prints it
    afterwards: a property set to [undefined] is not printed, and an array
    keeps a property under a name that is neither an index nor [length]
    without printing it. *)
Definition set_prop (v : json) (k : string) (x : option json) : outcome json :=
  match v with
  | JNull | JBool _ | JNum _ | JStr _ => Throw
  | JObj m => Ok (JObj (partial_alter (λ _, x) k m))
  | JArr l => if is_exotic_key k then Exotic else Ok (JArr l)
  end.

(** [delete v[k]] *)
Definition delete_prop (v : json) (k : string) : outcome json :=
  match v with
  | JNull => Throw
  | JBool _ | JNum _ => Ok v
  | JObj m => Ok (JObj (delete k m))
  | JStr _ | JArr _ => if is_exotic_key k then Exotic else Ok v
  end.

(** [{...v}]: the own enumerable properties of [v]. *)
Definition spread_props (v : json) : outcome (gmap string json) :=
  match v with
  | JNull | JBool _ | JNum _ | JStr "" => Ok ∅
  | JStr _ => Exotic
  | JObj m => Ok m
  | JArr l => Ok (list_to_map (imap (λ i x, (pretty i, x)) l))
  end.

(** [[...v]]: the elements [v] iterates over. *)
Definition spread_elems (v : json) : outcome (list json) :=
  match v with
  | JArr l => Ok l
  | JStr "" => Ok []
  | JStr _ => Exotic
  | _ => Throw
  end.

(** [v.filter(f)]; only an array has the method. *)
Fixpoint filterM {A} (f : A → outcome bool) (l : list A) : outcome (list A) :=
  match l with
  | [] => Ok []
  | x :: l' =>
      b ← f x;
      r ← filterM f l';
      Ok (if b : bool then x :: r else r)
  end.

Definition array_filter (v : json) (f : json → outcome bool) : outcome (list json) :=
  match v with
  | JArr l => filterM f l
  | _ => Throw
  end.

(** [l.sort(cmp)].  The sort is stable; for a comparator that is a
    consistent order the result is the one stable arrangement, computed
    here by insertion from the right. *)
Fixpoint insertM {A} (cmp : A → A → outcome num) (x : A) (l : list A) : outcome (list A) :=
  match l with
  | [] => Ok [x]
  | y :: l' =>
      c ← cmp x y;
      if num_positive c
      then r ← insertM cmp x l'; Ok (y :: r)
      else Ok (x :: l)
  end.

Fixpoint array_sort {A} (cmp : A → A → outcome num) (l : list A) : outcome (list A) :=
  match l with
  | [] => Ok []
  | x :: l' => s ← array_sort cmp l'; insertM cmp x s
  end.

(** ** The store file *)

(** What [store.json] holds, by the way [JSON.parse] reads it. *)
Inductive content :=
| Unparseable
| Parsed (j : json).

(** The data directory: [store.json] is absent or has a content. *)
Definition disk := option content.

(** Asynchronous code over the disk; a thrown exception leaves the disk
    as it was at the throw. *)
Definition io (A : Type) := disk → outcome A * disk.

#[export] Instance io_ret : MRet io := λ A a d, (Ok a, d).
#[export] Instance io_bind : MBind io := λ A B f m d,
  match m d with
  | (Ok a, d') => f a d'
  | (Throw, d') => (Throw, d')
  | (Exotic, d') => (Exotic, d')
  end.

Definition lift {A} (o : outcome A) : io A := λ d, (o, d).

Definition access : io unit := λ d,
  match d with
  | Some _ => (Ok (), d)
  | None => (Throw, d)
  end.

Definition readFile : io content := λ d,
  match d with
  | Some c => (Ok c, d)
  | None => (Throw, d)
  end.

Definition writeFile (c : content) : io unit := λ d, (Ok (), Some c).

(** [try { body } catch { handler }] around asynchronous code. *)
Definition io_try_catch {A} (body handler : io A) : io A := λ d,
  match body d with
  | (Throw, d') => handler d'
  | r => r
  end.

Definition JSON_parse (c : content) : outcome json :=
  match c with
  | Unparseable => Throw
  | Parsed j => Ok j
  end.

Definition JSON_stringify (j : json) : content := Parsed j.

Record Store := { users : json; reviews : json }.

Definition store_json (s : Store) : json :=
  JObj (<["users" := users s]> (<["reviews" := reviews s]> ∅)).

Definition empty_store : Store := {| users := JObj ∅; reviews := JArr [] |}.

Definition ensureStore : io unit :=
  io_try_catch access
    (let initial := empty_store in
     writeFile (JSON_stringify (store_json initial))).

Definition readStore : io Store :=
  ensureStore;;
  raw ← readFile;
  lift (try_catch
    (parsed ← JSON_parse raw;
     u ← get_prop parsed "users";
     r ← get_prop parsed "reviews";
     Ok {| users := nullish u (JObj ∅); reviews := nullish r (JArr []) |})
    (Ok empty_store)).

Definition writeStore (data : Store) : io unit :=
  ensureStore;;
  writeFile (JSON_stringify (store_json data)).

(** ** Requests and replies *)

Record AuthUser := {
  id : string;
  displayName : string;
  email : string;
  avatar : string;
}.

(** The session user as the JSON object passport keeps in [req.user]. *)
Definition user_json (u : AuthUser) : json :=
  JObj (<["id" := JStr (id u)]> (<["displayName" := JStr (displayName u)]>
       (<["email" := JStr (email u)]> (<["avatar" := JStr (avatar u)]> ∅)))).

Record Request := {
  req_user : option AuthUser;       (* req.user, undefined without a session *)
  req_body : option json;           (* req.body *)
  req_params_movieId : string;      (* req.params.movieId *)
}.

Record Reply := { status : nat; payload : json }.

(** An object literal with distinct property names; a property whose
    value is [undefined] is not printed by [JSON.stringify]. *)
Definition object_literal (fields : list (string * option json)) : json :=
  JObj (list_to_map (omap (λ kv, pair kv.1 <$> kv.2) fields)).

(** [res.status(c).json(o)]; [res.json(o)] is the same with status 200. *)
Definition res_json (c : nat) (fields : list (string * option json)) : Reply :=
  {| status := c; payload := object_literal fields |}.

Definition error_reply (c : nat) (msg : string) : Reply :=
  res_json c [("error", Some (JStr msg))].

Definition requireAuth (req : Request) (next : AuthUser → io Reply) : io Reply :=
  match req_user req with
  | None => mret (error_reply 401 "Unauthorized")
  | Some u => next u
  end.

(** [{ watchStates: {}, ratings: {} }] and the same with [profile: req.user]. *)
Definition bare_record : json :=
  object_literal [("watchStates", Some (JObj ∅)); ("ratings", Some (JObj ∅))].

Definition fresh_record (u : AuthUser) : json :=
  object_literal [("watchStates", Some (JObj ∅)); ("ratings", Some (JObj ∅));
                  ("profile", Some (user_json u))].

(** [v !== 'lit'] and [v !== null] *)
Definition strict_ne_str (v : option json) (lit : string) : bool :=
  match v with
  | Some (JStr s) => negb (String.eqb s lit)
  | _ => true
  end.

Definition strict_ne_null (v : option json) : bool :=
  match v with
  | Some JNull => false
  | _ => true
  end.

(** [status !== 'watched' && status !== 'watching' && status !== 'watchlist'
     && status !== null] *)
Definition status_rejected (status : option json) : bool :=
  strict_ne_str status "watched" && strict_ne_str status "watching"
  && strict_ne_str status "watchlist" && strict_ne_null status.

(** [rating !== null && (!Number.isInteger(rating) || rating < 1 || rating > 5)].
    [Number.isInteger] is false of everything but a number, so the two
    comparisons are only reached with a number. *)
Definition rating_rejected (rating : option json) : bool :=
  strict_ne_null rating &&
  match rating with
  | Some (JNum q) => negb (Q_is_integer q) || negb (Qle_bool 1 q) || negb (Qle_bool q 5)
  | _ => true
  end.

(** ** The handlers *)

Section Handlers.
Context (rt : Runtime).

(** [app.get('/api/me')] *)
Definition get_me (req : Request) : io Reply :=
  match req_user req with
  | None => mret (res_json 200 [("user", Some JNull)])
  | Some u =>
      store ← readStore;
      let userId := id u in
      found ← lift (get_prop (users store) userId);
      let existing := nullish found bare_record in
      props ← lift (spread_props existing);
      let record := JObj (<["profile" := user_json u]> props) in
      users' ← lift (set_prop (users store) userId (Some record));
      writeStore {| users := users'; reviews := reviews store |};;
      mret (res_json 200 [("user", Some (user_json u))])
  end.

(** [app.get('/api/user-data')] *)
Definition get_user_data (req : Request) : io Reply :=
  requireAuth req (λ u,
    store ← readStore;
    let userId := id u in
    found ← lift (get_prop (users store) userId);
    let userRecord := nullish found (fresh_record u) in
    users' ← lift (set_prop (users store) userId (Some userRecord));
    writeStore {| users := users'; reviews := reviews store |};;
    ws ← lift (get_prop userRecord "watchStates");
    rs ← lift (get_prop userRecord "ratings");
    mret (res_json 200 [("watchStates", Some (nullish ws (JObj ∅)));
                        ("ratings", Some (nullish rs (JObj ∅)))])).

(** [app.get('/api/reviews/:movieId')] *)
Definition get_reviews (req : Request) : io Reply :=
  let movieId := ToNumber rt (req_params_movieId req) in
  store ← readStore;
  matching ← lift (array_filter (reviews store) (λ review,
    m ← get_prop review "movieId";
    Ok (strict_eq_num m movieId)));
  sorted ← lift (array_sort (λ a b,
    tb ← get_prop b "createdAt";
    ta ← get_prop a "createdAt";
    Ok (num_sub (DateMs rt tb) (DateMs rt ta))) matching);
  mret (res_json 200 [("reviews", Some (JArr sorted))]).

(** What the two [PUT] handlers do once the body is accepted, [field]
    being [watchStates] or [ratings]: the entry of the caller's record
    under the movie id is deleted when [value] is [null] and set
    otherwise, the record is put back under the caller's id and the
    whole store is written. *)
Definition put_entry (u : AuthUser) (field : string) (movieId : Q)
    (value : option json) : io Reply :=
  store ← readStore;
  let userId := id u in
  found ← lift (get_prop (users store) userId);
  let userRecord := nullish found (fresh_record u) in
  old ← lift (get_prop userRecord field);
  let entries := nullish old (JObj ∅) in
  userRecord ← lift (set_prop userRecord field (Some entries));
  entries ← lift (if strict_ne_null value
                  then set_prop entries (ToString rt movieId) value
                  else delete_prop entries (ToString rt movieId));
  userRecord ← lift (set_prop userRecord field (Some entries));
  users' ← lift (set_prop (users store) userId (Some userRecord));
  writeStore {| users := users'; reviews := reviews store |};;
  mret (res_json 200 [(field, Some entries)]).

(** [app.put('/api/status')].  [Number.isFinite(movieId)] holds exactly
    when [movieId] is a number. *)
Definition put_status (req : Request) : io Reply :=
  requireAuth req (λ u,
    let body := nullish (req_body req) (JObj ∅) in
    movieId ← lift (get_prop body "movieId");
    status ← lift (get_prop body "status");
    match movieId with
    | Some (JNum m) =>
        if status_rejected status
        then mret (error_reply 400 "Invalid status")
        else put_entry u "watchStates" m status
    | _ => mret (error_reply 400 "Invalid movieId")
    end).

(** [app.put('/api/rating')] *)
Definition put_rating (req : Request) : io Reply :=
  requireAuth req (λ u,
    let body := nullish (req_body req) (JObj ∅) in
    movieId ← lift (get_prop body "movieId");
    rating ← lift (get_prop body "rating");
    match movieId with
    | Some (JNum m) =>
        if rating_rejected rating
        then mret (error_reply 400 "Invalid rating")
        else put_entry u "ratings" m rating
    | _ => mret (error_reply 400 "Invalid movieId")
    end).

(** [app.post('/api/reviews')]; [now] is what [Date.now()] reads for
    the id and [created] what [new Date()] reads for [createdAt].
    [typeof content !== 'string' || !content.trim()] rejects everything
    but a string whose trimmed form is not empty. *)
Definition post_reviews (now created : Z) (req : Request) : io Reply :=
  requireAuth req (λ u,
    let body := nullish (req_body req) (JObj ∅) in
    movieId ← lift (get_prop body "movieId");
    content ← lift (get_prop body "content");
    rating ← lift (get_prop body "rating");
    match movieId with
    | Some (JNum m) =>
        match content with
        | Some (JStr text) =>
            if String.eqb (trim rt text) ""
            then mret (error_reply 400 "Review content is required")
            else if rating_rejected rating
            then mret (error_reply 400 "Invalid rating")
            else
              store ← readStore;
              let review := object_literal [
                ("id", Some (JStr (ToString rt m +:+ "-" +:+ ToString rt (inject_Z now))));
                ("movieId", Some (JNum m));
                ("author", Some (JStr (displayName u)));
                ("rating", rating);
                ("content", Some (JStr (trim rt text)));
                ("createdAt", Some (JStr (toISOString rt created)));
                ("userId", Some (JStr (id u)))] in
              stored ← lift (spread_elems (nullish (Some (reviews store)) (JArr [])));
              writeStore {| users := users store; reviews := JArr (review :: stored) |};;
              mret (res_json 201 [("review", Some review)])
        | _ => mret (error_reply 400 "Review content is required")
        end
    | _ => mret (error_reply 400 "Invalid movieId")
    end).

End Handlers.

(** ** The recommendation heuristic of [App.tsx] *)

Inductive WatchState := watched | watching | watchlist.

#[export] Instance WatchState_eq_dec : EqDecision WatchState.
Proof. solve_decision. Defined.

(** A [Movie], with its title and the two fields the heuristic reads.  A
    genre id is a natural number below [2^32 - 1], as the catalog's are:
    these are the property names [Object.entries] lists in ascending
    numeric order. *)
Record Movie := {
  movie_id : Z;
  title : string;
  genre_ids : option (list N);
}.

(** [import.meta.env]: the two catalog credentials. *)
Record Env := {
  TMDB_API_KEY : option string;
  TMDB_READ_ACCESS_TOKEN : option string;
}.

(** A string or [undefined] used as a condition. *)
Definition truthy (s : option string) : bool :=
  match s with
  | Some (String _ _) => true
  | _ => false
  end.

Definition key_le (a b : N * Z) : Prop := (a.1 ≤ b.1)%N.

#[export] Instance key_le_dec : RelDecision key_le.
Proof. intros a b. unfold key_le. apply _. Defined.

(** [Object.entries(acc)] for an object whose property names are array
    indices: ascending numeric order. *)
Definition Object_entries (acc : gmap N Z) : list (N * Z) :=
  merge_sort key_le (map_to_list acc).

Section Recommendations.
Context (env : Env).
(** The catalog: what [/discover/movie] answers for the genres asked,
    as the [results] field of the parsed answer, or a failure of the
    request or of reading its body. *)
Context (discover : list N → outcome (option (list Movie))).
Context (movies : list Movie).
Context (watchStates : gmap Z WatchState) (ratings : gmap Z Q).

Definition fetchTmdb (with_genres : list N) : outcome (option (list Movie)) :=
  if truthy (TMDB_API_KEY env) then discover with_genres
  else if truthy (TMDB_READ_ACCESS_TOKEN env) then discover with_genres
  else Throw.

(** The callback of [movies.reduce]. *)
Definition genre_step (acc : gmap N Z) (movie : Movie) : gmap N Z :=
  let status := watchStates !! movie_id movie in
  let rating := default 0%Q (ratings !! movie_id movie) in
  let isWeighted :=
    bool_decide (status = Some watched) || bool_decide (status = Some watchlist)
    || Qle_bool 4 rating in
  if negb isWeighted then acc
  else
    foldl (λ acc genreId,
             <[genreId := (default 0 (acc !! genreId) + (if Qle_bool 4 rating then 2 else 1))%Z]> acc)
          acc (default [] (genre_ids movie)).

Definition genre_weights : gmap N Z := foldl genre_step ∅ movies.

Definition rankedGenres : outcome (list N) :=
  sorted ← array_sort (λ a b, Ok (num_sub (Fin (inject_Z b.2)) (Fin (inject_Z a.2))))
                      (Object_entries genre_weights);
  Ok ((take 2 sorted).*1).

Definition loadRecommendations : outcome (list Movie) :=
  rankedGenres ← rankedGenres;
  if (negb (truthy (TMDB_API_KEY env)) && negb (truthy (TMDB_READ_ACCESS_TOKEN env)))
     || (length rankedGenres =? 0)%nat
  then
    let fallback :=
      take 8 (filter (λ movie, watchStates !! movie_id movie = None
                               ∨ watchStates !! movie_id movie = Some watchlist) movies) in
    Ok fallback
  else
    try_catch
      (results ← fetchTmdb rankedGenres;
       let recs :=
         take 8 (filter (λ movie, watchStates !! movie_id movie = None) (default [] results)) in
       Ok recs)
      (Ok (take 8 movies)).

End Recommendations.

(** The heuristic in the words of the design: the weight of a movie is 2
    when its rating is at least 4, else 1 when it is marked watched or
    watchlisted, else 0; a genre accumulates the weight of a movie once
    for each time the movie is tagged with it. *)
Definition movie_weight (watchStates : gmap Z WatchState) (ratings : gmap Z Q)
    (movie : Movie) : Z :=
  let rated_high :=
    match ratings !! movie_id movie with
    | Some r => Qle_bool 4 r
    | None => false
    end in
  let marked :=
    match watchStates !! movie_id movie with
    | Some watched | Some watchlist => true
    | _ => false
    end in
  if rated_high then 2 else if marked then 1 else 0.

Definition tagged (g : N) (movie : Movie) : Z :=
  Z.of_nat (length (filter (λ g', g' = g) (default [] (genre_ids movie)))).

Definition accumulated (watchStates : gmap Z WatchState) (ratings : gmap Z Q)
    (movies : list Movie) (g : N) : Z :=
  foldr (λ movie total, movie_weight watchStates ratings movie * tagged g movie + total)%Z
        0%Z movies.

(** Whether the client holds a catalog credential. *)
Definition credentials (env : Env) : bool :=
  truthy (TMDB_API_KEY env) || truthy (TMDB_READ_ACCESS_TOKEN env).

(** The weight a map of genre weights gives a genre. *)
Definition weight_in (acc : gmap N Z) (g : N) : Z := default 0%Z (acc !! g).

Definition all_positive (acc : gmap N Z) : Prop := map_Forall (λ _ w, 0 < w)%Z acc.

(** ** The client state of [App.tsx]

    The state hooks of [App] are the fields of an [AppState] and a
    [set...] call is an update of its field.  An event handler or a loader
    is a function on the state: it runs to its end before the next event,
    so the updates it queues apply, in order, to the state it started
    from, whose fields are also what its closure reads.  What a request
    gives is a parameter: the value read from the answer, or [Throw] for a
    failure of the request or of reading its body. *)

Record Genre := { genre_id : N; genre_name : string }.

Record UserReview := {
  review_id : string;
  review_movieId : Z;
  review_author : string;
  review_rating : option Q;        (* number | null *)
  review_content : string;
  review_createdAt : string;
}.

Definition fallbackGenres : list Genre := [
  {| genre_id := 28; genre_name := "Action" |};
  {| genre_id := 18; genre_name := "Drama" |};
  {| genre_id := 35; genre_name := "Comedy" |};
  {| genre_id := 878; genre_name := "Sci-Fi" |};
  {| genre_id := 53; genre_name := "Thriller" |}].

Definition fallbackMovies : list Movie := [
  {| movie_id := 90001; title := "North Star Signal"; genre_ids := Some [53; 18]%N |};
  {| movie_id := 90002; title := "Velvet Orbit"; genre_ids := Some [878; 18]%N |};
  {| movie_id := 90003; title := "Brass Avenue"; genre_ids := Some [35; 18]%N |}].

Definition fallbackReviews : list UserReview := [
  {| review_id := "seed-1"; review_movieId := 90001; review_author := "Mara P.";
     review_rating := Some 4%Q;
     review_content :=
       "Slow start, but the final act is excellent and the atmosphere is unforgettable.";
     review_createdAt := "2026-01-29T10:00:00.000Z" |};
  {| review_id := "seed-2"; review_movieId := 90002; review_author := "Dev K.";
     review_rating := Some 5%Q;
     review_content := "One of the best sci-fi dramas I have seen in years.";
     review_createdAt := "2026-02-02T14:45:00.000Z" |}].

(** [getMovieGenres(movie, genreMap)]; the [genres] of the movie, a field
    [Movie] leaves out, are passed beside it.  [filter(Boolean)] drops
    the names that are [undefined] or empty. *)
Definition getMovieGenres (genres : option (list Genre)) (movie : Movie)
    (genreMap : gmap N string) : list string :=
  match genres with
  | Some (g :: gs) => genre_name <$> (g :: gs)
  | _ =>
      omap (λ name : option string, name)
        (filter (λ name, truthy name)
           ((λ id, genreMap !! id) <$> default [] (genre_ids movie)))
  end.

(** [names.slice(0, 2).join(' / ') || unlisted], the genre line of a
    movie card. *)
Definition genre_line (unlisted : string) (names : list string) : string :=
  let joined := String.concat " / " (take 2 names) in
  if truthy (Some joined) then joined else unlisted.

Inductive Feed := feed_trending | feed_top_rated | feed_recent | feed_genre.

Record AppState := {
  st_currentUser : option AuthUser;
  st_movies : list Movie;
  st_recommendations : list Movie;
  st_genres : list Genre;
  st_feed : Feed;
  st_selectedGenre : N;
  st_query : string;
  st_searchInput : string;
  st_loading : bool;
  st_error : option string;
  st_activeMovie : option Movie;
  st_watchStates : gmap Z WatchState;
  st_ratings : gmap Z Q;
  st_reviews : list UserReview;
  st_reviewDraft : string;
}.

(** The state [App] starts from. *)
Definition initial_state : AppState := {|
  st_currentUser := None; st_movies := []; st_recommendations := [];
  st_genres := fallbackGenres; st_feed := feed_trending; st_selectedGenre := 28;
  st_query := ""; st_searchInput := ""; st_loading := true; st_error := None;
  st_activeMovie := None; st_watchStates := ∅; st_ratings := ∅;
  st_reviews := fallbackReviews; st_reviewDraft := "" |}.

Definition setMovies (v : list Movie) (st : AppState) : AppState := {|
  st_currentUser := st_currentUser st; st_movies := v;
  st_recommendations := st_recommendations st; st_genres := st_genres st;
  st_feed := st_feed st; st_selectedGenre := st_selectedGenre st;
  st_query := st_query st; st_searchInput := st_searchInput st;
  st_loading := st_loading st; st_error := st_error st;
  st_activeMovie := st_activeMovie st; st_watchStates := st_watchStates st;
  st_ratings := st_ratings st; st_reviews := st_reviews st;
  st_reviewDraft := st_reviewDraft st |}.

Definition setRecommendations (v : list Movie) (st : AppState) : AppState := {|
  st_currentUser := st_currentUser st; st_movies := st_movies st;
  st_recommendations := v; st_genres := st_genres st;
  st_feed := st_feed st; st_selectedGenre := st_selectedGenre st;
  st_query := st_query st; st_searchInput := st_searchInput st;
  st_loading := st_loading st; st_error := st_error st;
  st_activeMovie := st_activeMovie st; st_watchStates := st_watchStates st;
  st_ratings := st_ratings st; st_reviews := st_reviews st;
  st_reviewDraft := st_reviewDraft st |}.

Definition setGenres (v : list Genre) (st : AppState) : AppState := {|
  st_currentUser := st_currentUser st; st_movies := st_movies st;
  st_recommendations := st_recommendations st; st_genres := v;
  st_feed := st_feed st; st_selectedGenre := st_selectedGenre st;
  st_query := st_query st; st_searchInput := st_searchInput st;
  st_loading := st_loading st; st_error := st_error st;
  st_activeMovie := st_activeMovie st; st_watchStates := st_watchStates st;
  st_ratings := st_ratings st; st_reviews := st_reviews st;
  st_reviewDraft := st_reviewDraft st |}.

Definition setQuery (v : string) (st : AppState) : AppState := {|
  st_currentUser := st_currentUser st; st_movies := st_movies st;
  st_recommendations := st_recommendations st; st_genres := st_genres st;
  st_feed := st_feed st; st_selectedGenre := st_selectedGenre st;
  st_query := v; st_searchInput := st_searchInput st;
  st_loading := st_loading st; st_error := st_error st;
  st_activeMovie := st_activeMovie st; st_watchStates := st_watchStates st;
  st_ratings := st_ratings st; st_reviews := st_reviews st;
  st_reviewDraft := st_reviewDraft st |}.

Definition setLoading (v : bool) (st : AppState) : AppState := {|
  st_currentUser := st_currentUser st; st_movies := st_movies st;
  st_recommendations := st_recommendations st; st_genres := st_genres st;
  st_feed := st_feed st; st_selectedGenre := st_selectedGenre st;
  st_query := st_query st; st_searchInput := st_searchInput st;
  st_loading := v; st_error := st_error st;
  st_activeMovie := st_activeMovie st; st_watchStates := st_watchStates st;
  st_ratings := st_ratings st; st_reviews := st_reviews st;
  st_reviewDraft := st_reviewDraft st |}.

Definition setError (v : option string) (st : AppState) : AppState := {|
  st_currentUser := st_currentUser st; st_movies := st_movies st;
  st_recommendations := st_recommendations st; st_genres := st_genres st;
  st_feed := st_feed st; st_selectedGenre := st_selectedGenre st;
  st_query := st_query st; st_searchInput := st_searchInput st;
  st_loading := st_loading st; st_error := v;
  st_activeMovie := st_activeMovie st; st_watchStates := st_watchStates st;
  st_ratings := st_ratings st; st_reviews := st_reviews st;
  st_reviewDraft := st_reviewDraft st |}.

(** The setters called with a function of the current value. *)
Definition setActiveMovie (f : option Movie → option Movie) (st : AppState) : AppState := {|
  st_currentUser := st_currentUser st; st_movies := st_movies st;
  st_recommendations := st_recommendations st; st_genres := st_genres st;
  st_feed := st_feed st; st_selectedGenre := st_selectedGenre st;
  st_query := st_query st; st_searchInput := st_searchInput st;
  st_loading := st_loading st; st_error := st_error st;
  st_activeMovie := f (st_activeMovie st); st_watchStates := st_watchStates st;
  st_ratings := st_ratings st; st_reviews := st_reviews st;
  st_reviewDraft := st_reviewDraft st |}.

Definition setWatchStates (f : gmap Z WatchState → gmap Z WatchState) (st : AppState)
    : AppState := {|
  st_currentUser := st_currentUser st; st_movies := st_movies st;
  st_recommendations := st_recommendations st; st_genres := st_genres st;
  st_feed := st_feed st; st_selectedGenre := st_selectedGenre st;
  st_query := st_query st; st_searchInput := st_searchInput st;
  st_loading := st_loading st; st_error := st_error st;
  st_activeMovie := st_activeMovie st; st_watchStates := f (st_watchStates st);
  st_ratings := st_ratings st; st_reviews := st_reviews st;
  st_reviewDraft := st_reviewDraft st |}.

Definition setRatings (f : gmap Z Q → gmap Z Q) (st : AppState) : AppState := {|
  st_currentUser := st_currentUser st; st_movies := st_movies st;
  st_recommendations := st_recommendations st; st_genres := st_genres st;
  st_feed := st_feed st; st_selectedGenre := st_selectedGenre st;
  st_query := st_query st; st_searchInput := st_searchInput st;
  st_loading := st_loading st; st_error := st_error st;
  st_activeMovie := st_activeMovie st; st_watchStates := st_watchStates st;
  st_ratings := f (st_ratings st); st_reviews := st_reviews st;
  st_reviewDraft := st_reviewDraft st |}.

Definition setReviews (f : list UserReview → list UserReview) (st : AppState)
    : AppState := {|
  st_currentUser := st_currentUser st; st_movies := st_movies st;
  st_recommendations := st_recommendations st; st_genres := st_genres st;
  st_feed := st_feed st; st_selectedGenre := st_selectedGenre st;
  st_query := st_query st; st_searchInput := st_searchInput st;
  st_loading := st_loading st; st_error := st_error st;
  st_activeMovie := st_activeMovie st; st_watchStates := st_watchStates st;
  st_ratings := st_ratings st; st_reviews := f (st_reviews st);
  st_reviewDraft := st_reviewDraft st |}.

Definition setReviewDraft (v : string) (st : AppState) : AppState := {|
  st_currentUser := st_currentUser st; st_movies := st_movies st;
  st_recommendations := st_recommendations st; st_genres := st_genres st;
  st_feed := st_feed st; st_selectedGenre := st_selectedGenre st;
  st_query := st_query st; st_searchInput := st_searchInput st;
  st_loading := st_loading st; st_error := st_error st;
  st_activeMovie := st_activeMovie st; st_watchStates := st_watchStates st;
  st_ratings := st_ratings st; st_reviews := st_reviews st;
  st_reviewDraft := v |}.

(** [Boolean(currentUser)] and [profile.displayName]. *)
Definition isSignedIn (st : AppState) : bool :=
  match st_currentUser st with Some _ => true | None => false end.

Definition profile_displayName (st : AppState) : string :=
  match st_currentUser st with
  | Some u => displayName u
  | None => "Guest Viewer"
  end.

(** [genres.reduce((acc, genre) => { acc[genre.id] = genre.name; return acc }, {})] *)
Definition genreMap (st : AppState) : gmap N string :=
  foldl (λ acc genre, <[genre_id genre := genre_name genre]> acc) ∅ (st_genres st).

Definition id_le {A} (a b : Z * A) : Prop := (a.1 ≤ b.1)%Z.

#[export] Instance id_le_dec {A} : RelDecision (@id_le A).
Proof. intros a b. unfold id_le. apply _. Defined.

(** [Object.values(o)] for an object keyed by movie ids, which are array
    indices, as the catalog's ids are: the values in ascending order of
    the ids. *)
Definition Object_values {A} (o : gmap Z A) : list A :=
  (merge_sort id_le (map_to_list o)).*2.

Record Stats := { watchedCount : nat; watchlistCount : nat; avgRating : Q }.

(** [stats].  The ratings are doubles; each sum of [reduce] and the
    final quotient are rounded to a double. *)
Definition stats (st : AppState) : Stats :=
  let values := Object_values (st_ratings st) in
  let avgRating :=
    if (length values =? 0)%nat then 0%Q
    else binary64 (foldl (λ a b, binary64 (a + b)) 0%Q values
                   / inject_Z (Z.of_nat (length values))) in
  let watchedCount :=
    length (filter (λ state, state = watched) (Object_values (st_watchStates st))) in
  let watchlistCount :=
    length (filter (λ state, state = watchlist) (Object_values (st_watchStates st))) in
  {| watchedCount := watchedCount; watchlistCount := watchlistCount;
     avgRating := avgRating |}.

(** [activeMovieReviews] *)
Definition activeMovieReviews (rt : Runtime) (st : AppState) : outcome (list UserReview) :=
  match st_activeMovie st with
  | Some activeMovie =>
      array_sort (λ a b,
          Ok (num_sub (DateMs rt (Some (JStr (review_createdAt b))))
                      (DateMs rt (Some (JStr (review_createdAt a))))))
        (filter (λ review, review_movieId review = movie_id activeMovie) (st_reviews st))
  | None => Ok []
  end.

Definition mergeMovieReviews (movieId : Z) (incoming : list UserReview) (st : AppState)
    : AppState :=
  setReviews (λ current,
      incoming ++ filter (λ review, review_movieId review ≠ movieId) current)%list st.

(** [fetchTmdb(path, params)] followed by reading the body, [response]
    being what the catalog gives for the path and the parameters. *)
Definition fetchTmdb_at {A} (env : Env) (response : outcome A) : outcome A :=
  if truthy (TMDB_API_KEY env) then response
  else if truthy (TMDB_READ_ACCESS_TOKEN env) then response
  else Throw.

(** [loadGenres]; [catalog] is [data.genres] for [/genre/movie/list]. *)
Definition loadGenres (env : Env) (catalog : outcome (option (list Genre)))
    (st : AppState) : outcome AppState :=
  if negb (truthy (TMDB_API_KEY env)) && negb (truthy (TMDB_READ_ACCESS_TOKEN env))
  then Ok (setGenres fallbackGenres st)
  else
    try_catch
      (genres ← fetchTmdb_at env catalog;
       match genres with
       | Some (g :: gs) => Ok (setGenres (g :: gs) st)
       | _ => Ok st
       end)
      (Ok (setGenres fallbackGenres st)).

(** The double quote. *)
Definition dquote : string :=
  String (Ascii.Ascii false true false false false true false false) "".

(** [current ?? fallbackMovies[0] ?? null] *)
Definition or_first_fallback (current : option Movie) : option Movie :=
  match current with
  | Some movie => Some movie
  | None => head fallbackMovies
  end.

(** [loadMovies]; [catalog path params] is [data.results] for the
    request. *)
Definition loadMovies (rt : Runtime) (env : Env)
    (catalog : string → list (string * json) → outcome (option (list Movie)))
    (st0 : AppState) : outcome AppState :=
  let st := setLoading true st0 in
  let st := setError None st in
  if negb (truthy (TMDB_API_KEY env)) && negb (truthy (TMDB_READ_ACCESS_TOKEN env))
  then
    let st := setMovies fallbackMovies st in
    let st := setRecommendations (take 2 fallbackMovies) st in
    let st := setActiveMovie or_first_fallback st in
    Ok (setLoading false st)
  else
    st ← try_catch
      (let trimmedQuery := trim rt (st_query st0) in
       let '(path, params) :=
         if truthy (Some trimmedQuery)
         then ("/search/movie",
               [("query", JStr trimmedQuery); ("include_adult", JBool false);
                ("language", JStr "en-US"); ("page", JNum 1)])
         else
           match st_feed st0 with
           | feed_top_rated =>
               ("/movie/top_rated", [("language", JStr "en-US"); ("page", JNum 1)])
           | feed_recent =>
               ("/discover/movie",
                [("sort_by", JStr "primary_release_date.desc");
                 ("vote_count.gte", JNum 50); ("page", JNum 1)])
           | feed_genre =>
               ("/discover/movie",
                [("with_genres", JNum (inject_Z (Z.of_N (st_selectedGenre st0))));
                 ("sort_by", JStr "popularity.desc"); ("page", JNum 1)])
           | feed_trending => ("/trending/movie/week", [])
           end in
       results ← fetchTmdb_at env (catalog path params);
       let nextMovies := take 24 (default [] results) in
       let st := setMovies nextMovies st in
       let st := setActiveMovie (λ _, head nextMovies) st in
       if truthy (Some trimmedQuery) && (length nextMovies =? 0)%nat
       then Ok (setError (Some ("No results found for " +:+ dquote +:+ trimmedQuery
                                +:+ dquote +:+ ".")) st)
       else Ok st)
      (let st := setError
         (Some "Could not load movies right now. Showing offline sample data.") st in
       let st := setMovies fallbackMovies st in
       Ok (setActiveMovie or_first_fallback st));
    Ok (setLoading false st).

(** [onStatusChange] and [onRatingChange]; [put movieId value] is the
    [PUT], which is awaited for its failure only. *)
Definition onStatusChange (API_BASE_URL : option string)
    (put : Z → WatchState → outcome unit)
    (movieId : Z) (status : WatchState) (st0 : AppState) : outcome AppState :=
  let st := setWatchStates (λ current, <[movieId := status]> current) st0 in
  if negb (truthy API_BASE_URL) || negb (isSignedIn st0) then Ok st
  else
    try_catch
      (put movieId status;; Ok st)
      (Ok (setError (Some "Could not save watch status.") st)).

Definition onRatingChange (API_BASE_URL : option string)
    (put : Z → Q → outcome unit)
    (movieId : Z) (rating : Q) (st0 : AppState) : outcome AppState :=
  let st := setRatings (λ current, <[movieId := rating]> current) st0 in
  if negb (truthy API_BASE_URL) || negb (isSignedIn st0) then Ok st
  else
    try_catch
      (put movieId rating;; Ok st)
      (Ok (setError (Some "Could not save rating.") st)).

(** [onReviewSubmit]; [now] and [created] are what [Date.now()] and
    [new Date()] read, [shown] is [activeMovieReviews] and
    [post movieId content rating] is the [POST]: an answer that is not
    [ok] ([None]) or the [review] of an answer that is. *)
Definition onReviewSubmit (rt : Runtime) (API_BASE_URL : option string)
    (now created : Z) (post : Z → string → option Q → outcome (option UserReview))
    (st : AppState) : outcome AppState :=
  shown ← activeMovieReviews rt st;
  match st_activeMovie st with
  | None => Ok st
  | Some activeMovie =>
      if String.eqb (trim rt (st_reviewDraft st)) "" then Ok st
      else if negb (isSignedIn st) || negb (truthy API_BASE_URL) then
        let guestReview := {|
          review_id := "guest-" +:+ ToString rt (inject_Z now);
          review_movieId := movie_id activeMovie;
          review_author := profile_displayName st;
          review_rating := st_ratings st !! movie_id activeMovie;
          review_content := trim rt (st_reviewDraft st);
          review_createdAt := toISOString rt created |} in
        let st := mergeMovieReviews (movie_id activeMovie) (guestReview :: shown) st in
        Ok (setReviewDraft "" st)
      else
        try_catch
          (answer ← post (movie_id activeMovie) (trim rt (st_reviewDraft st))
                         (st_ratings st !! movie_id activeMovie);
           match answer with
           | None => Ok (setError (Some "Could not publish review.") st)
           | Some review =>
               let st := mergeMovieReviews (movie_id activeMovie) (review :: shown) st in
               Ok (setReviewDraft "" st)
           end)
          (Ok (setError (Some "Could not publish review.") st))
  end.

(** ** A runtime to run the model on

    The functions of [Runtime] as ECMAScript defines them, on ASCII text:
    - [trim] strips the ASCII white space (the other white space of
      Unicode is not looked for);
    - [ToString] is [Number::toString]: the shortest decimal that reads
      back as the double, written positionally or with an exponent;
    - [ToNumber] reads a [StringNumericLiteral]: white space around it,
      a sign, decimal digits with a fraction and an exponent, [Infinity],
      and the [0x], [0o], [0b] integers;
    - [toISOString] prints a time value in the date-time string format,
      in UTC;
    - [DateMs] reads the date-time string format: the date-only forms
      ([YYYY], [YYYY-MM], [YYYY-MM-DD], with the six-digit signed years),
      which are UTC, and the date-times that end in [Z] or in an offset.
      A date-time without an offset is local time, and what an engine
      makes of a string outside the format is its own choice: this
      runtime reads both as invalid dates.  Of an array it reads the
      empty one and the one-element arrays of a string or a number. *)

Definition is_space (c : Ascii.ascii) : bool :=
  let n := Ascii.N_of_ascii c in
  ((n =? 32) || ((9 <=? n) && (n <=? 13)))%N.

Fixpoint trim_start (s : string) : string :=
  match s with
  | String c s' => if is_space c then trim_start s' else s
  | "" => ""
  end.

Definition ascii_trim (s : string) : string :=
  String.rev (trim_start (String.rev (trim_start s))).

(** *** [Number::toString] *)

Fixpoint scale_up (fuel : nat) (q : Q) (j : Z) : Z :=
  match fuel with
  | O => j
  | S fuel' => if Qle_bool 1 q then j else scale_up fuel' (q * 10)%Q (j - 1)%Z
  end.

(** The [n] with [10^(n-1) ≤ q < 10^n], for a positive double [q]. *)
Definition decimal_exponent (q : Q) : Z :=
  if Qle_bool 1 q
  then Z.of_nat (String.length (pretty (Qnum q / Z.pos (Qden q))%Z))
  else scale_up 400 (q * 10)%Q 0%Z.

Definition pow10 (z : Z) : Q :=
  if (0 <=? z)%Z then inject_Z (10 ^ z) else Qmake 1 (Z.to_pos (10 ^ (- z))).

(** The [k]-digit integers [s] with [s * 10^(n-k)] reading back as [q]:
    the one nearest to [q] of the two around it, if any. *)
Definition digits_at (q : Q) (n : Z) (k : Z) : option (Z * Z) :=
  let unit := pow10 (n - k) in
  let scaled := (q / unit)%Q in
  let low := (Qnum scaled / Z.pos (Qden scaled))%Z in
  let high := (low + 1)%Z in
  let reads s := Qeq_bool (binary64 (inject_Z s * unit)) q in
  let nearer_low := Qle_bool (scaled - inject_Z low) (inject_Z high - scaled) in
  let pick s :=
    if (s =? 10 ^ k)%Z then Some ((10 ^ (k - 1))%Z, (n + 1)%Z) else Some (s, n) in
  match reads low && (0 <? low)%Z, reads high with
  | true, true => if nearer_low then pick low else pick high
  | true, false => pick low
  | false, true => pick high
  | false, false => None
  end.

(** The digits [s], the exponent [n] and the number [k] of digits, [k]
    as small as possible; 17 digits always suffice. *)
Fixpoint shortest (fuel : nat) (q : Q) (n : Z) (k : Z) : Z * Z * Z :=
  match fuel with
  | O =>
      let unit := pow10 (n - k) in
      let scaled := (q / unit)%Q in
      (round_half_even (Qnum scaled) (Z.pos (Qden scaled)), n, k)
  | S fuel' =>
      match digits_at q n k with
      | Some (s, n') => (s, n', k)
      | None => shortest fuel' q n (k + 1)%Z
      end
  end.

Fixpoint zeros (n : nat) : string :=
  match n with
  | O => ""
  | S n' => "0" +:+ zeros n'
  end.

Definition string_take (n : nat) (s : string) : string := String.substring 0 n s.

Definition string_drop (n : nat) (s : string) : string :=
  String.substring n (String.length s - n) s.

Definition number_to_string_pos (q : Q) : string :=
  let '(s, n, _) := shortest 16 q (decimal_exponent q) 1 in
  let digits := pretty s in
  let k := Z.of_nat (String.length digits) in
  if ((k <=? n) && (n <=? 21))%Z then digits +:+ zeros (Z.to_nat (n - k))
  else if ((0 <? n) && (n <=? 21))%Z
  then string_take (Z.to_nat n) digits +:+ "." +:+ string_drop (Z.to_nat n) digits
  else if ((-6 <? n) && (n <=? 0))%Z
  then "0." +:+ zeros (Z.to_nat (- n)) +:+ digits
  else
    let e := (n - 1)%Z in
    let exponent := (if (0 <=? e)%Z then "+" else "-") +:+ pretty (Z.abs e) in
    if (k =? 1)%Z then digits +:+ "e" +:+ exponent
    else string_take 1 digits +:+ "." +:+ string_drop 1 digits +:+ "e" +:+ exponent.

(** [Number::toString] of the double nearest to [q]. *)
Definition number_to_string (q : Q) : string :=
  let q := binary64 q in
  match Qnum q with
  | Z0 => "0"
  | Z.pos _ => number_to_string_pos q
  | Z.neg _ => "-" +:+ number_to_string_pos (- q)
  end.

(** *** [Number(s)] *)

Definition digit_value (base : Z) (c : Ascii.ascii) : option Z :=
  let n := Z.of_N (Ascii.N_of_ascii c) in
  let v :=
    if ((48 <=? n) && (n <=? 57))%Z then (n - 48)%Z
    else if ((97 <=? n) && (n <=? 102))%Z then (n - 87)%Z
    else if ((65 <=? n) && (n <=? 70))%Z then (n - 55)%Z
    else 16%Z in
  if (v <? base)%Z then Some v else None.

(** The longest run of digits at the head of [s]: its value, its length
    and the rest of [s]. *)
Fixpoint read_digits (base : Z) (value count : Z) (s : string) : Z * Z * string :=
  match s with
  | String c s' =>
      match digit_value base c with
      | Some v => read_digits base (value * base + v)%Z (count + 1)%Z s'
      | None => (value, count, s)
      end
  | "" => (value, count, s)
  end.

(** [s] without its prefix [prefix], if it starts with it. *)
Fixpoint starts (prefix s : string) : option string :=
  match prefix with
  | "" => Some s
  | String a prefix' =>
      match s with
      | String b s' => if Ascii.eqb a b then starts prefix' s' else None
      | "" => None
      end
  end.

Definition read_sign (s : string) : Z * string :=
  match starts "+" s, starts "-" s with
  | Some s', _ => (1%Z, s')
  | None, Some s' => ((-1)%Z, s')
  | None, None => (1%Z, s)
  end.

(** A double from a rational, [Infinity] from 2^1024 - 2^970 on. *)
Definition double_of (q : Q) : num :=
  let d := binary64 q in
  if Qle_bool (inject_Z (2 ^ 1024)) d then Inf false
  else if Qle_bool d (inject_Z (- 2 ^ 1024)) then Inf true
  else Fin d.

Definition read_exponent (s : string) : option Z :=
  match s with
  | "" => Some 0%Z
  | _ =>
      match starts "e" s, starts "E" s with
      | None, None => None
      | Some s', _ | None, Some s' =>
          let '(sign, s') := read_sign s' in
          match read_digits 10 0 0 s' with
          | (e, count, "") => if (0 <? count)%Z then Some (sign * e)%Z else None
          | _ => None
          end
      end
  end.

Definition read_decimal (s : string) : num :=
  let '(sign, s) := read_sign s in
  match s with
  | "Infinity" => Inf (sign <? 0)%Z
  | _ =>
      let '(whole, whole_count, s) := read_digits 10 0 0 s in
      let '(mantissa, fraction_count, s) :=
        match starts "." s with
        | Some s' => read_digits 10 whole 0 s'
        | None => (whole, 0%Z, s)
        end in
      if (whole_count + fraction_count =? 0)%Z then NaN
      else
        match read_exponent s with
        | Some e => double_of (inject_Z (sign * mantissa) * pow10 (e - fraction_count))
        | None => NaN
        end
  end.

Definition read_radix (base : Z) (s : string) : num :=
  match read_digits base 0 0 s with
  | (value, count, "") => if (0 <? count)%Z then double_of (inject_Z value) else NaN
  | _ => NaN
  end.

Definition radix_prefixes : list (string * Z) :=
  [("0x", 16%Z); ("0X", 16%Z); ("0o", 8%Z); ("0O", 8%Z); ("0b", 2%Z); ("0B", 2%Z)].

Definition string_to_number (s : string) : num :=
  let s := ascii_trim s in
  match s with
  | "" => Fin 0
  | _ =>
      match omap (λ '(prefix, base), read_radix base <$> starts prefix s) radix_prefixes with
      | n :: _ => n
      | [] => read_decimal s
      end
  end.

(** *** Dates *)

Definition padded (w : nat) (z : Z) : string :=
  let digits := pretty z in
  zeros (w - String.length digits) +:+ digits.

(** The year, month and day of a day number, and back, in the proleptic
    Gregorian calendar, day 0 being 1 January 1970. *)
Definition civil_from_days (days : Z) : Z * Z * Z :=
  let z := (days + 719468)%Z in
  let era := (z / 146097)%Z in
  let doe := (z - era * 146097)%Z in
  let yoe := ((doe - doe / 1460 + doe / 36524 - doe / 146096) / 365)%Z in
  let doy := (doe - (365 * yoe + yoe / 4 - yoe / 100))%Z in
  let mp := ((5 * doy + 2) / 153)%Z in
  let d := (doy - (153 * mp + 2) / 5 + 1)%Z in
  let m := (if (mp <? 10)%Z then mp + 3 else mp - 9)%Z in
  let y := (yoe + era * 400 + (if (m <=? 2)%Z then 1 else 0))%Z in
  (y, m, d).

Definition days_from_civil (y m d : Z) : Z :=
  let y' := (if (m <=? 2)%Z then y - 1 else y)%Z in
  let era := (y' / 400)%Z in
  let yoe := (y' - era * 400)%Z in
  let doy := ((153 * (if (2 <? m)%Z then m - 3 else m + 9) + 2) / 5 + d - 1)%Z in
  let doe := (yoe * 365 + yoe / 4 - yoe / 100 + doy)%Z in
  (era * 146097 + doe - 719468)%Z.

Definition days_in_month (y m : Z) : Z :=
  (days_from_civil (if (m =? 12)%Z then y + 1 else y) (if (m =? 12)%Z then 1 else m + 1) 1
   - days_from_civil y m 1)%Z.

(** [new Date(ms).toISOString()] *)
Definition iso_of_ms (ms : Z) : string :=
  let day := (ms / 86400000)%Z in
  let rest := (ms mod 86400000)%Z in
  let '(y, m, d) := civil_from_days day in
  let year :=
    if ((0 <=? y) && (y <=? 9999))%Z then padded 4 y
    else (if (y <? 0)%Z then "-" else "+") +:+ padded 6 (Z.abs y) in
  year +:+ "-" +:+ padded 2 m +:+ "-" +:+ padded 2 d
  +:+ "T" +:+ padded 2 (rest / 3600000) +:+ ":" +:+ padded 2 (rest / 60000 mod 60)
  +:+ ":" +:+ padded 2 (rest / 1000 mod 60) +:+ "." +:+ padded 3 (rest mod 1000) +:+ "Z".

(** Exactly [n] decimal digits at the head of [s]. *)
Fixpoint fixed_digits (n : nat) (acc : Z) (s : string) : option (Z * string) :=
  match n with
  | O => Some (acc, s)
  | S n' =>
      match s with
      | String c s' =>
          match digit_value 10 c with
          | Some v => fixed_digits n' (acc * 10 + v)%Z s'
          | None => None
          end
      | "" => None
      end
  end.

Definition read_year (s : string) : option (Z * string) :=
  match starts "+" s, starts "-" s with
  | Some s', _ => fixed_digits 6 0 s'
  | None, Some s' =>
      '(y, rest) ← fixed_digits 6 0 s';
      if (y =? 0)%Z then None else Some ((- y)%Z, rest)
  | None, None => fixed_digits 4 0 s
  end.

Definition read_date (s : string) : option (Z * Z * Z * string) :=
  '(y, s) ← read_year s;
  match starts "-" s with
  | None => Some (y, 1%Z, 1%Z, s)
  | Some s =>
      '(m, s) ← fixed_digits 2 0 s;
      match starts "-" s with
      | None => Some (y, m, 1%Z, s)
      | Some s => '(d, s) ← fixed_digits 2 0 s; Some (y, m, d, s)
      end
  end.

Definition read_time (s : string) : option (Z * Z * Z * Z * string) :=
  '(h, s) ← fixed_digits 2 0 s;
  s ← starts ":" s;
  '(mi, s) ← fixed_digits 2 0 s;
  match starts ":" s with
  | None => Some (h, mi, 0%Z, 0%Z, s)
  | Some s =>
      '(sec, s) ← fixed_digits 2 0 s;
      match starts "." s with
      | None => Some (h, mi, sec, 0%Z, s)
      | Some s => '(ms, s) ← fixed_digits 3 0 s; Some (h, mi, sec, ms, s)
      end
  end.

(** The offset from UTC in minutes: [Z] or [±HH:mm]. *)
Definition read_offset (s : string) : option Z :=
  match s with
  | "Z" => Some 0%Z
  | _ =>
      '(sign, s) ←
        match starts "+" s, starts "-" s with
        | Some s', _ => Some (1%Z, s')
        | None, Some s' => Some ((-1)%Z, s')
        | None, None => None
        end;
      '(h, s) ← fixed_digits 2 0 s;
      s ← starts ":" s;
      '(mi, s) ← fixed_digits 2 0 s;
      match s with
      | "" => if ((h <=? 23) && (mi <=? 59))%Z then Some (sign * (h * 60 + mi))%Z else None
      | _ => None
      end
  end.

(** [Date.parse(s)] on the date-time string format. *)
Definition ms_of_iso (s : string) : option Z :=
  '(y, m, d, s) ← read_date s;
  if negb ((1 <=? m) && (m <=? 12) && (1 <=? d) && (d <=? days_in_month y m))%Z then None
  else
    let day := days_from_civil y m d in
    match s with
    | "" => Some (day * 86400000)%Z
    | _ =>
        s ← starts "T" s;
        '(h, mi, sec, ms, s) ← read_time s;
        offset ← read_offset s;
        if ((h <=? 23) && (mi <=? 59) && (sec <=? 59)
            || (h =? 24) && (mi =? 0) && (sec =? 0) && (ms =? 0))%Z
        then Some (day * 86400000 + h * 3600000 + (mi - offset) * 60000
                   + sec * 1000 + ms)%Z
        else None
    end.

(** [TimeClip]: a time value is within 8.64e15 ms of the epoch. *)
Definition time_clip (t : Z) : num :=
  if (Z.abs t <=? 8640000000000000)%Z then Fin (inject_Z t) else NaN.

Definition date_of_string (s : string) : num :=
  match ms_of_iso s with
  | Some t => time_clip t
  | None => NaN
  end.

Definition date_of_number (q : Q) : num :=
  time_clip (Z.quot (Qnum q) (Z.pos (Qden q))).

(** [new Date(v).getTime()] *)
Definition date_ms (v : option json) : num :=
  match v with
  | Some (JStr s) | Some (JArr [JStr s]) => date_of_string s
  | Some (JArr [JNum q]) => date_of_string (number_to_string q)
  | Some (JNum q) => date_of_number q
  | Some (JBool b) => Fin (if b then 1 else 0)
  | Some JNull => Fin 0
  | _ => NaN
  end.

Definition sample_runtime : Runtime := {|
  ToString := number_to_string;
  trim := ascii_trim;
  ToNumber := string_to_number;
  DateMs := date_ms;
  toISOString := iso_of_ms;
|}.

(** ** Sequences of calls *)

Inductive call :=
| Me
| UserData
| Reviews
| PutStatus
| PutRating
| PostReviews (now created : Z).

Definition handle (rt : Runtime) (c : call) : Request → io Reply :=
  match c with
  | Me => get_me
  | UserData => get_user_data
  | Reviews => get_reviews rt
  | PutStatus => put_status rt
  | PutRating => put_rating rt
  | PostReviews now created => post_reviews rt now created
  end.

(** The disk after a sequence of requests, served one after the other,
    each to its end before the next is read; a request that throws
    leaves the disk as it was at the throw.  There is no disk when the
    model does not follow one of the requests.  Requests that arrive
    while another awaits the store are not served this way: see
    [overlapped] below. *)
Fixpoint run (rt : Runtime) (cs : list (call * Request)) (d : disk) : option disk :=
  match cs with
  | [] => Some d
  | (c, req) :: cs' =>
      match handle rt c req d with
      | (Exotic, _) => None
      | (_, d') => run rt cs' d'
      end
  end.

(** ** Requests that overlap *)

(** Two requests that overlap.  A handler awaits [readStore()] and later
    [writeStore(store)], and the server serves other requests while it
    waits: [overlapped k1 k2] is the schedule in which both requests read
    the store before either goes on, [k1] and [k2] being what the two
    handlers do once they have read. *)
Definition overlapped {A B} (k1 : Store → io A) (k2 : Store → io B) : io (A * B) :=
  store1 ← readStore;
  store2 ← readStore;
  a ← k1 store1;
  b ← k2 store2;
  mret (a, b).

(** [app.get('/api/me')] for the session user [u], from the point where
    [readStore()] has returned [store]. *)
Definition me_after_read (u : AuthUser) (store : Store) : io Reply :=
  let userId := id u in
  found ← lift (get_prop (users store) userId);
  let existing := nullish found bare_record in
  props ← lift (spread_props existing);
  let record := JObj (<["profile" := user_json u]> props) in
  users' ← lift (set_prop (users store) userId (Some record));
  writeStore {| users := users'; reviews := reviews store |};;
  mret (res_json 200 [("user", Some (user_json u))]).

(** [app.post('/api/reviews')] for the session user [u] and an accepted
    body, from the point where [readStore()] has returned [store]. *)
Definition post_reviews_after_read (rt : Runtime) (now created : Z) (u : AuthUser)
    (movieId : Q) (content : string) (rating : option json) (store : Store) : io Reply :=
  let review := object_literal [
    ("id", Some (JStr (ToString rt movieId +:+ "-" +:+ ToString rt (inject_Z now))));
    ("movieId", Some (JNum movieId));
    ("author", Some (JStr (displayName u)));
    ("rating", rating);
    ("content", Some (JStr (trim rt content)));
    ("createdAt", Some (JStr (toISOString rt created)));
    ("userId", Some (JStr (id u)))] in
  stored ← lift (spread_elems (nullish (Some (reviews store)) (JArr [])));
  writeStore {| users := users store; reviews := JArr (review :: stored) |};;
  mret (res_json 201 [("review", Some review)]).

(** ** What a request finds on the disk *)

(** The file after [ensureStore]. *)
Definition ensured (d : disk) : content :=
  default (JSON_stringify (store_json empty_store)) d.

(** The value a file holds under a top-level name. *)
Definition held (c : content) (k : string) : option json :=
  match c with
  | Parsed (JObj doc) => doc !! k
  | _ => None
  end.

(** The store a handler reads from the disk. *)
Definition stored (d : disk) : Store :=
  {| users := nullish (held (ensured d) "users") (JObj ∅);
     reviews := nullish (held (ensured d) "reviews") (JArr []) |}.

(** The disk after [writeStore s]. *)
Definition written (s : Store) : disk := Some (JSON_stringify (store_json s)).

(** The entries [e] of a user after the caller set the value of one movie:
    [null] deletes the entry and anything else replaces it. *)
Definition updated_entries (rt : Runtime) (movieId : Q) (value : option json)
    (e : gmap string json) : gmap string json :=
  partial_alter (λ _, if strict_ne_null value then value else None) (ToString rt movieId) e.

Definition is_mapping (j : json) : Prop := ∃ m, j = JObj m.
Definition is_list (j : json) : Prop := ∃ l, j = JArr l.

(** A map of entries of a user record, as the data model has it: absent,
    [null] or an object. *)
Definition field_ok (rec : gmap string json) (field : string) : Prop :=
  match rec !! field with
  | None | Some JNull | Some (JObj _) => True
  | _ => False
  end.

Definition record_ok (v : json) : Prop :=
  match v with
  | JNull => True
  | JObj rec => field_ok rec "watchStates" ∧ field_ok rec "ratings"
  | _ => False
  end.

(** The users of the store are a mapping and the record of [userId], if
    there is one, is a record of the data model. *)
Definition caller_ok (d : disk) (userId : string) : Prop :=
  match users (stored d) with
  | JObj um => from_option record_ok True (um !! userId)
  | _ => False
  end.

(** The users of the store are a mapping of records. *)
Definition users_ok (d : disk) : Prop :=
  match users (stored d) with
  | JObj um => map_Forall (λ _ v, record_ok v) um
  | _ => False
  end.

(** The record a handler works on for [u]: the stored one, or the fresh
    one when none is stored. *)
Definition record_of (d : disk) (u : AuthUser) : json :=
  match users (stored d) with
  | JObj um => nullish (um !! id u) (fresh_record u)
  | _ => fresh_record u
  end.

(** The entries of a record under [field], read as the handlers do. *)
Definition entries_of (record : json) (field : string) : json :=
  match record with
  | JObj rec => nullish (rec !! field) (JObj ∅)
  | _ => JObj ∅
  end.

(** From disk [d] to disk [d'] nothing changed but, at most, the entry
    under [key] of the map [field] of the record of [u]: the reviews, the
    records of the other users and the other fields of the record of [u]
    (the other map, the profile) are the same. *)
Definition only_entry_changed (d d' : disk) (u : AuthUser) (field key : string) : Prop :=
  reviews (stored d') = reviews (stored d)
  ∧ (∃ um um', users (stored d) = JObj um ∧ users (stored d') = JObj um'
       ∧ ∀ k, k ≠ id u → um' !! k = um !! k)
  ∧ (∃ rec rec' e e',
       record_of d u = JObj rec ∧ record_of d' u = JObj rec'
       ∧ (∀ f, f ≠ field → rec' !! f = rec !! f)
       ∧ entries_of (JObj rec) field = JObj e ∧ entries_of (JObj rec') field = JObj e'
       ∧ ∀ k, k ≠ key → e' !! k = e !! k).

(** How many records the store keeps under a user id. *)
Definition records_under (d : disk) (userId : string) : nat :=
  match users (stored d) with
  | JObj um => length (filter (λ kv, kv.1 = userId) (map_to_list um))
  | _ => 0
  end.

(** A stored review is about the movie numbered [n]: it is an object
    whose [movieId] is a number equal to [n]. *)
Definition about_movie (n : num) (review : json) : bool :=
  match review with
  | JObj rec => strict_eq_num (rec !! "movieId") n
  | _ => false
  end.

Definition createdAt (review : json) : option json :=
  match review with
  | JObj rec => rec !! "createdAt"
  | _ => None
  end.

(** The creation time of a review in milliseconds, when its [createdAt]
    is a date. *)
Definition time_of (rt : Runtime) (review : json) : Q :=
  match DateMs rt (createdAt review) with
  | Fin t => t
  | _ => 0%Q
  end.

Definition has_date (rt : Runtime) (review : json) : Prop :=
  ∃ t, DateMs rt (createdAt review) = Fin t.

(** The order of a list sorted with the later [key] first. *)
Definition newest_first {A} (key : A → Q) (a b : A) : Prop := (key b <= key a)%Q.

(** The review [POST /api/reviews] makes. *)
Definition new_review (rt : Runtime) (now created : Z) (u : AuthUser) (m : Q)
    (text : string) (rating : option json) : json :=
  object_literal [
    ("id", Some (JStr (ToString rt m +:+ "-" +:+ ToString rt (inject_Z now))));
    ("movieId", Some (JNum m));
    ("author", Some (JStr (displayName u)));
    ("rating", rating);
    ("content", Some (JStr (trim rt text)));
    ("createdAt", Some (JStr (toISOString rt created)));
    ("userId", Some (JStr (id u)))].

(** A store of the shape of the data model: the users are a mapping of
    records and the reviews are a list. *)
Definition store_ok (d : disk) : Prop :=
  users_ok d ∧ is_list (reviews (stored d)).

(** The disk [d'] keeps the records of [d], with at most one more, under
    the id of the caller. *)
Definition grows (d d' : disk) (caller : option string) : Prop :=
  users_ok d'
  ∧ (∀ k, records_under d k = 1 → records_under d' k = 1)
  ∧ (∀ k, caller ≠ Some k → records_under d' k = records_under d k).

(** A rating the API accepts: [null] or an integer from 1 to 5. *)
Definition rating_accepted (v : option json) : Prop :=
  v = Some JNull ∨ ∃ (q : Q) (z : Z), v = Some (JNum q) ∧ (q == inject_Z z)%Q ∧ (1 ≤ z ≤ 5)%Z.

(** A status the API accepts: [null] or one of the three words. *)
Definition status_word (s : string) : Prop :=
  s = "watched" ∨ s = "watching" ∨ s = "watchlist".

Definition status_accepted (v : option json) : Prop :=
  v = Some JNull ∨ ∃ s, v = Some (JStr s) ∧ status_word s.

(** A body with these values under the names the handlers read. *)
Definition body_field (req : Request) (k : string) : option json :=
  match nullish (req_body req) (JObj ∅) with
  | JObj b => b !! k
  | _ => None
  end.

(** The calls that put the record of the caller into the store: the two
    [GET]s of an authenticated user and the two [PUT]s once their body is
    accepted. *)
Definition upserts (c : call) (req : Request) : Prop :=
  match c with
  | Me | UserData => True
  | PutStatus =>
      (∃ m, body_field req "movieId" = Some (JNum m))
      ∧ status_accepted (body_field req "status")
  | PutRating =>
      (∃ m, body_field req "movieId" = Some (JNum m))
      ∧ rating_accepted (body_field req "rating")
  | Reviews | PostReviews _ _ => False
  end.

(** A review that is an object and carries a date not later than [T]. *)
Definition dated_before (rt : Runtime) (T : Z) (review : json) : Prop :=
  is_mapping review ∧ ∃ t, DateMs rt (createdAt review) = Fin t ∧ (t <= inject_Z T)%Q.

(** The reviews of the store are a list of such reviews. *)
Definition reviews_before (rt : Runtime) (T : Z) (d : disk) : Prop :=
  ∃ l, reviews (stored d) = JArr l ∧ Forall (dated_before rt T) l.

(** The reviews a sequence of calls posts are created at [T] at the
    latest, at times the runtime reads back from the date it prints. *)
Definition posted_before (rt : Runtime) (T : Z) (cs : list (call * Request)) : Prop :=
  Forall (λ cr : call * Request,
            match cr.1 with
            | PostReviews _ created =>
                (created ≤ T)%Z
                ∧ DateMs rt (Some (JStr (toISOString rt created))) = Fin (inject_Z created)
            | _ => True
            end) cs.

(** ** Views of the store and of the client state *)

(** The record the store keeps under a user id. *)
Definition user_at (d : disk) (userId : string) : option json :=
  match users (stored d) with
  | JObj um => um !! userId
  | _ => None
  end.

(** From disk [d] to disk [d'] the store changed at most in the entry
    under [key] of the map [field] of the record stored for [u].  The
    reviews and what is stored under the other ids are the same.  A
    record that was stored for [u] keeps its other fields, and its map
    [field], empty if the record had none, differs at most under [key].
    Where no record was stored for [u] ([found] is nothing or [null]) one
    is now, the fresh record of [u] but for the map [field], which holds
    at most an entry under [key]. *)
Definition only_entry_written (d d' : disk) (u : AuthUser) (field key : string) : Prop :=
  reviews (stored d') = reviews (stored d)
  ∧ (∀ k, k ≠ id u → user_at d' k = user_at d k)
  ∧ ∃ rec' e',
      user_at d' (id u) = Some (JObj rec')
      ∧ rec' !! field = Some (JObj e')
      ∧ match user_at d (id u) with
        | Some (JObj rec) =>
            (∀ f, f ≠ field → rec' !! f = rec !! f)
            ∧ ∃ e, nullish (rec !! field) (JObj ∅) = JObj e
                   ∧ ∀ k, k ≠ key → e' !! k = e !! k
        | found =>
            nullish found JNull = JNull
            ∧ (∃ fresh, fresh_record u = JObj fresh
                        ∧ ∀ f, f ≠ field → rec' !! f = fresh !! f)
            ∧ ∀ k, k ≠ key → e' !! k = None
        end.

(** [PUT] of the value the body has under [name] made [kept] of the
    record [rec]: the record with its map [field], empty if it had none,
    updated under the movie id. *)
Definition entry_put (rt : Runtime) (req : Request) (field name : string)
    (rec : gmap string json) (kept : option json) : Prop :=
  ∃ m e,
    body_field req "movieId" = Some (JNum m)
    ∧ nullish (rec !! field) (JObj ∅) = JObj e
    ∧ kept = Some (JObj (<[field := JObj (updated_entries rt m (body_field req name) e)]> rec)).

(** What an upserting call of [u] makes of what the store holds under
    the id of [u], [found] before the call and [kept] after it: the
    record found, or the fresh record when nothing or [null] was found,
    with the profile of the session for [GET /api/me] and the entry set
    for a [PUT]. *)
Definition upserted (rt : Runtime) (c : call) (req : Request) (u : AuthUser)
    (found kept : option json) : Prop :=
  ∃ rec,
    nullish found (fresh_record u) = JObj rec
    ∧ match c with
      | Me => kept = Some (JObj (<["profile" := user_json u]> rec))
      | UserData => kept = Some (JObj rec)
      | PutStatus => entry_put rt req "watchStates" "status" rec kept
      | PutRating => entry_put rt req "ratings" "rating" rec kept
      | Reviews | PostReviews _ _ => True
      end.


(** A review as [POST /api/reviews] makes them: an object with a numeric
    [movieId], a [content] that is not empty, a [rating] that is [null] or
    an integer from 1 to 5, and the name and the id of its author. *)
Definition review_valid (review : json) : Prop :=
  ∃ rec m text,
    review = JObj rec
    ∧ rec !! "movieId" = Some (JNum m)
    ∧ rec !! "content" = Some (JStr text) ∧ text ≠ ""
    ∧ rating_accepted (rec !! "rating")
    ∧ (∃ name, rec !! "author" = Some (JStr name))
    ∧ (∃ userId, rec !! "userId" = Some (JStr userId)).

(** The calls made in the session of [userId]. *)
Definition called_by (userId : string) (cr : call * Request) : Prop :=
  ∃ u, req_user cr.2 = Some u ∧ id u = userId.

(** A rating that is a whole number between [lo] and [hi], as the stars
    of the rating strip are between 1 and 5. *)
Definition whole_between (lo hi : Z) (r : Q) : Prop :=
  ∃ n : Z, (r == inject_Z n)%Q ∧ (lo ≤ n ≤ hi)%Z.

(** How many movies carry the state [s]. *)
Definition marked (s : WatchState) (watchStates : gmap Z WatchState) : nat :=
  length (filter (λ state, state = s) (Object_values watchStates)).

(** The creation time of a client review, when it is a date. *)
Definition review_time (rt : Runtime) (review : UserReview) : Q :=
  match DateMs rt (Some (JStr (review_createdAt review))) with
  | Fin t => t
  | _ => 0%Q
  end.

(** A session that publishes to the server: signed in, with an API. *)
Definition publishes (API_BASE_URL : option string) (st : AppState) : bool :=
  isSignedIn st && truthy API_BASE_URL.

(** The parameters of the search request of [loadMovies]. *)
Definition search_params (trimmedQuery : string) : list (string * json) :=
  [("query", JStr trimmedQuery); ("include_adult", JBool false);
   ("language", JStr "en-US"); ("page", JNum 1)].

(** ** Sample data *)

Definition alice : AuthUser :=
  {| id := "1001"; displayName := "Alice"; email := "alice@example.org"; avatar := "" |}.

Definition bob : AuthUser :=
  {| id := "2002"; displayName := "Bob"; email := "bob@example.org"; avatar := "" |}.

(** [PUT /api/status {movieId: 90001, status: "watched"}] by Alice. *)
Definition put_watched : Request :=
  {| req_user := Some alice;
     req_body := Some (JObj {["movieId" := JNum 90001; "status" := JStr "watched"]});
     req_params_movieId := "" |}.

(** [PUT /api/rating {movieId: 90001, rating: 6}] by Alice. *)
Definition put_six_stars : Request :=
  {| req_user := Some alice;
     req_body := Some (JObj {["movieId" := JNum 90001; "rating" := JNum 6]});
     req_params_movieId := "" |}.

(** [PUT /api/rating {movieId: 90001, rating: 5}] by Alice. *)
Definition put_five_stars : Request :=
  {| req_user := Some alice;
     req_body := Some (JObj {["movieId" := JNum 90001; "rating" := JNum 5]});
     req_params_movieId := "" |}.

(** [POST /api/reviews {movieId: 90002, content: " Great film ", rating: 4}]
    by Alice. *)
Definition post_great_film : Request :=
  {| req_user := Some alice;
     req_body := Some (JObj {["movieId" := JNum 90002; "content" := JStr " Great film ";
                              "rating" := JNum 4]});
     req_params_movieId := "" |}.

(** [GET /api/reviews/90002] without a session. *)
Definition get_reviews_90002 : Request :=
  {| req_user := None; req_body := None; req_params_movieId := "90002" |}.

Definition review_at (movieId : Q) (created : string) (text : string) : json :=
  JObj {["movieId" := JNum movieId; "createdAt" := JStr created; "content" := JStr text]}.

(** A store file with three reviews, two of them about movie 90002. *)
Definition three_reviews : list json :=
  [review_at 90002 "1000" "first"; review_at 90001 "1500" "other";
   review_at 90002 "2000" "second"].

Definition disk_with_reviews : disk :=
  written {| users := JObj ∅; reviews := JArr three_reviews |}.

(** A store file with the record of Alice, who watched movie 90001. *)
Definition alice_record : json :=
  object_literal [("watchStates", Some (JObj {["90001" := JStr "watched"]}));
                  ("ratings", Some (JObj ∅));
                  ("profile", Some (user_json alice))].

Definition disk_with_alice : disk :=
  written {| users := JObj {["1001" := alice_record]}; reviews := JArr [] |}.

(** A store file with a review of movie 90002 dated 1 January 2030. *)
Definition review_of_2030 : json :=
  review_at 90002 "2030-01-01T00:00:00.000Z" "from later".

Definition disk_with_later_review : disk :=
  written {| users := JObj ∅; reviews := JArr [review_of_2030] |}.

Definition action_one : Movie :=
  {| movie_id := 1; title := "Action one"; genre_ids := Some [28%N] |}.
Definition action_two : Movie :=
  {| movie_id := 2; title := "Action two"; genre_ids := Some [28%N] |}.
Definition drama_three : Movie :=
  {| movie_id := 3; title := "Drama three"; genre_ids := Some [18%N] |}.

(** [PUT /api/status {movieId: 90001, status: "seen"}] by Alice. *)
Definition put_seen : Request :=
  {| req_user := Some alice;
     req_body := Some (JObj {["movieId" := JNum 90001; "status" := JStr "seen"]});
     req_params_movieId := "" |}.

(** A body whose movie id is the string ["90001"], by Alice. *)
Definition put_text_id : Request :=
  {| req_user := Some alice;
     req_body := Some (JObj {["movieId" := JStr "90001"; "status" := JStr "watched";
                              "rating" := JNum 5; "content" := JStr "Fine"]});
     req_params_movieId := "" |}.

(** [PUT /api/status {movieId: 90001, status: null}] by Alice. *)
Definition put_unwatch : Request :=
  {| req_user := Some alice;
     req_body := Some (JObj {["movieId" := JNum 90001; "status" := JNull]});
     req_params_movieId := "" |}.

(** [POST /api/reviews {movieId: 90002, content: "Fine", rating: 9}] by
    Alice. *)
Definition post_nine_stars : Request :=
  {| req_user := Some alice;
     req_body := Some (JObj {["movieId" := JNum 90002; "content" := JStr "Fine";
                              "rating" := JNum 9]});
     req_params_movieId := "" |}.

(** [GET /api/reviews/abc] without a session. *)
Definition get_reviews_abc : Request :=
  {| req_user := None; req_body := None; req_params_movieId := "abc" |}.

Definition key_env : Env := {| TMDB_API_KEY := Some "key"; TMDB_READ_ACCESS_TOKEN := None |}.
Definition no_env : Env := {| TMDB_API_KEY := None; TMDB_READ_ACCESS_TOKEN := None |}.

Definition north_star : Movie :=
  {| movie_id := 90001; title := "North Star Signal"; genre_ids := Some [53; 18]%N |}.

Definition local_review (i : string) (movieId : Z) (created : string) : UserReview :=
  {| review_id := i; review_movieId := movieId; review_author := "Mara P.";
     review_rating := Some 4%Q; review_content := "Slow start";
     review_createdAt := created |}.

(** Three local reviews, two of them about movie 90001. *)
Definition local_reviews : list UserReview :=
  [local_review "r1" 90001 "1000"; local_review "r2" 90002 "1500";
   local_review "r3" 90001 "2000"].

(** A guest who looks at movie 90001, has it on the watchlist and rated
    5, typed a search and drafted a review. *)
Definition drafting : AppState :=
  setReviewDraft " Loved it "
    (setReviews (λ _, local_reviews)
       (setActiveMovie (λ _, Some north_star)
          (setRatings (λ _, {[90001%Z := 5%Q]})
             (setWatchStates (λ _, {[90001%Z := watchlist]})
                (setQuery " star " initial_state))))).

(** The same state in the session of Alice. *)
Definition signed_in : AppState := {|
  st_currentUser := Some alice; st_movies := st_movies drafting;
  st_recommendations := st_recommendations drafting; st_genres := st_genres drafting;
  st_feed := st_feed drafting; st_selectedGenre := st_selectedGenre drafting;
  st_query := st_query drafting; st_searchInput := st_searchInput drafting;
  st_loading := st_loading drafting; st_error := st_error drafting;
  st_activeMovie := st_activeMovie drafting; st_watchStates := st_watchStates drafting;
  st_ratings := st_ratings drafting; st_reviews := st_reviews drafting;
  st_reviewDraft := st_reviewDraft drafting |}.

(** A catalog that finds one movie for every search and answers the
    sample movies otherwise. *)
Definition sample_catalog (path : string) (params : list (string * json))
    : outcome (option (list Movie)) :=
  if String.eqb path "/search/movie" then Ok (Some [north_star])
  else Ok (Some fallbackMovies).

(** * Properties *)

Section Store_access.

Lemma ensureStore_run d : ensureStore d = (Ok (), Some (ensured d)).
Proof. by destruct d. Qed.

Lemma readStore_run d : readStore d = (Ok (stored d), Some (ensured d)).
Proof.
  unfold readStore, mbind, io_bind. rewrite ensureStore_run. simpl.
  unfold stored, lift. f_equal.
  destruct (ensured d) as [|[]]; try done.
Qed.

Lemma writeStore_run s d : writeStore s d = (Ok (), written s).
Proof. unfold writeStore, mbind, io_bind. by rewrite ensureStore_run. Qed.

Lemma stored_written s :
  users s ≠ JNull → reviews s ≠ JNull →
  stored (written s) = s.
Proof.
  intros Hu Hr. destruct s as [u r]. unfold stored; simpl in *.
  rewrite lookup_insert_eq, lookup_insert_ne, lookup_insert_eq by done.
  by destruct u, r.
Qed.

Lemma stored_users_not_null d : users (stored d) ≠ JNull.
Proof. unfold stored; simpl. by destruct (held _ _) as [[]|]. Qed.

Lemma stored_reviews_not_null d : reviews (stored d) ≠ JNull.
Proof. unfold stored; simpl. by destruct (held _ _) as [[]|]. Qed.

Lemma stored_ensured d : stored (Some (ensured d)) = stored d.
Proof. by destruct d. Qed.

(** C8, as the code has it.  [readStore] returns a store for every
    disk: a missing file is created with the empty defaults, which are
    also what is returned; a file that does not parse gives the empty
    defaults and is left as it is; otherwise the store has under [users]
    and under [reviews] what the document holds there, or the empty
    default where the document holds nothing or [null].  Neither field
    is [null], and a field is a mapping, respectively a list, whenever
    the document holds nothing, [null], or a value of that kind there. *)
Theorem readStore_total (d : disk) :
  ∃ s, readStore d = (Ok s, Some (ensured d))
    ∧ (d = None → s = empty_store ∧ ensured d = JSON_stringify (store_json empty_store))
    ∧ (d = Some Unparseable → s = empty_store ∧ ensured d = Unparseable)
    ∧ users s = nullish (held (ensured d) "users") (JObj ∅)
    ∧ reviews s = nullish (held (ensured d) "reviews") (JArr [])
    ∧ users s ≠ JNull ∧ reviews s ≠ JNull
    ∧ ((∀ v, held (ensured d) "users" = Some v → v = JNull ∨ is_mapping v)
       → is_mapping (users s))
    ∧ ((∀ v, held (ensured d) "reviews" = Some v → v = JNull ∨ is_list v)
       → is_list (reviews s)).
Proof.
  exists (stored d). split; [apply readStore_run|].
  split; [by intros ->|]. split; [by intros ->|].
  split; [done|]. split; [done|].
  split; [apply stored_users_not_null|]. split; [apply stored_reviews_not_null|].
  unfold stored; cbn [users reviews]. split; intros Hshape.
  - destruct (held _ "users") as [v|]; [|by eexists].
    destruct (Hshape v eq_refl) as [-> | [m ->]]; by eexists.
  - destruct (held _ "reviews") as [v|]; [|by eexists].
    destruct (Hshape v eq_refl) as [-> | [l ->]]; by eexists.
Qed.

(** C8, as the claim has it, fails: a well-formed document whose [users]
    is a number is read back with that number as its users. *)
Lemma readStore_not_always_a_mapping :
  let d := Some (Parsed (JObj {["users" := JNum 5]})) in
  ∃ s d', readStore d = (Ok s, d') ∧ users s = JNum 5 ∧ ¬ is_mapping (users s).
Proof.
  intros d. exists (stored d), (Some (ensured d)).
  split; [apply readStore_run|]. split; [reflexivity|].
  intros [m Hm]. discriminate Hm.
Qed.

End Store_access.

Section Validation.

Lemma Q_is_integer_spec q :
  Q_is_integer q = true ↔ ∃ z : Z, (q == inject_Z z)%Q.
Proof.
  unfold Q_is_integer, Qeq; destruct q as [n p]; simpl. rewrite Z.eqb_eq. split.
  - intros Hmod. exists (n / Z.pos p)%Z.
    pose proof (Z.div_mod n (Z.pos p)) as Hdiv. lia.
  - intros [z Hz]. replace n with (z * Z.pos p)%Z by lia. apply Z.mod_mul. lia.
Qed.

Lemma Qle_bool_inject q z c :
  (q == inject_Z z)%Q → Qle_bool (inject_Z c) q = true ↔ (c ≤ z)%Z.
Proof.
  intros Hq. by rewrite Qle_bool_iff, Hq, <- Zle_Qle.
Qed.

Lemma Qle_bool_inject_r q z c :
  (q == inject_Z z)%Q → Qle_bool q (inject_Z c) = true ↔ (z ≤ c)%Z.
Proof.
  intros Hq. by rewrite Qle_bool_iff, Hq, <- Zle_Qle.
Qed.

Lemma rating_rejected_spec v : rating_rejected v = false ↔ rating_accepted v.
Proof.
  unfold rating_rejected, rating_accepted. split.
  - destruct v as [[| |q| | |]|]; simpl; try done; [by left|].
    intros H. right.
    destruct (Q_is_integer q) eqn:Hint; [|done]. simpl in H.
    apply Q_is_integer_spec in Hint as [z Hz]. exists q, z.
    apply orb_false_iff in H as [H1 H5].
    apply negb_false_iff in H1, H5.
    apply (Qle_bool_inject _ _ 1 Hz) in H1. apply (Qle_bool_inject_r _ _ 5 Hz) in H5.
    done.
  - intros [-> | (q & z & -> & Hz & H1 & H5)]; [done|]. simpl.
    assert (Q_is_integer q = true) as -> by (apply Q_is_integer_spec; eauto).
    assert (Qle_bool 1 q = true) as -> by by apply (Qle_bool_inject _ _ 1 Hz).
    assert (Qle_bool q 5 = true) as -> by by apply (Qle_bool_inject_r _ _ 5 Hz).
    done.
Qed.

Lemma status_rejected_spec v : status_rejected v = false ↔ status_accepted v.
Proof.
  unfold status_rejected, status_accepted, status_word. split.
  - destruct v as [[| | |s| |]|]; simpl; try done; [by left|].
    rewrite andb_true_r, !andb_false_iff, !negb_false_iff, !String.eqb_eq.
    intros H. right. exists s. split; [done|]. tauto.
  - intros [-> | (s & -> & [-> | [-> | ->]])]; done.
Qed.

(** Destructuring the body: reading one of the names the handlers use. *)
Lemma body_get req k :
  is_exotic_key k = false →
  get_prop (nullish (req_body req) (JObj ∅)) k = Ok (body_field req k).
Proof.
  intros Hk. unfold body_field.
  destruct (req_body req) as [[| | | |l|]|]; simpl; try done.
  - by rewrite Hk.
  - unfold is_exotic_key in Hk. apply orb_false_iff in Hk as [Hlen Hidx].
    rewrite Hlen. apply bool_decide_eq_false in Hidx.
    destruct (array_index k); [|done]. destruct Hidx; eauto.
Qed.

End Validation.

Section Handler_runs.
Context (rt : Runtime).

Lemma bind_lift {A B} (o : outcome A) (f : A → io B) d :
  (lift o ≫= f) d
  = match o with Ok a => f a d | Throw => (Throw, d) | Exotic => (Exotic, d) end.
Proof. by destruct o. Qed.

Lemma bind_readStore {B} (f : Store → io B) d :
  (readStore ≫= f) d = f (stored d) (Some (ensured d)).
Proof. unfold mbind, io_bind. by rewrite readStore_run. Qed.

Lemma bind_writeStore {B} s (f : unit → io B) d :
  (writeStore s ≫= f) d = f () (written s).
Proof. unfold mbind, io_bind. by rewrite writeStore_run. Qed.

Lemma set_as_insert (x : json) k (m : gmap string json) :
  partial_alter (λ _, Some x) k m = <[k := x]> m.
Proof. done. Qed.

(** [put_entry] on a store whose users are a mapping, for a caller
    whose record and whose entries are objects. *)
Lemma put_entry_run u field m value d um rec e :
  users (stored d) = JObj um →
  nullish (um !! id u) (fresh_record u) = JObj rec →
  nullish (rec !! field) (JObj ∅) = JObj e →
  let e' := updated_entries rt m value e in
  put_entry rt u field m value d =
    (Ok (res_json 200 [(field, Some (JObj e'))]),
     written {| users := JObj (<[id u := JObj (<[field := JObj e']> rec)]> um);
                reviews := reviews (stored d) |}).
Proof.
  intros Hum Hrec He e'. unfold put_entry.
  rewrite bind_readStore, Hum, bind_lift. cbn [get_prop].
  rewrite Hrec, bind_lift. cbn [get_prop]. rewrite He, bind_lift. cbn [set_prop].
  rewrite bind_lift. subst e'. unfold updated_entries.
  destruct (strict_ne_null value); cbn [delete_prop];
    rewrite !bind_lift, bind_writeStore, !set_as_insert, insert_insert_eq; done.
Qed.

Lemma get_user_data_run req u d um :
  req_user req = Some u →
  users (stored d) = JObj um →
  let record := nullish (um !! id u) (fresh_record u) in
  get_user_data req d =
    (Ok (res_json 200 [("watchStates", Some (entries_of record "watchStates"));
                       ("ratings", Some (entries_of record "ratings"))]),
     written {| users := JObj (<[id u := record]> um); reviews := reviews (stored d) |}).
Proof.
  intros Hu Hum record. unfold get_user_data, requireAuth. rewrite Hu.
  rewrite bind_readStore, Hum, bind_lift. cbn [get_prop].
  rewrite bind_lift. cbn [set_prop]. rewrite bind_writeStore.
  fold record. rewrite set_as_insert.
  assert (record ≠ JNull) as Hrec.
  { unfold record. by destruct (um !! id u) as [[]|]. }
  by destruct record.
Qed.

Lemma get_me_run req u d um rec :
  req_user req = Some u →
  users (stored d) = JObj um →
  nullish (um !! id u) bare_record = JObj rec →
  get_me req d =
    (Ok (res_json 200 [("user", Some (user_json u))]),
     written {| users := JObj (<[id u := JObj (<["profile" := user_json u]> rec)]> um);
                reviews := reviews (stored d) |}).
Proof.
  intros Hu Hum Hrec. unfold get_me. rewrite Hu.
  rewrite bind_readStore, Hum, bind_lift. cbn [get_prop].
  rewrite Hrec, bind_lift. cbn [spread_props]. rewrite bind_lift. cbn [set_prop].
  by rewrite bind_writeStore.
Qed.

Lemma stored_written_users um d :
  stored (written {| users := JObj um; reviews := reviews (stored d) |})
  = {| users := JObj um; reviews := reviews (stored d) |}.
Proof. apply stored_written; [done | apply stored_reviews_not_null]. Qed.

(** What [caller_ok] gives the handlers to work on. *)
Lemma caller_ok_inv d u field :
  caller_ok d (id u) →
  field = "watchStates" ∨ field = "ratings" →
  ∃ um rec e,
    users (stored d) = JObj um
    ∧ nullish (um !! id u) (fresh_record u) = JObj rec
    ∧ nullish (rec !! field) (JObj ∅) = JObj e.
Proof.
  unfold caller_ok. destruct (users (stored d)) as [| | | | |um]; try done.
  intros Hrec Hfield. exists um.
  destruct (um !! id u) as [[| | | | |rec]|]; try done; simpl.
  - eexists _, ∅. split; [done|]. split; [done|]. by destruct Hfield as [-> | ->].
  - destruct Hrec as [Hw Hr]. exists rec.
    assert (field_ok rec field) as Hf by by destruct Hfield as [-> | ->].
    unfold field_ok in Hf. destruct (rec !! field) as [[]|]; try done; eauto.
  - eexists _, ∅. split; [done|]. split; [done|]. by destruct Hfield as [-> | ->].
Qed.

End Handler_runs.

Section Rejections.
Context (rt : Runtime).

(** C4.  Without a session, [PUT /api/status], [PUT /api/rating] and
    [POST /api/reviews] answer 401 and leave the disk as it is: the store
    file is not read, not written and not created. *)
Theorem unauthenticated_is_rejected (now created : Z) (req : Request) (d : disk) :
  req_user req = None →
  put_status rt req d = (Ok (error_reply 401 "Unauthorized"), d)
  ∧ put_rating rt req d = (Ok (error_reply 401 "Unauthorized"), d)
  ∧ post_reviews rt now created req d = (Ok (error_reply 401 "Unauthorized"), d)
  ∧ status (error_reply 401 "Unauthorized") = 401.
Proof.
  intros Hanon. unfold put_status, put_rating, post_reviews, requireAuth.
  by rewrite Hanon.
Qed.

(** C1.  An authenticated [PUT /api/rating] whose movie id is a number
    and whose rating is neither [null] nor an integer from 1 to 5 (a
    number out of range, a fraction, a string, no rating at all) answers
    400 and leaves the disk as it is: the store is not read. *)
Theorem invalid_rating_is_rejected (req : Request) (u : AuthUser) (m : Q) (d : disk) :
  req_user req = Some u →
  body_field req "movieId" = Some (JNum m) →
  ¬ rating_accepted (body_field req "rating") →
  put_rating rt req d = (Ok (error_reply 400 "Invalid rating"), d)
  ∧ status (error_reply 400 "Invalid rating") = 400.
Proof.
  intros Hu Hm Hr. split; [|done].
  unfold put_rating, requireAuth. rewrite Hu.
  unfold mbind at 1, io_bind, lift. rewrite body_get by done.
  unfold mbind at 1, io_bind. rewrite body_get by done.
  rewrite Hm.
  destruct (rating_rejected _) eqn:Hrej; [done|].
  by apply rating_rejected_spec in Hrej.
Qed.

End Rejections.


Section Tracking.
Context (rt : Runtime).

(** An accepted [PUT] on a store fit for the caller: the reply, the
    disk, and the caller's entries before and after. *)
Lemma put_accepted u field m value d :
  caller_ok d (id u) →
  field = "watchStates" ∨ field = "ratings" →
  ∃ um rec e,
    users (stored d) = JObj um
    ∧ record_of d u = JObj rec
    ∧ entries_of (JObj rec) field = JObj e
    ∧ put_entry rt u field m value d =
        (Ok (res_json 200 [(field, Some (JObj (updated_entries rt m value e)))]),
         written {| users := JObj (<[id u := JObj (<[field := JObj (updated_entries rt m value e)]> rec)]> um);
                    reviews := reviews (stored d) |}).
Proof.
  intros Hok Hfield.
  destruct (caller_ok_inv d u field Hok Hfield) as (um & rec & e & Hum & Hrec & He).
  exists um, rec, e. unfold record_of. rewrite Hum. repeat split; try done.
  by apply put_entry_run.
Qed.

Lemma put_status_run req u m d :
  req_user req = Some u →
  body_field req "movieId" = Some (JNum m) →
  status_accepted (body_field req "status") →
  put_status rt req d = put_entry rt u "watchStates" m (body_field req "status") d.
Proof.
  intros Hu Hm Hs. unfold put_status, requireAuth. rewrite Hu.
  rewrite body_get, bind_lift, body_get, bind_lift, Hm by done.
  apply status_rejected_spec in Hs. by rewrite Hs.
Qed.

Lemma put_rating_run req u m d :
  req_user req = Some u →
  body_field req "movieId" = Some (JNum m) →
  rating_accepted (body_field req "rating") →
  put_rating rt req d = put_entry rt u "ratings" m (body_field req "rating") d.
Proof.
  intros Hu Hm Hs. unfold put_rating, requireAuth. rewrite Hu.
  rewrite body_get, bind_lift, body_get, bind_lift, Hm by done.
  apply rating_rejected_spec in Hs. by rewrite Hs.
Qed.

(** C2.  For an authenticated user whose stored record is a record of
    the data model, [PUT /api/status] with a numeric movie id and one of
    the three status words answers 200, and a [GET /api/user-data] of
    the same user right after it answers a [watchStates] mapping that
    has the status under the movie id; with status [null] the mapping
    answered has no entry under the movie id.  The assumption on the
    store, [caller_ok], holds of every store the server makes
    ([server_made_store], [users_ok_caller]). *)
Theorem status_then_user_data (req req' : Request) (u : AuthUser) (m : Q) (d : disk) :
  req_user req = Some u →
  body_field req "movieId" = Some (JNum m) →
  status_accepted (body_field req "status") →
  caller_ok d (id u) →
  req_user req' = Some u →
  ∃ r1 d1 ws rs d2,
    put_status rt req d = (Ok r1, d1) ∧ status r1 = 200
    ∧ get_user_data req' d1 =
        (Ok (res_json 200 [("watchStates", Some (JObj ws)); ("ratings", Some rs)]), d2)
    ∧ (∀ s, body_field req "status" = Some (JStr s) → ws !! ToString rt m = Some (JStr s))
    ∧ (body_field req "status" = Some JNull → ws !! ToString rt m = None).
Proof.
  intros Hu Hm Hs Hok Hu'.
  destruct (put_accepted u "watchStates" m (body_field req "status") d Hok)
    as (um & rec & e & Hum & Hrec & He & Hrun); [by left|].
  rewrite (put_status_run req u m d Hu Hm Hs), Hrun.
  eexists _, _, (updated_entries rt m (body_field req "status") e), _, _.
  split; [done|]. split; [done|]. split.
  - erewrite get_user_data_run; [|done|by rewrite stored_written_users].
    rewrite lookup_insert_eq. simpl. by rewrite lookup_insert_eq.
  - unfold updated_entries. split.
    + intros s ->. by rewrite lookup_partial_alter_eq.
    + intros ->. by rewrite lookup_partial_alter_eq.
Qed.

Lemma put_entry_frame u field m value d :
  caller_ok d (id u) →
  field = "watchStates" ∨ field = "ratings" →
  ∃ r d', put_entry rt u field m value d = (Ok r, d') ∧ status r = 200
          ∧ only_entry_changed d d' u field (ToString rt m).
Proof.
  intros Hok Hfield.
  destruct (put_accepted u field m value d Hok Hfield)
    as (um & rec & e & Hum & Hrec & He & Hrun).
  rewrite Hrun. eexists _, _. split; [done|]. split; [done|].
  unfold only_entry_changed, record_of. rewrite !stored_written_users, Hum.
  cbn [users reviews]. rewrite lookup_insert_eq.
  split; [done|]. split.
  - exists um, (<[id u := JObj (<[field := JObj (updated_entries rt m value e)]> rec)]> um).
    split; [done|]. split; [done|]. intros k Hk. by rewrite lookup_insert_ne.
  - exists rec, (<[field := JObj (updated_entries rt m value e)]> rec),
           e, (updated_entries rt m value e).
    unfold record_of in Hrec. rewrite Hum in Hrec.
    split; [done|]. split; [done|].
    split; [intros f Hf; by rewrite lookup_insert_ne|].
    split; [done|]. split; [simpl; by rewrite lookup_insert_eq|].
    intros k Hk. unfold updated_entries. by rewrite lookup_partial_alter_ne.
Qed.

End Tracking.


Section Sorting.
Context {A : Type} (cmp : A → A → outcome num) (key : A → Q).

Lemma positive_difference (x y : Q) :
  num_positive (num_sub (Fin y) (Fin x)) = true ↔ (x < y)%Q.
Proof.
  simpl. rewrite negb_true_iff, <-not_true_iff_false, Qle_bool_iff. split.
  - intros H. apply Qnot_le_lt. intros Hle. apply H. lra.
  - intros H Hle. lra.
Qed.

Lemma insertM_sorted x l :
  (∀ y, y ∈ l → cmp x y = Ok (num_sub (Fin (key y)) (Fin (key x)))) →
  StronglySorted (newest_first key) l →
  ∃ l', insertM cmp x l = Ok l' ∧ l' ≡ₚ x :: l ∧ StronglySorted (newest_first key) l'
        ∧ ((∀ y, y ∈ l → (key y <= key x)%Q) → l' = x :: l).
Proof.
  intros Hcmp Hsorted. induction l as [|y l IH]; simpl.
  { exists [x]. repeat split; try done. repeat constructor. }
  rewrite Hcmp by set_solver. cbn [mbind outcome_bind].
  apply StronglySorted_inv in Hsorted as [Hl Hy].
  destruct (num_positive (num_sub (Fin (key y)) (Fin (key x)))) eqn:Hpos.
  - apply positive_difference in Hpos.
    destruct IH as (l' & -> & Hperm & Hs & Hhead); [set_solver | done |].
    exists (y :: l'). simpl. split; [done|]. split; [by rewrite Hperm, Permutation_swap|].
    split.
    + constructor; [done|]. rewrite Hperm. constructor; [|done].
      unfold newest_first. lra.
    + intros Hall. specialize (Hall y ltac:(set_solver)). lra.
  - exists (x :: y :: l). split; [done|]. split; [done|]. split; [|done].
    assert (¬ (key x < key y)%Q) as Hge.
    { intros Hlt. apply positive_difference in Hlt. congruence. }
    constructor; [by constructor|].
    constructor; [unfold newest_first; lra|].
    eapply Forall_impl; [exact Hy|]. unfold newest_first. intros z Hz. lra.
Qed.

Lemma array_sort_sorted l :
  (∀ x y, x ∈ l → y ∈ l → cmp x y = Ok (num_sub (Fin (key y)) (Fin (key x)))) →
  ∃ l', array_sort cmp l = Ok l' ∧ l' ≡ₚ l ∧ StronglySorted (newest_first key) l'.
Proof.
  induction l as [|x l IH]; intros Hcmp; simpl.
  { exists []. repeat split; try done. constructor. }
  destruct IH as (s & -> & Hperm & Hs); [intros; apply Hcmp; set_solver|].
  simpl.
  destruct (insertM_sorted x s) as (l' & -> & Hperm' & Hs' & _); [|done|].
  { intros y Hy. apply Hcmp; [set_solver|]. rewrite <-Hperm. set_solver. }
  exists l'. split; [done|]. split; [by rewrite Hperm', Hperm|done].
Qed.

Lemma array_sort_head x l :
  (∀ a b, a ∈ x :: l → b ∈ x :: l → cmp a b = Ok (num_sub (Fin (key b)) (Fin (key a)))) →
  (∀ y, y ∈ l → (key y <= key x)%Q) →
  ∃ rest, array_sort cmp (x :: l) = Ok (x :: rest) ∧ rest ≡ₚ l.
Proof.
  intros Hcmp Hnewest. simpl.
  destruct (array_sort_sorted l) as (s & -> & Hperm & Hs); [intros; apply Hcmp; set_solver|].
  simpl.
  destruct (insertM_sorted x s) as (l' & -> & _ & _ & Hhead); [|done|].
  { intros y Hy. apply Hcmp; [set_solver|]. rewrite <-Hperm. set_solver. }
  exists s. split; [|done]. f_equal. apply Hhead. intros y Hy. apply Hnewest. by rewrite <-Hperm.
Qed.
End Sorting.

Section Reviews.
Context (rt : Runtime).

Lemma about_movie_spec n review :
  about_movie n review = true
  ↔ ∃ rec q q', review = JObj rec ∧ rec !! "movieId" = Some (JNum q)
                ∧ n = Fin q' ∧ (q == q')%Q.
Proof.
  split.
  - destruct review as [| | | | |rec]; try done. simpl.
    destruct (rec !! "movieId") as [[| |q| | |]|] eqn:Hm; try done.
    destruct n as [| |q']; try done. simpl. intros Heq%Qeq_bool_iff.
    by exists rec, q, q'.
  - intros (rec & q & q' & -> & Hm & -> & Heq). simpl. rewrite Hm. simpl.
    by apply Qeq_bool_iff.
Qed.

Lemma filter_reviews n l :
  JNull ∉ l →
  filterM (λ review, m ← get_prop review "movieId"; Ok (strict_eq_num m n)) l
  = Ok (List.filter (about_movie n) l).
Proof.
  induction l as [|r l IH]; [done|]. intros Hnull.
  cbn [filterM List.filter]. rewrite IH by set_solver.
  destruct r; try done. set_solver.
Qed.

Lemma compare_reviews a b :
  is_mapping a → is_mapping b →
  (tb ← get_prop b "createdAt"; ta ← get_prop a "createdAt";
   Ok (num_sub (DateMs rt tb) (DateMs rt ta)))
  = Ok (num_sub (DateMs rt (createdAt b)) (DateMs rt (createdAt a))).
Proof. by intros [? ->] [? ->]. Qed.

Lemma about_movie_mapping n r : about_movie n r = true → is_mapping r.
Proof. destruct r; try done. by eexists. Qed.

Lemma has_date_time r : has_date rt r → DateMs rt (createdAt r) = Fin (time_of rt r).
Proof. intros [t Ht]. unfold time_of. by rewrite Ht. Qed.

(** [GET /api/reviews/:movieId] on a list of stored reviews. *)
Lemma get_reviews_run req d l :
  reviews (stored d) = JArr l → JNull ∉ l →
  let n := ToNumber rt (req_params_movieId req) in
  (∀ r, r ∈ l → about_movie n r = true → has_date rt r) →
  ∃ out, get_reviews rt req d =
           (Ok (res_json 200 [("reviews", Some (JArr out))]), Some (ensured d))
    ∧ array_sort (λ a b, tb ← get_prop b "createdAt"; ta ← get_prop a "createdAt";
                         Ok (num_sub (DateMs rt tb) (DateMs rt ta)))
                 (List.filter (about_movie n) l) = Ok out
    ∧ out ≡ₚ List.filter (about_movie n) l
    ∧ StronglySorted (newest_first (time_of rt)) out.
Proof.
  intros Hl Hnull n Hdates.
  edestruct (array_sort_sorted
    (λ a b, tb ← get_prop b "createdAt"; ta ← get_prop a "createdAt";
            Ok (num_sub (DateMs rt tb) (DateMs rt ta)))
    (time_of rt) (List.filter (about_movie n) l)) as (out & Hsort & Hperm & Hsorted).
  { intros x y [Hx Hmx]%list_elem_of_In%filter_In [Hy Hmy]%list_elem_of_In%filter_In.
    apply list_elem_of_In in Hx, Hy.
    rewrite compare_reviews by by eapply about_movie_mapping.
    by rewrite !has_date_time by auto. }
  exists out. split; [|done].
  unfold get_reviews. rewrite bind_readStore, Hl. cbn [array_filter].
  fold n. rewrite filter_reviews by done. rewrite bind_lift, Hsort. by rewrite bind_lift.
Qed.

(** C3.  For a store whose reviews are a list without [null], and whose
    reviews of the movie asked for carry a date, [GET
    /api/reviews/:movieId] answers 200 with exactly the stored reviews
    whose [movieId] equals the number the path parameter reads as, each
    as often as it is stored, the later [createdAt] first; the answer
    does not depend on who asks, a session or none.  The stores the
    server makes have such reviews ([server_made_store],
    [reviews_before_fit]). *)
Theorem reviews_newest_first (req : Request) (d : disk) (l : list json) :
  reviews (stored d) = JArr l → JNull ∉ l →
  let n := ToNumber rt (req_params_movieId req) in
  (∀ r, r ∈ l → about_movie n r = true → has_date rt r) →
  ∃ out d',
    get_reviews rt req d = (Ok (res_json 200 [("reviews", Some (JArr out))]), d')
    ∧ out ≡ₚ List.filter (about_movie n) l
    ∧ (∀ r, r ∈ out ↔ r ∈ l ∧
         ∃ rec q q', r = JObj rec ∧ rec !! "movieId" = Some (JNum q)
                     ∧ n = Fin q' ∧ (q == q')%Q)
    ∧ StronglySorted (newest_first (time_of rt)) out
    ∧ ∀ who, get_reviews rt {| req_user := who; req_body := req_body req;
                               req_params_movieId := req_params_movieId req |} d
             = get_reviews rt req d.
Proof.
  intros Hl Hnull n Hdates.
  destruct (get_reviews_run req d l Hl Hnull Hdates) as (out & Hrun & _ & Hperm & Hsorted).
  exists out, (Some (ensured d)). split; [done|]. split; [done|].
  split; [|split; [done|done]].
  intros r. rewrite Hperm, list_elem_of_In, filter_In, <-list_elem_of_In.
  by rewrite about_movie_spec.
Qed.

Lemma post_reviews_run now created req u m text d l :
  req_user req = Some u →
  body_field req "movieId" = Some (JNum m) →
  body_field req "content" = Some (JStr text) →
  trim rt text ≠ "" →
  rating_accepted (body_field req "rating") →
  reviews (stored d) = JArr l →
  let review := new_review rt now created u m text (body_field req "rating") in
  post_reviews rt now created req d =
    (Ok (res_json 201 [("review", Some review)]),
     written {| users := users (stored d); reviews := JArr (review :: l) |}).
Proof.
  intros Hu Hm Hc Htrim Hr Hl review. unfold post_reviews, requireAuth. rewrite Hu.
  rewrite body_get, bind_lift, body_get, bind_lift, body_get, bind_lift by done.
  rewrite Hm, Hc. apply String.eqb_neq in Htrim. rewrite Htrim.
  apply rating_rejected_spec in Hr. rewrite Hr.
  rewrite bind_readStore, Hl. cbn [nullish spread_elems]. rewrite bind_lift.
  by rewrite bind_writeStore.
Qed.

Lemma new_review_fields now created u m text rating :
  rating_accepted rating →
  ∃ rec, new_review rt now created u m text rating = JObj rec
    ∧ rec !! "movieId" = Some (JNum m)
    ∧ rec !! "author" = Some (JStr (displayName u))
    ∧ rec !! "content" = Some (JStr (trim rt text))
    ∧ rec !! "createdAt" = Some (JStr (toISOString rt created))
    ∧ rec !! "rating" = rating.
Proof.
  intros [-> | (q & z & -> & _)]; eexists; (split; [reflexivity|]); done.
Qed.

Lemma post_reviews_rejects_content now created req u d :
  req_user req = Some u →
  (∀ text, body_field req "content" = Some (JStr text) → trim rt text = "") →
  ∃ r, post_reviews rt now created req d = (Ok r, d) ∧ status r = 400.
Proof.
  intros Hu Hc. unfold post_reviews, requireAuth. rewrite Hu.
  rewrite body_get, bind_lift, body_get, bind_lift, body_get, bind_lift by done.
  destruct (body_field req "movieId") as [[]|]; try by eexists.
  destruct (body_field req "content") as [[| | |text| |]|] eqn:Htext; try by eexists.
  rewrite (Hc text eq_refl). by eexists.
Qed.

(** [POST /api/reviews], then [GET /api/reviews/:movieId]. *)
Lemma posted_review_first (now created : Z) (req : Request) (u : AuthUser)
    (m : Q) (text : string) (d : disk) (l : list json) :
  req_user req = Some u →
  body_field req "movieId" = Some (JNum m) →
  body_field req "content" = Some (JStr text) →
  trim rt text ≠ "" →
  rating_accepted (body_field req "rating") →
  reviews (stored d) = JArr l →
  (∃ rec d',
     post_reviews rt now created req d
       = (Ok (res_json 201 [("review", Some (JObj rec))]), d')
     ∧ rec !! "author" = Some (JStr (displayName u))
     ∧ rec !! "content" = Some (JStr (trim rt text))
     ∧ rec !! "movieId" = Some (JNum m)
     ∧ reviews (stored d') = JArr (JObj rec :: l)
     ∧ users (stored d') = users (stored d)
     ∧ ∀ req' m' t0,
         ToNumber rt (req_params_movieId req') = Fin m' → (m == m')%Q →
         JNull ∉ l →
         DateMs rt (Some (JStr (toISOString rt created))) = Fin t0 →
         (∀ r, r ∈ l → about_movie (Fin m') r = true →
               ∃ t, DateMs rt (createdAt r) = Fin t ∧ (t <= t0)%Q) →
         ∃ rest d'',
           get_reviews rt req' d'
             = (Ok (res_json 200 [("reviews", Some (JArr (JObj rec :: rest)))]), d'')
           ∧ rest ≡ₚ List.filter (about_movie (Fin m')) l)
  ∧ (∀ bad d0,
       req_user bad = Some u →
       (∀ text', body_field bad "content" = Some (JStr text') → trim rt text' = "") →
       ∃ r, post_reviews rt now created bad d0 = (Ok r, d0) ∧ status r = 400).
Proof.
  intros Hu Hm Hc Htrim Hr Hl. split; [|intros bad d0 Hb Hbad; by apply (post_reviews_rejects_content now created bad u d0)].
  destruct (new_review_fields now created u m text _ Hr)
    as (rec & Hrec & Hmovie & Hauthor & Hcontent & Hcreated & _).
  exists rec, (written {| users := users (stored d); reviews := JArr (JObj rec :: l) |}).
  assert (stored (written {| users := users (stored d); reviews := JArr (JObj rec :: l) |})
          = {| users := users (stored d); reviews := JArr (JObj rec :: l) |}) as Hstored.
  { apply stored_written; [apply stored_users_not_null | done]. }
  split; [by rewrite (post_reviews_run now created req u m text d l), Hrec|].
  rewrite Hstored. repeat (split; [done|]).
  intros req' m' t0 Hn Heq Hnull Ht0 Hdates.
  assert (about_movie (Fin m') (JObj rec) = true) as Hnew.
  { apply about_movie_spec. by exists rec, m, m'. }
  assert (time_of rt (JObj rec) = t0) as Htime.
  { unfold time_of. simpl. by rewrite Hcreated, Ht0. }
  edestruct (array_sort_head
    (λ a b, tb ← get_prop b "createdAt"; ta ← get_prop a "createdAt";
            Ok (num_sub (DateMs rt tb) (DateMs rt ta)))
    (time_of rt) (JObj rec) (List.filter (about_movie (Fin m')) l)) as (rest & Hsort & Hperm).
  { assert (∀ r, r ∈ JObj rec :: List.filter (about_movie (Fin m')) l →
                 is_mapping r ∧ has_date rt r) as Hall.
    { intros r [-> | [Hr' Hmr]%list_elem_of_In%filter_In]%elem_of_cons.
      - split; [by eexists|]. exists t0. simpl. by rewrite Hcreated.
      - apply list_elem_of_In in Hr'. split; [by eapply about_movie_mapping|].
        destruct (Hdates r Hr' Hmr) as (t & Ht & _). by exists t. }
    intros a b [Ha Hda]%Hall [Hb Hdb]%Hall.
    rewrite compare_reviews by done. by rewrite !has_date_time. }
  { intros r [Hr' Hmr]%list_elem_of_In%filter_In. apply list_elem_of_In in Hr'.
    destruct (Hdates r Hr' Hmr) as (t & Ht & Hle).
    rewrite Htime. unfold time_of. by rewrite Ht. }
  exists rest, (Some (ensured (written {| users := users (stored d);
                                          reviews := JArr (JObj rec :: l) |}))).
  split; [|done].
  unfold get_reviews. rewrite bind_readStore, Hstored. cbn [reviews array_filter].
  rewrite Hn, filter_reviews by (by apply not_elem_of_cons).
  cbn [List.filter]. rewrite Hnew.
  rewrite bind_lift, Hsort. by rewrite bind_lift.
Qed.

End Reviews.

Section Records.
Context (rt : Runtime).

Lemma count_key (um : gmap string json) (k : string) :
  length (filter (λ kv, kv.1 = k) (map_to_list um))
  = match um !! k with Some _ => 1 | None => 0 end.
Proof.
  induction um as [|i x um Hi Hfirst IH] using map_first_key_ind.
  - by rewrite map_to_list_empty.
  - rewrite map_to_list_insert_first_key by done.
    rewrite filter_cons. simpl. destruct (decide (i = k)) as [->|Hne].
    + rewrite lookup_insert_eq. simpl. by rewrite IH, Hi.
    + by rewrite lookup_insert_ne.
Qed.

Lemma users_ok_caller d k : users_ok d → caller_ok d k.
Proof.
  unfold users_ok, caller_ok. destruct (users (stored d)); try done.
  intros Hall. destruct (m !! k) eqn:Hk; [|done]. by apply (Hall k).
Qed.

Lemma grows_same d d' caller :
  users_ok d → users (stored d') = users (stored d) → grows d d' caller.
Proof.
  intros Hok Heq. unfold grows, users_ok, records_under. by rewrite Heq.
Qed.

Lemma grows_upsert d um k rec :
  users_ok d → users (stored d) = JObj um → record_ok (JObj rec) →
  grows d (written {| users := JObj (<[k := JObj rec]> um);
                      reviews := reviews (stored d) |}) (Some k).
Proof.
  intros Hok Hum Hrec. unfold grows, users_ok, records_under in *.
  rewrite stored_written_users, Hum in *. cbn [users].
  split; [by apply map_Forall_insert_2|].
  split; intros k'; rewrite !count_key.
  - destruct (decide (k = k')) as [->|Hne];
      [by rewrite lookup_insert_eq | by rewrite lookup_insert_ne].
  - intros Hne. rewrite lookup_insert_ne; [done | congruence].
Qed.

Lemma record_ok_insert rec field v :
  field ≠ "watchStates" → field ≠ "ratings" →
  record_ok (JObj rec) → record_ok (JObj (<[field := v]> rec)).
Proof.
  intros H1 H2 [Hw Hr]. split; unfold field_ok; by rewrite lookup_insert_ne.
Qed.

Lemma record_ok_entries rec field e :
  field = "watchStates" ∨ field = "ratings" →
  record_ok (JObj rec) → record_ok (JObj (<[field := JObj e]> rec)).
Proof.
  intros [-> | ->] [Hw Hr]; split; unfold field_ok;
    rewrite ?lookup_insert_eq, ?lookup_insert_ne; done.
Qed.

(** The record the handlers take for [u] is a record of the data model. *)
Lemma record_of_ok d u :
  users_ok d →
  ∃ um rec, users (stored d) = JObj um ∧ record_of d u = JObj rec
            ∧ record_ok (JObj rec)
            ∧ (um !! id u = None → JObj rec = fresh_record u).
Proof.
  unfold users_ok, record_of. destruct (users (stored d)) as [| | | | |um]; try done.
  intros Hall. exists um. destruct (um !! id u) as [v|] eqn:Hv.
  - apply Hall in Hv. destruct v; try done; simpl; eexists; repeat split;
      try done; by destruct Hv.
  - simpl. eexists. repeat split; done.
Qed.

Lemma get_reviews_disk req d :
  (get_reviews rt req d).2 = Some (ensured d).
Proof.
  unfold get_reviews. rewrite bind_readStore, bind_lift.
  destruct (array_filter _ _); [|done..].
  rewrite bind_lift. by destruct (array_sort _ _).
Qed.

Lemma post_reviews_users now created req d :
  users (stored (post_reviews rt now created req d).2) = users (stored d).
Proof.
  unfold post_reviews, requireAuth. destruct (req_user req) as [u|]; [|done].
  rewrite body_get, bind_lift, body_get, bind_lift, body_get, bind_lift by done.
  destruct (body_field req "movieId") as [[]|]; try done.
  destruct (body_field req "content") as [[]|]; try done.
  destruct (String.eqb _ _); [done|]. destruct (rating_rejected _); [done|].
  rewrite bind_readStore, bind_lift.
  destruct (spread_elems _); cbn [snd]; try by rewrite stored_ensured.
  rewrite bind_writeStore. cbn [snd mret io_ret].
  rewrite stored_written; [done | apply stored_users_not_null | done].
Qed.

(** A [PUT] either leaves the disk alone or is [put_entry]. *)
Lemma put_status_cases req d :
  (∃ r, put_status rt req d = (Ok r, d))
  ∨ ∃ u m, req_user req = Some u ∧ body_field req "movieId" = Some (JNum m)
           ∧ status_accepted (body_field req "status").
Proof.
  unfold put_status, requireAuth.
  destruct (req_user req) as [u|]; [|left; by eexists].
  rewrite body_get, bind_lift, body_get, bind_lift by done.
  destruct (body_field req "movieId") as [[| |m| | |]|]; try (left; by eexists).
  destruct (status_rejected _) eqn:Hs; [left; by eexists|].
  right. exists u, m. by apply status_rejected_spec in Hs.
Qed.

Lemma put_rating_cases req d :
  (∃ r, put_rating rt req d = (Ok r, d))
  ∨ ∃ u m, req_user req = Some u ∧ body_field req "movieId" = Some (JNum m)
           ∧ rating_accepted (body_field req "rating").
Proof.
  unfold put_rating, requireAuth.
  destruct (req_user req) as [u|]; [|left; by eexists].
  rewrite body_get, bind_lift, body_get, bind_lift by done.
  destruct (body_field req "movieId") as [[| |m| | |]|]; try (left; by eexists).
  destruct (rating_rejected _) eqn:Hs; [left; by eexists|].
  right. exists u, m. by apply rating_rejected_spec in Hs.
Qed.

Lemma put_entry_grows u field m value d :
  users_ok d → field = "watchStates" ∨ field = "ratings" →
  grows d (put_entry rt u field m value d).2 (Some (id u)).
Proof.
  intros Hok Hfield.
  destruct (put_accepted rt u field m value d (users_ok_caller d (id u) Hok) Hfield)
    as (um & rec & e & Hum & Hrec & He & ->).
  apply grows_upsert; [done..|]. apply record_ok_entries; [done|].
  destruct (record_of_ok d u Hok) as (? & rec' & _ & Hrec' & Hrok & _).
  by assert (rec = rec') as -> by congruence.
Qed.

(** Every call keeps the users a mapping of records, keeps every record
    and touches no record but the caller's. *)
Lemma handle_grows c req d :
  users_ok d → grows d (handle rt c req d).2 (id <$> req_user req).
Proof.
  intros Hok. destruct c; simpl.
  - destruct (req_user req) as [u|] eqn:Hu;
      [|unfold get_me; rewrite Hu; by apply grows_same].
    destruct (record_of_ok d u Hok) as (um & rec & Hum & Hrec & Hrok & Hfresh).
    unfold record_of in Hrec. rewrite Hum in Hrec.
    assert (∃ rec0, nullish (um !! id u) bare_record = JObj rec0
                    ∧ record_ok (JObj rec0)) as (rec0 & Hrec0 & Hrok0).
    { destruct (um !! id u) as [[]|]; simplify_eq/=; eexists; (split; [done|]); try done;
        by split. }
    erewrite get_me_run by done. simpl.
    apply grows_upsert; [done..|]. by apply record_ok_insert.
  - destruct (req_user req) as [u|] eqn:Hu;
      [|unfold get_user_data, requireAuth; rewrite Hu; by apply grows_same].
    destruct (record_of_ok d u Hok) as (um & rec & Hum & Hrec & Hrok & Hfresh).
    unfold record_of in Hrec. rewrite Hum in Hrec.
    erewrite get_user_data_run by done. simpl. rewrite Hrec.
    by apply grows_upsert.
  - rewrite get_reviews_disk. apply grows_same; [done|]. by rewrite stored_ensured.
  - destruct (put_status_cases req d) as [[r ->] | (u & m & Hu & Hm & Hs)];
      [by apply grows_same|].
    rewrite (put_status_run rt req u m d Hu Hm Hs), Hu. apply put_entry_grows; auto.
  - destruct (put_rating_cases req d) as [[r ->] | (u & m & Hu & Hm & Hs)];
      [by apply grows_same|].
    rewrite (put_rating_run rt req u m d Hu Hm Hs), Hu. apply put_entry_grows; auto.
  - apply grows_same; [done|]. apply post_reviews_users.
Qed.

Lemma reviews_written s : reviews s ≠ JNull → reviews (stored (written s)) = reviews s.
Proof.
  intros Hr. unfold stored, written. simpl.
  rewrite lookup_insert_ne, lookup_insert_eq by done. by destruct (reviews s).
Qed.

Ltac run_handler :=
  repeat first
    [ rewrite bind_readStore
    | rewrite bind_writeStore
    | rewrite bind_lift
    | match goal with
      | |- context [match ?o with Ok _ => _ | Throw => _ | Exotic => _ end] =>
          destruct o; cbn [snd]
      end ];
  cbn [snd mret io_ret];
  rewrite ?stored_ensured;
  try (rewrite reviews_written by apply stored_reviews_not_null);
  try done.

Lemma put_entry_keeps_reviews u field m value d :
  reviews (stored (put_entry rt u field m value d).2) = reviews (stored d).
Proof. unfold put_entry. run_handler. Qed.

(** Only [POST /api/reviews] changes the reviews, whatever the store. *)
Lemma reviews_kept c req d :
  (∀ now created, c ≠ PostReviews now created) →
  reviews (stored (handle rt c req d).2) = reviews (stored d).
Proof.
  intros Hc. destruct c; cbn [handle]; try (by destruct (Hc now created)).
  - unfold get_me. destruct (req_user req); [|done]. run_handler.
  - unfold get_user_data, requireAuth. destruct (req_user req); [|done]. run_handler.
  - by rewrite get_reviews_disk, stored_ensured.
  - destruct (put_status_cases req d) as [[r ->] | (u & m & Hu & Hm & Hs)]; [done|].
    rewrite (put_status_run rt req u m d Hu Hm Hs). apply put_entry_keeps_reviews.
  - destruct (put_rating_cases req d) as [[r ->] | (u & m & Hu & Hm & Hs)]; [done|].
    rewrite (put_rating_run rt req u m d Hu Hm Hs). apply put_entry_keeps_reviews.
Qed.

Lemma post_reviews_cases now created req d :
  (∃ r, post_reviews rt now created req d = (Ok r, d))
  ∨ ∃ u m text, req_user req = Some u ∧ body_field req "movieId" = Some (JNum m)
      ∧ body_field req "content" = Some (JStr text) ∧ trim rt text ≠ ""
      ∧ rating_accepted (body_field req "rating").
Proof.
  unfold post_reviews, requireAuth.
  destruct (req_user req) as [u|]; [|left; by eexists].
  rewrite body_get, bind_lift, body_get, bind_lift, body_get, bind_lift by done.
  destruct (body_field req "movieId") as [[| |m| | |]|]; try (left; by eexists).
  destruct (body_field req "content") as [[| | |text| |]|]; try (left; by eexists).
  destruct (String.eqb _ _) eqn:Htrim; [left; by eexists|].
  destruct (rating_rejected _) eqn:Hr; [left; by eexists|].
  right. exists u, m, text. apply String.eqb_neq in Htrim.
  by apply rating_rejected_spec in Hr.
Qed.

(** Reading a property under a name that is neither an index nor
    [length] is followed by the model, and so are filtering and sorting
    with callbacks that are. *)
Lemma get_prop_followed v k : is_exotic_key k = false → get_prop v k ≠ Exotic.
Proof.
  intros Hk. destruct v; simpl; rewrite ?Hk; try done. by destruct (bool_decide _).
Qed.

Lemma filterM_followed {A} (f : A → outcome bool) l :
  (∀ x, f x ≠ Exotic) → filterM f l ≠ Exotic.
Proof.
  intros Hf. induction l as [|x l IH]; [done|]. simpl.
  specialize (Hf x). destruct (f x); try done. simpl. by destruct (filterM f l).
Qed.

Lemma insertM_followed {A} (cmp : A → A → outcome num) x l :
  (∀ a b, cmp a b ≠ Exotic) → insertM cmp x l ≠ Exotic.
Proof.
  intros Hcmp. induction l as [|y l IH]; [done|]. simpl.
  specialize (Hcmp x y). destruct (cmp x y) as [c| |]; try done. simpl.
  destruct (num_positive c); [|done]. by destruct (insertM cmp x l).
Qed.

Lemma array_sort_followed {A} (cmp : A → A → outcome num) l :
  (∀ a b, cmp a b ≠ Exotic) → array_sort cmp l ≠ Exotic.
Proof.
  intros Hcmp. induction l as [|x l IH]; [done|]. simpl.
  destruct (array_sort cmp l) as [s| |]; try done. simpl. by apply insertM_followed.
Qed.

Lemma get_reviews_followed req d : (get_reviews rt req d).1 ≠ Exotic.
Proof.
  unfold get_reviews. rewrite bind_readStore, bind_lift.
  destruct (array_filter _ _) as [matching| |] eqn:Hfilter; [|done|].
  - rewrite bind_lift.
    destruct (array_sort _ matching) as [sorted| |] eqn:Hsort; [done..|].
    exfalso. revert Hsort. apply array_sort_followed. intros a b.
    pose proof (get_prop_followed b "createdAt" eq_refl).
    destruct (get_prop b "createdAt"); try done. simpl.
    pose proof (get_prop_followed a "createdAt" eq_refl).
    by destruct (get_prop a "createdAt").
  - exfalso. revert Hfilter. unfold array_filter.
    destruct (reviews (stored d)); try done.
    apply filterM_followed. intros review.
    pose proof (get_prop_followed review "movieId" eq_refl).
    by destruct (get_prop review "movieId").
Qed.

(** On a store of the shape of the data model every call is followed by
    the model, and leaves such a store. *)
Lemma handle_followed c req d :
  store_ok d →
  (handle rt c req d).1 ≠ Exotic ∧ store_ok (handle rt c req d).2.
Proof.
  intros [Hok [l Hl]].
  assert (store_ok (handle rt c req d).2) as Hshape.
  { split; [by destruct (handle_grows c req d Hok)|].
    destruct c as [| | | | |now created]; try (rewrite reviews_kept by done; by exists l).
    cbn [handle]. destruct (post_reviews_cases now created req d)
      as [[r ->] | (u & m & text & Hu & Hm & Htext & Htrim & Hr)]; [by exists l|].
    rewrite (post_reviews_run rt now created req u m text d l) by done. cbn [snd].
    rewrite reviews_written by done. by eexists. }
  split; [|done]. destruct c as [| | | | |now created]; cbn [handle].
  - destruct (req_user req) as [u|] eqn:Hu; [|unfold get_me; by rewrite Hu].
    destruct (record_of_ok d u Hok) as (um & rec & Hum & Hrec & _ & _).
    unfold record_of in Hrec. rewrite Hum in Hrec.
    assert (∃ rec0, nullish (um !! id u) bare_record = JObj rec0) as [rec0 Hrec0].
    { destruct (um !! id u) as [[]|]; simplify_eq/=; by eexists. }
    by erewrite get_me_run.
  - destruct (req_user req) as [u|] eqn:Hu;
      [|unfold get_user_data, requireAuth; by rewrite Hu].
    destruct (record_of_ok d u Hok) as (um & rec & Hum & _).
    by erewrite get_user_data_run.
  - apply get_reviews_followed.
  - destruct (put_status_cases req d) as [[r ->] | (u & m & Hu & Hm & Hs)]; [done|].
    rewrite (put_status_run rt req u m d Hu Hm Hs).
    destruct (put_accepted rt u "watchStates" m (body_field req "status") d)
      as (? & ? & ? & _ & _ & _ & ->); [by apply users_ok_caller | by left | done].
  - destruct (put_rating_cases req d) as [[r ->] | (u & m & Hu & Hm & Hs)]; [done|].
    rewrite (put_rating_run rt req u m d Hu Hm Hs).
    destruct (put_accepted rt u "ratings" m (body_field req "rating") d)
      as (? & ? & ? & _ & _ & _ & ->); [by apply users_ok_caller | by right | done].
  - destruct (post_reviews_cases now created req d)
      as [[r ->] | (u & m & text & Hu & Hm & Htext & Htrim & Hr)]; [done|].
    by rewrite (post_reviews_run rt now created req u m text d l).
Qed.

Lemma run_cons c req cs d :
  store_ok d → run rt ((c, req) :: cs) d = run rt cs (handle rt c req d).2.
Proof.
  intros Hok. destruct (handle_followed c req d Hok) as [Hfollowed _]. simpl.
  by destruct (handle rt c req d) as [[] ?].
Qed.

(** A sequence of calls on a store of the shape of the data model is
    followed to its end, leaves such a store and keeps every record. *)
Lemma run_grows cs d :
  store_ok d →
  ∃ d', run rt cs d = Some d' ∧ store_ok d'
        ∧ ∀ k, records_under d k = 1 → records_under d' k = 1.
Proof.
  revert d. induction cs as [|[c req] cs IH]; intros d Hok; [by exists d|].
  rewrite run_cons by done.
  destruct (handle_followed c req d Hok) as [_ Hok'].
  destruct (handle_grows c req d (proj1 Hok)) as (_ & Hkeep & _).
  destruct (IH _ Hok') as (d' & Hrun & Hfin & Hkeep'). exists d'.
  split; [done|]. split; [done|]. intros k Hk. apply Hkeep', Hkeep, Hk.
Qed.

Lemma run_app cs1 cs2 d d1 :
  run rt cs1 d = Some d1 → run rt (cs1 ++ cs2) d = run rt cs2 d1.
Proof.
  revert d. induction cs1 as [|[c req] cs1 IH]; intros d; simpl; [congruence|].
  destruct (handle rt c req d) as [[] d']; try done; apply IH.
Qed.

Lemma records_under_absent d u um :
  users (stored d) = JObj um → records_under d (id u) = 0 → um !! id u = None.
Proof.
  unfold records_under. intros ->. rewrite count_key. by destruct (um !! id u).
Qed.

Lemma records_under_upsert um k rec r :
  r ≠ JNull →
  records_under (written {| users := JObj (<[k := rec]> um); reviews := r |}) k = 1.
Proof.
  intros Hr. unfold records_under. rewrite stored_written by done. cbn [users].
  by rewrite count_key, lookup_insert_eq.
Qed.

Lemma put_entry_upsert u field m value d :
  users_ok d → field = "watchStates" ∨ field = "ratings" →
  let d' := (put_entry rt u field m value d).2 in
  (∃ r, (put_entry rt u field m value d).1 = Ok r ∧ status r = 200)
  ∧ records_under d' (id u) = 1
  ∧ only_entry_changed d d' u field (ToString rt m).
Proof.
  intros Hok Hfield d'. subst d'.
  destruct (put_entry_frame rt u field m value d)
    as (r & d' & Hrun & Hr & Hframe); [by apply users_ok_caller | done |].
  destruct (put_accepted rt u field m value d)
    as (um & rec & e & _ & _ & _ & Hrun'); [by apply users_ok_caller | done |].
  rewrite Hrun. cbn [fst snd]. split; [by eexists|]. split; [|done].
  rewrite Hrun' in Hrun. injection Hrun as _ <-.
  apply records_under_upsert, stored_reviews_not_null.
Qed.

(** One upserting call of [u]: it is answered 200, it leaves one record
    under the id of [u], and when there was none that record is the
    fresh one, with the entry the call sets if it is a [PUT]. *)
Lemma upsert_step c req u d :
  users_ok d → req_user req = Some u → upserts c req →
  let d' := (handle rt c req d).2 in
  (∃ r, (handle rt c req d).1 = Ok r ∧ status r = 200)
  ∧ records_under d' (id u) = 1
  ∧ (records_under d (id u) = 0 →
     record_of d u = fresh_record u
     ∧ match c with
       | Me | UserData => record_of d' u = fresh_record u
       | PutStatus =>
           ∃ m, body_field req "movieId" = Some (JNum m)
                ∧ only_entry_changed d d' u "watchStates" (ToString rt m)
       | PutRating =>
           ∃ m, body_field req "movieId" = Some (JNum m)
                ∧ only_entry_changed d d' u "ratings" (ToString rt m)
       | _ => True
       end).
Proof.
  intros Hok Hu Hup.
  destruct (record_of_ok d u Hok) as (um & rec & Hum & Hrec & Hrok & Hfresh).
  assert (records_under d (id u) = 0 → record_of d u = fresh_record u) as Hnew.
  { intros Habs. rewrite Hrec. by apply Hfresh, (records_under_absent d). }
  destruct c; try done; cbn [handle upserts] in *.
  - assert (∃ rec0, nullish (um !! id u) bare_record = JObj rec0
              ∧ (um !! id u = None → rec0 = <["watchStates" := JObj ∅]> (<["ratings" := JObj ∅]> ∅)))
      as (rec0 & Hrec0 & Hbare).
    { unfold users_ok in Hok. rewrite Hum in Hok.
      destruct (um !! id u) as [v|] eqn:Hv; [|by eexists].
      apply Hok in Hv. destruct v; try done; by eexists. }
    erewrite get_me_run by done. cbn [fst snd].
    split; [by eexists|]. split; [apply records_under_upsert, stored_reviews_not_null|].
    intros Habs. split; [auto|]. unfold record_of. rewrite stored_written_users.
    cbn [users]. rewrite lookup_insert_eq. simpl.
    by rewrite (Hbare (records_under_absent d u um Hum Habs)).
  - erewrite get_user_data_run by done. cbn [fst snd].
    split; [by eexists|]. split; [apply records_under_upsert, stored_reviews_not_null|].
    intros Habs. split; [auto|]. unfold record_of. rewrite stored_written_users.
    cbn [users]. rewrite lookup_insert_eq.
    rewrite (records_under_absent d u um Hum Habs). done.
  - destruct Hup as [[m Hm] Hs]. rewrite (put_status_run rt req u m d Hu Hm Hs).
    destruct (put_entry_upsert u "watchStates" m (body_field req "status") d Hok)
      as (Hreply & Hone & Hframe); [by left|].
    split; [done|]. split; [done|]. intros Habs. split; [auto|]. eauto.
  - destruct Hup as [[m Hm] Hs]. rewrite (put_rating_run rt req u m d Hu Hm Hs).
    destruct (put_entry_upsert u "ratings" m (body_field req "rating") d Hok)
      as (Hreply & Hone & Hframe); [by right|].
    split; [done|]. split; [done|]. intros Habs. split; [auto|]. eauto.
Qed.

End Records.

(** ** The stores the server makes

    The theorems above about the handlers assume a store of the shape of
    the data model.  Every store the server makes of a missing file has
    that shape. *)

Section Server_made.
Context (rt : Runtime).

Lemma new_review_dated now created u m text rating T :
  DateMs rt (Some (JStr (toISOString rt created))) = Fin (inject_Z created) →
  rating_accepted rating → (created ≤ T)%Z →
  dated_before rt T (new_review rt now created u m text rating).
Proof.
  intros Hback Hr Hle.
  destruct (new_review_fields rt now created u m text rating Hr)
    as (rec & -> & _ & _ & _ & Hcreated & _).
  split; [by eexists|]. exists (inject_Z created). simpl. rewrite Hcreated, Hback.
  split; [done|]. by rewrite <-Zle_Qle.
Qed.

Lemma handle_reviews_before T c req d :
  posted_before rt T [(c, req)] →
  reviews_before rt T d → reviews_before rt T (handle rt c req d).2.
Proof.
  intros [Hc _]%Forall_cons (l & Hl & Hall). simpl in Hc.
  destruct c as [| | | | |now created];
    try (exists l; split; [|done]; by rewrite reviews_kept).
  cbn [handle]. destruct Hc as [Hle Hback].
  destruct (post_reviews_cases rt now created req d)
    as [[r ->] | (u & m & text & Hu & Hm & Htext & Htrim & Hr)]; [by exists l|].
  rewrite (post_reviews_run rt now created req u m text d l) by done. cbn [snd].
  eexists. split; [by rewrite reviews_written|].
  constructor; [by apply new_review_dated|done].
Qed.

Lemma run_reviews_before T cs d :
  posted_before rt T cs → store_ok d → reviews_before rt T d →
  ∃ d', run rt cs d = Some d' ∧ store_ok d' ∧ reviews_before rt T d'.
Proof.
  intros Hcs. revert d. induction Hcs as [|[c req] cs Hc _ IH]; intros d Hok Hd.
  { by exists d. }
  rewrite run_cons by done. apply IH.
  - by apply handle_followed.
  - apply handle_reviews_before; [|done]. by constructor.
Qed.

(** After any sequence of calls on a missing file the users are a mapping
    of records and the reviews a list of dated objects. *)
Lemma server_made_store T cs :
  posted_before rt T cs →
  ∃ d, run rt cs None = Some d ∧ store_ok d ∧ reviews_before rt T d.
Proof.
  intros Hcs. apply run_reviews_before; [done| |].
  - split; [|by eexists]. unfold users_ok. simpl. apply map_Forall_empty.
  - exists []. by split.
Qed.

(** What such reviews give [GET /api/reviews/:movieId]. *)
Lemma reviews_before_fit T d :
  reviews_before rt T d →
  ∃ l, reviews (stored d) = JArr l ∧ (JNull ∉ l)
       ∧ (∀ r, r ∈ l → ∃ t, DateMs rt (createdAt r) = Fin t ∧ (t <= inject_Z T)%Q).
Proof.
  intros (l & Hl & Hall). exists l. split; [done|].
  rewrite Forall_forall in Hall. split.
  - intros Hin. destruct (Hall _ Hin) as [[? Hnull] _]. discriminate Hnull.
  - intros r Hin. by destruct (Hall _ Hin).
Qed.

End Server_made.

Section Posting.
Context (rt : Runtime).

(** C5.  An authenticated [POST /api/reviews] with a numeric movie id,
    a content that is a string whose trimmed form is not empty and a
    rating that is [null] or an integer from 1 to 5 answers 201 with a
    review whose author is the display name of the caller and whose
    content is the trimmed input, and puts that review in front of the
    stored list of reviews.  A [GET /api/reviews/:movieId] for that movie
    right after it has the review first, provided the reviews stored for
    the movie carry dates that are not later than the date of the new
    one; they do in every store the server made of a missing file by
    calls served no later than this one.  A content that is not a string,
    or that trims to the empty string, is answered 400 and nothing is
    stored. *)
Theorem review_is_stored_first (now created : Z) (req : Request) (u : AuthUser)
    (m : Q) (text : string) (d : disk) (l : list json) :
  req_user req = Some u →
  body_field req "movieId" = Some (JNum m) →
  body_field req "content" = Some (JStr text) →
  trim rt text ≠ "" →
  rating_accepted (body_field req "rating") →
  reviews (stored d) = JArr l →
  (∃ rec d',
     post_reviews rt now created req d
       = (Ok (res_json 201 [("review", Some (JObj rec))]), d')
     ∧ rec !! "author" = Some (JStr (displayName u))
     ∧ rec !! "content" = Some (JStr (trim rt text))
     ∧ rec !! "movieId" = Some (JNum m)
     ∧ reviews (stored d') = JArr (JObj rec :: l)
     ∧ users (stored d') = users (stored d)
     ∧ (∀ req' m' t0,
          ToNumber rt (req_params_movieId req') = Fin m' → (m == m')%Q →
          JNull ∉ l →
          DateMs rt (Some (JStr (toISOString rt created))) = Fin t0 →
          (∀ r, r ∈ l → about_movie (Fin m') r = true →
                ∃ t, DateMs rt (createdAt r) = Fin t ∧ (t <= t0)%Q) →
          ∃ rest d'',
            get_reviews rt req' d'
              = (Ok (res_json 200 [("reviews", Some (JArr (JObj rec :: rest)))]), d'')
            ∧ rest ≡ₚ List.filter (about_movie (Fin m')) l)
     ∧ (∀ cs req' m',
          run rt cs None = Some d → posted_before rt created cs →
          DateMs rt (Some (JStr (toISOString rt created))) = Fin (inject_Z created) →
          ToNumber rt (req_params_movieId req') = Fin m' → (m == m')%Q →
          ∃ rest d'',
            get_reviews rt req' d'
              = (Ok (res_json 200 [("reviews", Some (JArr (JObj rec :: rest)))]), d'')))
  ∧ (∀ bad d0,
       req_user bad = Some u →
       (∀ text', body_field bad "content" = Some (JStr text') → trim rt text' = "") →
       ∃ r, post_reviews rt now created bad d0 = (Ok r, d0) ∧ status r = 400).
Proof.
  intros Hu Hm Hc Htrim Hr Hl.
  destruct (posted_review_first rt now created req u m text d l Hu Hm Hc Htrim Hr Hl)
    as [(rec & d' & Hrun & Hauthor & Hcontent & Hmovie & Hreviews & Husers & Hget) Hbad].
  split; [|done]. exists rec, d'. repeat (split; [done|]).
  intros cs req' m' Hmade Hcs Hback Hn Heq.
  destruct (server_made_store rt created cs Hcs) as (d0 & Hrun0 & _ & Hbefore).
  assert (d0 = d) as -> by congruence.
  destruct (reviews_before_fit rt created d Hbefore) as (l0 & Hl0 & Hnull & Hdates).
  assert (l0 = l) as -> by congruence.
  destruct (Hget req' m' (inject_Z created) Hn Heq Hnull Hback) as (rest & d'' & Hrun' & _).
  { intros r Hin _. by apply Hdates. }
  by exists rest, d''.
Qed.

End Posting.

Section Ranking.
Context (movies : list Movie) (ws : gmap Z WatchState) (rs : gmap Z Q).

Lemma tag_fold (w : Z) (gs : list N) (acc : gmap N Z) (g : N) :
  weight_in (foldl (λ acc genreId, <[genreId := (default 0 (acc !! genreId) + w)%Z]> acc) acc gs) g
  = (weight_in acc g + w * Z.of_nat (length (filter (λ g', g' = g) gs)))%Z.
Proof.
  revert acc. induction gs as [|g' gs IH]; intros acc; simpl; [lia|].
  rewrite IH, filter_cons. unfold weight_in. destruct (decide (g' = g)) as [->|Hne].
  - rewrite lookup_insert_eq. simpl. lia.
  - rewrite lookup_insert_ne by done. lia.
Qed.

Lemma genre_step_weight acc movie g :
  weight_in (genre_step ws rs acc movie) g
  = (weight_in acc g + movie_weight ws rs movie * tagged g movie)%Z.
Proof.
  unfold genre_step, movie_weight, tagged.
  destruct (rs !! movie_id movie) as [r|]; simpl.
  - destruct (Qle_bool 4 r) eqn:Hr.
    + rewrite orb_true_r. simpl. apply tag_fold.
    + rewrite orb_false_r.
      destruct (ws !! movie_id movie) as [[]|]; simpl; rewrite ?tag_fold; lia.
  - destruct (ws !! movie_id movie) as [[]|]; simpl; rewrite ?tag_fold; lia.
Qed.

Lemma weights_fold l acc g :
  weight_in (foldl (genre_step ws rs) acc l) g
  = (weight_in acc g + accumulated ws rs l g)%Z.
Proof.
  revert acc. induction l as [|movie l IH]; intros acc; simpl; [lia|].
  rewrite IH, genre_step_weight. lia.
Qed.

Lemma genre_weights_accumulated g :
  weight_in (genre_weights movies ws rs) g = accumulated ws rs movies g.
Proof. unfold genre_weights. rewrite weights_fold. done. Qed.

Lemma tag_fold_positive (w : Z) gs acc :
  (0 < w)%Z → all_positive acc →
  all_positive (foldl (λ acc genreId, <[genreId := (default 0 (acc !! genreId) + w)%Z]> acc) acc gs).
Proof.
  intros Hw. revert acc. induction gs as [|g gs IH]; intros acc Hacc; simpl; [done|].
  apply IH. apply map_Forall_insert_2; [|done].
  destruct (acc !! g) as [w0|] eqn:Hg; simpl; [|lia]. apply Hacc in Hg. lia.
Qed.

Lemma genre_step_positive acc movie :
  all_positive acc → all_positive (genre_step ws rs acc movie).
Proof.
  intros Hacc. unfold genre_step. destruct (negb _); [done|].
  apply tag_fold_positive; [|done]. by destruct (Qle_bool _ _).
Qed.

Lemma genre_weights_positive : all_positive (genre_weights movies ws rs).
Proof.
  unfold genre_weights. generalize (map_Forall_empty (M:=gmap N) (λ (_ : N) (w : Z), (0 < w)%Z)).
  fold (all_positive ∅). generalize (∅ : gmap N Z).
  induction movies as [|m l IH]; intros acc Hacc; simpl; [done|].
  by apply IH, genre_step_positive.
Qed.

Lemma ranked_entries :
  ∃ sorted,
    rankedGenres movies ws rs = Ok ((take 2 sorted).*1)
    ∧ (∀ g w, (g, w) ∈ sorted ↔ genre_weights movies ws rs !! g = Some w)
    ∧ NoDup (sorted.*1)
    ∧ StronglySorted (λ a b : N * Z, b.2 ≤ a.2)%Z sorted.
Proof.
  unfold rankedGenres.
  destruct (array_sort_sorted
    (λ a b : N * Z, Ok (num_sub (Fin (inject_Z b.2)) (Fin (inject_Z a.2))))
    (λ e, inject_Z e.2) (Object_entries (genre_weights movies ws rs)))
    as (sorted & -> & Hperm & Hsorted); [done|].
  assert (sorted ≡ₚ map_to_list (genre_weights movies ws rs)) as Hperm'.
  { rewrite Hperm. apply merge_sort_Permutation. }
  exists sorted. split; [done|]. split; [|split].
  - intros g w. by rewrite Hperm', elem_of_map_to_list.
  - rewrite Hperm'. apply NoDup_fst_map_to_list.
  - clear Hperm Hperm'. induction Hsorted as [|a l _ IH Ha]; [constructor|].
    constructor; [done|].
    eapply Forall_impl; [exact Ha|]. intros b. unfold newest_first. by rewrite <-Zle_Qle.
Qed.

Lemma sorted_by_weight (weight : N → Z) (l : list (N * Z)) :
  (∀ g w, (g, w) ∈ l → weight g = w) →
  StronglySorted (λ a b : N * Z, b.2 ≤ a.2)%Z l →
  StronglySorted (λ g g', weight g' ≤ weight g)%Z (l.*1).
Proof.
  intros Hw Hs. induction Hs as [|a l Hl IH Ha]; [constructor|].
  rewrite fmap_cons. constructor.
  - apply IH. intros g w Hgw. apply Hw. by right.
  - apply Forall_fmap, Forall_forall. intros [g' w'] Hb. destruct a as [g w]. simpl.
    rewrite (Hw g w), (Hw g' w'); [|by right|by left].
    rewrite Forall_forall in Ha. exact (Ha _ Hb).
Qed.

(** The ranking: at most two genres, without repetition, heavier first,
    each of positive weight and at least as heavy as any genre left out;
    a genre of positive weight is left out only when two are ranked. *)
Lemma ranking :
  ∃ ranked,
    rankedGenres movies ws rs = Ok ranked
    ∧ (length ranked ≤ 2)%nat
    ∧ NoDup ranked
    ∧ StronglySorted (λ g g', accumulated ws rs movies g' ≤ accumulated ws rs movies g)%Z ranked
    ∧ (∀ g, g ∈ ranked → 0 < accumulated ws rs movies g)%Z
    ∧ (∀ g g', g ∈ ranked → g' ∉ ranked →
         accumulated ws rs movies g' ≤ accumulated ws rs movies g)%Z
    ∧ (∀ g, (0 < accumulated ws rs movies g)%Z → g ∈ ranked ∨ length ranked = 2).
Proof.
  destruct ranked_entries as (sorted & Hrun & Hin & Hnodup & Hsorted).
  exists ((take 2 sorted).*1). split; [done|].
  assert (∀ g w, (g, w) ∈ sorted → accumulated ws rs movies g = w ∧ (0 < w)%Z) as Hw.
  { intros g w Hgw%Hin. split.
    - rewrite <-genre_weights_accumulated. unfold weight_in. by rewrite Hgw.
    - by apply (genre_weights_positive g w). }
  assert (∀ g, (0 < accumulated ws rs movies g)%Z →
               ∃ w, (g, w) ∈ sorted) as Hpos.
  { intros g. rewrite <-genre_weights_accumulated. unfold weight_in.
    destruct (genre_weights movies ws rs !! g) as [w|] eqn:Hg; simpl; [|lia].
    intros _. exists w. by apply Hin. }
  rewrite <-(take_drop 2 sorted) in Hsorted, Hnodup.
  apply StronglySorted_app in Hsorted as (Hcross & Htop & _).
  assert (∀ e, e ∈ take 2 sorted → e ∈ sorted) as Hsub by (intros e; apply subseteq_take).
  split; [rewrite length_fmap, length_take; lia|].
  split; [rewrite fmap_app in Hnodup; by apply NoDup_app in Hnodup as [? _]|].
  split; [|split; [|split]].
  - apply sorted_by_weight; [|done]. intros g w Hgw. by apply Hw, Hsub.
  - intros g [[g0 w] [-> Hgw]]%list_elem_of_fmap. simpl.
    by destruct (Hw g0 w) as [-> ?]; [auto|].
  - intros g g' [[g0 w] [-> Hgw]]%list_elem_of_fmap Hout. simpl.
    destruct (decide (0 < accumulated ws rs movies g')%Z) as [Hpos'|Hzero].
    + destruct (Hpos g' Hpos') as [w' Hgw'].
      rewrite <-(take_drop 2 sorted), elem_of_app in Hgw'.
      destruct Hgw' as [Htop'|Hrest].
      { destruct Hout. apply list_elem_of_fmap. by exists (g', w'). }
      specialize (Hcross _ _ Hgw Hrest). simpl in Hcross.
      destruct (Hw g0 w) as [-> _]; [auto|].
      destruct (Hw g' w') as [-> _]; [|done].
      rewrite <-(take_drop 2 sorted). apply elem_of_app. by right.
    + destruct (Hw g0 w) as [-> ?]; [auto|]. lia.
  - intros g [w Hgw]%Hpos.
    rewrite <-(take_drop 2 sorted), elem_of_app in Hgw. destruct Hgw as [Htop'|Hrest].
    + left. apply list_elem_of_fmap. by exists (g, w).
    + right. rewrite length_fmap, length_take.
      assert (2 < length sorted); [|lia].
      destruct (decide (2 < length sorted)) as [|Hshort]; [done|].
      rewrite drop_ge in Hrest by lia. by apply elem_of_nil in Hrest.
Qed.

Lemma tagged_single g g' movie :
  genre_ids movie = Some [g'] →
  tagged g movie = if decide (g' = g) then 1%Z else 0%Z.
Proof.
  intros Hg. unfold tagged. rewrite Hg. simpl. rewrite filter_cons, filter_nil.
  by destruct (decide (g' = g)).
Qed.

End Ranking.

(** C6.  The map the heuristic accumulates gives every genre the sum,
    over the movies of the browse set, of the weight of the movie (2 when
    rated at least 4, else 1 when watched or watchlisted, else 0) times
    the number of times the movie is tagged with the genre.  The ranking
    keeps at most two genres, all of positive weight, the heavier first,
    none lighter than a genre left out, and leaves a genre of positive
    weight out only when it has two.  With two movies rated 5 and tagged
    Action and one watchlisted movie tagged Drama, Action weighs more than
    Drama and the ranking is Action, then Drama. *)
Theorem genres_ranked_by_weight (movies : list Movie)
    (watchStates : gmap Z WatchState) (ratings : gmap Z Q) :
  (∀ g, weight_in (genre_weights movies watchStates ratings) g
        = accumulated watchStates ratings movies g)
  ∧ (∃ ranked,
      rankedGenres movies watchStates ratings = Ok ranked
      ∧ (length ranked ≤ 2)%nat
      ∧ NoDup ranked
      ∧ StronglySorted (λ g g', accumulated watchStates ratings movies g'
                                ≤ accumulated watchStates ratings movies g)%Z ranked
      ∧ (∀ g, g ∈ ranked → 0 < accumulated watchStates ratings movies g)%Z
      ∧ (∀ g g', g ∈ ranked → g' ∉ ranked →
           accumulated watchStates ratings movies g'
           ≤ accumulated watchStates ratings movies g)%Z
      ∧ (∀ g, (0 < accumulated watchStates ratings movies g)%Z →
           g ∈ ranked ∨ length ranked = 2%nat))
  ∧ (∀ (m1 m2 m3 : Movie) (action drama : N) (ws : gmap Z WatchState) (rs : gmap Z Q),
      genre_ids m1 = Some [action] → genre_ids m2 = Some [action] →
      genre_ids m3 = Some [drama] → action ≠ drama →
      rs !! movie_id m1 = Some 5%Q → rs !! movie_id m2 = Some 5%Q →
      ws !! movie_id m3 = Some watchlist →
      (accumulated ws rs [m1; m2; m3] drama < accumulated ws rs [m1; m2; m3] action)%Z
      ∧ rankedGenres [m1; m2; m3] ws rs = Ok [action; drama]).
Proof.
  split; [apply genre_weights_accumulated|]. split; [apply ranking|].
  intros m1 m2 m3 action drama ws rs Hg1 Hg2 Hg3 Hne Hr1 Hr2 Hw3.
  assert (∀ g, accumulated ws rs [m1; m2; m3] g
               = ((if decide (action = g) then 4 else 0)
                  + movie_weight ws rs m3 * (if decide (drama = g) then 1 else 0))%Z) as Hacc.
  { intros g. unfold accumulated. simpl.
    rewrite (tagged_single g action m1), (tagged_single g action m2),
      (tagged_single g drama m3) by done.
    unfold movie_weight at 1 2. rewrite Hr1, Hr2. simpl.
    destruct (decide (action = g)); lia. }
  assert (1 ≤ movie_weight ws rs m3 ≤ 2)%Z as Hw.
  { unfold movie_weight. rewrite Hw3. destruct (rs !! movie_id m3) as [r|]; [|lia].
    destruct (Qle_bool 4 r); lia. }
  assert (accumulated ws rs [m1; m2; m3] action = 4%Z) as Haction.
  { rewrite Hacc, decide_True, decide_False by done. lia. }
  assert (accumulated ws rs [m1; m2; m3] drama = movie_weight ws rs m3) as Hdrama.
  { rewrite Hacc, decide_False, decide_True by done. lia. }
  split; [lia|].
  destruct (ranking [m1; m2; m3] ws rs)
    as (ranked & -> & Hlen & Hnodup & Hsorted & Hpos & _ & Hin).
  assert (∀ g, g ∈ ranked → g = action ∨ g = drama) as Honly.
  { intros g Hg%Hpos. rewrite Hacc in Hg.
    destruct (decide (action = g)); [by left|]. destruct (decide (drama = g)); [by right|]. lia. }
  assert (action ∈ ranked ∨ length ranked = 2%nat) as Ha by (apply Hin; lia).
  assert (drama ∈ ranked ∨ length ranked = 2%nat) as Hd by (apply Hin; lia).
  f_equal. destruct ranked as [|x [|y [|z ?]]]; simpl in Hlen; [| | |lia].
  - destruct Ha as [Ha%elem_of_nil|]; done.
  - destruct Ha as [->%list_elem_of_singleton|]; [|done].
    destruct Hd as [->%list_elem_of_singleton|]; done.
  - apply NoDup_cons in Hnodup as [Hxy%not_elem_of_cons _].
    apply StronglySorted_inv in Hsorted as [_ Hle%Forall_cons].
    destruct Hle as [Hle _].
    destruct (Honly x) as [-> | ->]; [by left| |];
      (destruct (Honly y) as [-> | ->]; [right; by left| |]); try done; try tauto.
    lia.
Qed.

Section Fallback.
Context (env : Env) (discover : list N → outcome (option (list Movie))).
Context (movies : list Movie).
Context (watchStates : gmap Z WatchState) (ratings : gmap Z Q).

(** Without credentials, or without a ranked genre, the recommendations
    are the first eight untracked or watchlisted movies of the browse
    set. *)
Lemma fallback_is_filtered ranked :
  rankedGenres movies watchStates ratings = Ok ranked →
  credentials env = false ∨ ranked = [] →
  loadRecommendations env discover movies watchStates ratings
  = Ok (take 8 (filter (λ movie, watchStates !! movie_id movie = None
                                 ∨ watchStates !! movie_id movie = Some watchlist) movies)).
Proof.
  intros Hranked Hcase. unfold loadRecommendations. rewrite Hranked.
  cbn [mbind outcome_bind]. unfold credentials in Hcase.
  destruct Hcase as [Hcred | ->].
  - apply orb_false_iff in Hcred as [-> ->]. done.
  - by rewrite orb_true_r.
Qed.

(** With credentials and a ranked genre, a failing catalog request
    gives the first eight movies of the browse set, whatever their
    watch state. *)
Lemma catalog_failure_is_unfiltered ranked :
  rankedGenres movies watchStates ratings = Ok ranked →
  credentials env = true → ranked ≠ [] → discover ranked = Throw →
  loadRecommendations env discover movies watchStates ratings = Ok (take 8 movies).
Proof.
  intros Hranked Hcred Hne Hfail. unfold loadRecommendations. rewrite Hranked.
  cbn [mbind outcome_bind]. unfold credentials in Hcred.
  assert ((length ranked =? 0)%nat = false) as ->.
  { apply Nat.eqb_neq. by destruct ranked. }
  rewrite orb_false_r.
  assert (negb (truthy (TMDB_API_KEY env)) && negb (truthy (TMDB_READ_ACCESS_TOKEN env))
          = false) as ->.
  { by destruct (truthy (TMDB_API_KEY env)), (truthy (TMDB_READ_ACCESS_TOKEN env)). }
  unfold fetchTmdb.
  destruct (truthy (TMDB_API_KEY env)); [by rewrite Hfail|].
  destruct (truthy (TMDB_READ_ACCESS_TOKEN env)); [by rewrite Hfail|done].
Qed.

End Fallback.

(** C7 does not hold of the code.  With credentials, one movie of the
    browse set rated 5 and marked watched, and a catalog request that
    fails, the recommendations are that watched movie: the [catch] branch
    takes the first eight movies of the browse set without the filter the
    other fallback applies. *)
Theorem catalog_failure_recommends_watched :
  let env := {| TMDB_API_KEY := Some "key"; TMDB_READ_ACCESS_TOKEN := None |} in
  let discover := λ _ : list N, @Throw (option (list Movie)) in
  let watchStates : gmap Z WatchState := {[1%Z := watched]} in
  let ratings : gmap Z Q := {[1%Z := 5%Q]} in
  loadRecommendations env discover [action_one] watchStates ratings = Ok [action_one]
  ∧ watchStates !! movie_id action_one = Some watched
  ∧ filter (λ movie, watchStates !! movie_id movie = None
                     ∨ watchStates !! movie_id movie = Some watchlist) [action_one] = [].
Proof. by vm_compute. Qed.

(** * Further properties of the server *)

Section More_rejections.
Context (rt : Runtime).

(** The three writing handlers of an authenticated caller, with the
    reading of the body done. *)
Lemma put_status_unfold req u d :
  req_user req = Some u →
  put_status rt req d =
    match body_field req "movieId" with
    | Some (JNum m) =>
        if status_rejected (body_field req "status")
        then (Ok (error_reply 400 "Invalid status"), d)
        else put_entry rt u "watchStates" m (body_field req "status") d
    | _ => (Ok (error_reply 400 "Invalid movieId"), d)
    end.
Proof.
  intros Hu. unfold put_status, requireAuth. rewrite Hu.
  rewrite body_get, bind_lift, body_get, bind_lift by done.
  destruct (body_field req "movieId") as [[]|]; try done.
  by destruct (status_rejected _).
Qed.

Lemma put_rating_unfold req u d :
  req_user req = Some u →
  put_rating rt req d =
    match body_field req "movieId" with
    | Some (JNum m) =>
        if rating_rejected (body_field req "rating")
        then (Ok (error_reply 400 "Invalid rating"), d)
        else put_entry rt u "ratings" m (body_field req "rating") d
    | _ => (Ok (error_reply 400 "Invalid movieId"), d)
    end.
Proof.
  intros Hu. unfold put_rating, requireAuth. rewrite Hu.
  rewrite body_get, bind_lift, body_get, bind_lift by done.
  destruct (body_field req "movieId") as [[]|]; try done.
  by destruct (rating_rejected _).
Qed.

Lemma post_reviews_unfold now created req u d :
  req_user req = Some u →
  post_reviews rt now created req d =
    match body_field req "movieId" with
    | Some (JNum m) =>
        match body_field req "content" with
        | Some (JStr text) =>
            if String.eqb (trim rt text) ""
            then (Ok (error_reply 400 "Review content is required"), d)
            else if rating_rejected (body_field req "rating")
            then (Ok (error_reply 400 "Invalid rating"), d)
            else
              match spread_elems (reviews (stored d)) with
              | Ok l =>
                  let review :=
                    new_review rt now created u m text (body_field req "rating") in
                  (Ok (res_json 201 [("review", Some review)]),
                   written {| users := users (stored d);
                              reviews := JArr (review :: l) |})
              | Throw => (Throw, Some (ensured d))
              | Exotic => (Exotic, Some (ensured d))
              end
        | _ => (Ok (error_reply 400 "Review content is required"), d)
        end
    | _ => (Ok (error_reply 400 "Invalid movieId"), d)
    end.
Proof.
  intros Hu. unfold post_reviews, requireAuth. rewrite Hu.
  rewrite body_get, bind_lift, body_get, bind_lift, body_get, bind_lift by done.
  destruct (body_field req "movieId") as [[]|]; try done.
  destruct (body_field req "content") as [[]|]; try done.
  destruct (String.eqb _ _); [done|]. destruct (rating_rejected _); [done|].
  rewrite bind_readStore.
  assert (nullish (Some (reviews (stored d))) (JArr []) = reviews (stored d)) as ->.
  { pose proof (stored_reviews_not_null d). by destruct (reviews (stored d)). }
  rewrite bind_lift. destruct (spread_elems _); [|done..].
  by rewrite bind_writeStore.
Qed.

(** X1.  An authenticated [PUT /api/status] whose movie id is a number
    and whose status is neither [null] nor one of [watched], [watching]
    and [watchlist] (another word, a number, no status at all) answers
    400 with [Invalid status] and leaves the disk as it is. *)
Theorem invalid_status_is_rejected (req : Request) (u : AuthUser) (m : Q) (d : disk) :
  req_user req = Some u →
  body_field req "movieId" = Some (JNum m) →
  ¬ status_accepted (body_field req "status") →
  put_status rt req d = (Ok (error_reply 400 "Invalid status"), d)
  ∧ status (error_reply 400 "Invalid status") = 400.
Proof.
  intros Hu Hm Hs. split; [|done]. rewrite (put_status_unfold req u d Hu), Hm.
  destruct (status_rejected _) eqn:Hrej; [done|].
  by apply status_rejected_spec in Hrej.
Qed.

(** X2.  An authenticated [PUT /api/status], [PUT /api/rating] or
    [POST /api/reviews] whose [movieId] is not a number (a string of
    digits, [null], missing) answers 400 with [Invalid movieId], whatever
    the rest of the body, and leaves the disk as it is. *)
Theorem invalid_movieId_is_rejected (now created : Z) (req : Request) (u : AuthUser)
    (d : disk) :
  req_user req = Some u →
  (∀ m, body_field req "movieId" ≠ Some (JNum m)) →
  put_status rt req d = (Ok (error_reply 400 "Invalid movieId"), d)
  ∧ put_rating rt req d = (Ok (error_reply 400 "Invalid movieId"), d)
  ∧ post_reviews rt now created req d = (Ok (error_reply 400 "Invalid movieId"), d)
  ∧ status (error_reply 400 "Invalid movieId") = 400.
Proof.
  intros Hu Hm.
  rewrite (put_status_unfold req u d Hu), (put_rating_unfold req u d Hu),
    (post_reviews_unfold now created req u d Hu).
  destruct (body_field req "movieId") as [[| |m| | |]|]; try done.
  by destruct (Hm m).
Qed.

(** X3.  An authenticated [POST /api/reviews] with a numeric movie id and
    a content that is not blank, whose rating is neither [null] nor an
    integer from 1 to 5, answers 400 with [Invalid rating] and stores
    nothing. *)
Theorem review_with_invalid_rating_is_rejected (now created : Z) (req : Request)
    (u : AuthUser) (m : Q) (text : string) (d : disk) :
  req_user req = Some u →
  body_field req "movieId" = Some (JNum m) →
  body_field req "content" = Some (JStr text) →
  trim rt text ≠ "" →
  ¬ rating_accepted (body_field req "rating") →
  post_reviews rt now created req d = (Ok (error_reply 400 "Invalid rating"), d)
  ∧ status (error_reply 400 "Invalid rating") = 400.
Proof.
  intros Hu Hm Hc Htrim Hr. split; [|done].
  rewrite (post_reviews_unfold now created req u d Hu), Hm, Hc.
  apply String.eqb_neq in Htrim. rewrite Htrim.
  destruct (rating_rejected _) eqn:Hrej; [done|].
  by apply rating_rejected_spec in Hrej.
Qed.




End More_rejections.

Section More_tracking.
Context (rt : Runtime).

(** X5.  For an authenticated user whose stored record is a record of
    the data model, an accepted [PUT /api/rating] answers 200 and a
    [GET /api/user-data] of the same user right after it answers a
    [ratings] mapping with the rating under the movie id, or without an
    entry under it when the rating was [null]; the [watchStates] it
    answers are those the user had before. *)
Theorem rating_then_user_data (req req' : Request) (u : AuthUser) (m : Q) (d : disk) :
  req_user req = Some u →
  body_field req "movieId" = Some (JNum m) →
  rating_accepted (body_field req "rating") →
  caller_ok d (id u) →
  req_user req' = Some u →
  ∃ r1 d1 ws rs d2,
    put_rating rt req d = (Ok r1, d1) ∧ status r1 = 200
    ∧ get_user_data req' d1 =
        (Ok (res_json 200 [("watchStates", Some ws); ("ratings", Some (JObj rs))]), d2)
    ∧ ws = entries_of (record_of d u) "watchStates"
    ∧ (∀ q, body_field req "rating" = Some (JNum q) → rs !! ToString rt m = Some (JNum q))
    ∧ (body_field req "rating" = Some JNull → rs !! ToString rt m = None).
Proof.
  intros Hu Hm Hs Hok Hu'.
  destruct (put_accepted rt u "ratings" m (body_field req "rating") d Hok)
    as (um & rec & e & Hum & Hrec & He & Hrun); [by right|].
  rewrite (put_rating_run rt req u m d Hu Hm Hs), Hrun.
  eexists _, _, _, (updated_entries rt m (body_field req "rating") e), _.
  split; [done|]. split; [done|]. split; [|split].
  - erewrite get_user_data_run; [|done|by rewrite stored_written_users].
    rewrite lookup_insert_eq. cbn [nullish entries_of].
    rewrite lookup_insert_eq. cbn [nullish]. reflexivity.
  - rewrite Hrec. cbn [entries_of]. by rewrite lookup_insert_ne.
  - unfold updated_entries. split.
    + intros s ->. by rewrite lookup_partial_alter_eq.
    + intros ->. by rewrite lookup_partial_alter_eq.
Qed.

Lemma updated_twice m value e :
  updated_entries rt m value (updated_entries rt m value e) = updated_entries rt m value e.
Proof.
  unfold updated_entries. apply map_eq. intros k.
  destruct (decide (k = ToString rt m)) as [-> | Hk].
  - by rewrite !lookup_partial_alter_eq.
  - by rewrite !lookup_partial_alter_ne.
Qed.

Lemma updated_cleared m value e :
  updated_entries rt m (Some JNull) (updated_entries rt m value e)
  = updated_entries rt m (Some JNull) e.
Proof.
  unfold updated_entries. apply map_eq. intros k.
  destruct (decide (k = ToString rt m)) as [-> | Hk].
  - by rewrite !lookup_partial_alter_eq.
  - by rewrite !lookup_partial_alter_ne.
Qed.

(** A second [put_entry] of the caller on the same field and movie. *)
Lemma put_entry_after u field m value d um rec e v' :
  users (stored d) = JObj um →
  let e' := updated_entries rt m v' e in
  let d1 := written {| users := JObj (<[id u := JObj (<[field := JObj e']> rec)]> um);
                       reviews := reviews (stored d) |} in
  put_entry rt u field m value d1 =
    (Ok (res_json 200 [(field, Some (JObj (updated_entries rt m value e')))]),
     written {| users := JObj (<[id u := JObj (<[field := JObj (updated_entries rt m value e')]> rec)]> um);
                reviews := reviews (stored d) |}).
Proof.
  intros Hum e' d1.
  erewrite (put_entry_run rt u field m value d1 _ _ e');
    [|unfold d1; by rewrite stored_written_users
     |by rewrite lookup_insert_eq|by rewrite lookup_insert_eq].
  unfold d1. rewrite stored_written_users. cbn [reviews].
  by rewrite !insert_insert_eq.
Qed.

Lemma put_entry_twice u field m value d :
  caller_ok d (id u) →
  field = "watchStates" ∨ field = "ratings" →
  ∃ r d1,
    put_entry rt u field m value d = (Ok r, d1)
    ∧ put_entry rt u field m value d1 = (Ok r, d1).
Proof.
  intros Hok Hfield.
  destruct (put_accepted rt u field m value d Hok Hfield)
    as (um & rec & e & Hum & Hrec & He & Hrun).
  rewrite Hrun. eexists _, _. split; [done|].
  rewrite (put_entry_after u field m value d um rec e value Hum).
  by rewrite updated_twice.
Qed.

(** X6.  An accepted [PUT /api/status] or [PUT /api/rating] is
    idempotent: sent a second time right after the first, it gives the
    same reply and leaves the store file exactly as the first left it. *)
Theorem put_twice_is_put_once (req : Request) (u : AuthUser) (m : Q) (d : disk) :
  req_user req = Some u →
  body_field req "movieId" = Some (JNum m) →
  caller_ok d (id u) →
  (status_accepted (body_field req "status") →
     ∃ r d1, put_status rt req d = (Ok r, d1) ∧ put_status rt req d1 = (Ok r, d1))
  ∧ (rating_accepted (body_field req "rating") →
     ∃ r d1, put_rating rt req d = (Ok r, d1) ∧ put_rating rt req d1 = (Ok r, d1)).
Proof.
  intros Hu Hm Hok. split; intros Hv.
  - destruct (put_entry_twice u "watchStates" m (body_field req "status") d Hok)
      as (r & d1 & H1 & H2); [by left|].
    exists r, d1. by rewrite !(put_status_run rt req u m _ Hu Hm Hv).
  - destruct (put_entry_twice u "ratings" m (body_field req "rating") d Hok)
      as (r & d1 & H1 & H2); [by right|].
    exists r, d1. by rewrite !(put_rating_run rt req u m _ Hu Hm Hv).
Qed.

Lemma put_entry_then_clear u field m value d :
  caller_ok d (id u) →
  field = "watchStates" ∨ field = "ratings" →
  ∃ r1 d1 r2 d2 e,
    put_entry rt u field m value d = (Ok r1, d1)
    ∧ put_entry rt u field m (Some JNull) d1 = (Ok r2, d2)
    ∧ put_entry rt u field m (Some JNull) d = (Ok r2, d2)
    ∧ entries_of (record_of d2 u) field = JObj e
    ∧ e !! ToString rt m = None.
Proof.
  intros Hok Hfield.
  destruct (put_accepted rt u field m value d Hok Hfield)
    as (um & rec & e & Hum & Hrec & He & Hrun).
  pose proof (put_entry_after u field m (Some JNull) d um rec e value Hum) as Hnext.
  cbn zeta in Hnext. rewrite updated_cleared in Hnext.
  unfold record_of in Hrec. rewrite Hum in Hrec. cbn [entries_of] in He.
  pose proof (put_entry_run rt u field m (Some JNull) d um rec e Hum Hrec He) as Hclear.
  cbn zeta in Hclear.
  eexists _, _, _, _, _. split; [exact Hrun|]. split; [exact Hnext|].
  split; [exact Hclear|].
  unfold record_of. rewrite stored_written_users. cbn [users].
  rewrite lookup_insert_eq. cbn [nullish entries_of]. rewrite lookup_insert_eq.
  split; [done|]. unfold updated_entries. by rewrite lookup_partial_alter_eq.
Qed.

(** X7.  Setting the status of a movie and then clearing it with
    [status: null] leaves the store file exactly as clearing it at once
    would have: the second reply and the disk are the same, and the watch
    states of the user have no entry under the movie id.  Likewise for a
    rating set and then cleared with [rating: null]. *)
Theorem cleared_entry_is_gone (req req' : Request) (u : AuthUser) (m : Q) (d : disk) :
  req_user req = Some u → req_user req' = Some u →
  body_field req "movieId" = Some (JNum m) →
  body_field req' "movieId" = Some (JNum m) →
  caller_ok d (id u) →
  (status_accepted (body_field req "status") → body_field req' "status" = Some JNull →
     ∃ r1 d1 r2 d2 e,
       put_status rt req d = (Ok r1, d1)
       ∧ put_status rt req' d1 = (Ok r2, d2)
       ∧ put_status rt req' d = (Ok r2, d2)
       ∧ entries_of (record_of d2 u) "watchStates" = JObj e
       ∧ e !! ToString rt m = None)
  ∧ (rating_accepted (body_field req "rating") → body_field req' "rating" = Some JNull →
     ∃ r1 d1 r2 d2 e,
       put_rating rt req d = (Ok r1, d1)
       ∧ put_rating rt req' d1 = (Ok r2, d2)
       ∧ put_rating rt req' d = (Ok r2, d2)
       ∧ entries_of (record_of d2 u) "ratings" = JObj e
       ∧ e !! ToString rt m = None).
Proof.
  intros Hu Hu' Hm Hm' Hok. split; intros Hv Hnull.
  - assert (status_accepted (body_field req' "status")) as Hv' by (left; done).
    destruct (put_entry_then_clear u "watchStates" m (body_field req "status") d Hok)
      as (r1 & d1 & r2 & d2 & e & H1 & H2 & H3 & He & Hgone); [by left|].
    exists r1, d1, r2, d2, e.
    rewrite (put_status_run rt req u m _ Hu Hm Hv).
    rewrite !(put_status_run rt req' u m _ Hu' Hm' Hv'), Hnull. done.
  - assert (rating_accepted (body_field req' "rating")) as Hv' by (left; done).
    destruct (put_entry_then_clear u "ratings" m (body_field req "rating") d Hok)
      as (r1 & d1 & r2 & d2 & e & H1 & H2 & H3 & He & Hgone); [by right|].
    exists r1, d1, r2, d2, e.
    rewrite (put_rating_run rt req u m _ Hu Hm Hv).
    rewrite !(put_rating_run rt req' u m _ Hu' Hm' Hv'), Hnull. done.
Qed.

(** X8.  An accepted [PUT /api/status] and an accepted [PUT /api/rating]
    of the same user commute: served in either order they give the same
    two replies and leave the same store file. *)
Theorem status_and_rating_commute (reqS reqR : Request) (u : AuthUser) (m m' : Q)
    (d : disk) :
  req_user reqS = Some u → req_user reqR = Some u →
  body_field reqS "movieId" = Some (JNum m) →
  body_field reqR "movieId" = Some (JNum m') →
  status_accepted (body_field reqS "status") →
  rating_accepted (body_field reqR "rating") →
  caller_ok d (id u) →
  ∃ r1 d1 r2 d2 d1',
    put_status rt reqS d = (Ok r1, d1)
    ∧ put_rating rt reqR d1 = (Ok r2, d2)
    ∧ put_rating rt reqR d = (Ok r2, d1')
    ∧ put_status rt reqS d1' = (Ok r1, d2).
Proof.
  intros HuS HuR HmS HmR HvS HvR Hok.
  destruct (put_accepted rt u "watchStates" m (body_field reqS "status") d Hok)
    as (um & rec & e & Hum & Hrec & He & Hrun); [by left|].
  destruct (put_accepted rt u "ratings" m' (body_field reqR "rating") d Hok)
    as (um' & rec' & e' & Hum' & Hrec' & He' & Hrun'); [by right|].
  rewrite Hum in Hum'. injection Hum' as <-.
  rewrite Hrec in Hrec'. injection Hrec' as <-.
  cbn [entries_of] in He, He'.
  pose proof (put_entry_run rt u "ratings" m' (body_field reqR "rating")
                (written {| users := JObj (<[id u := JObj (<["watchStates" := JObj (updated_entries rt m (body_field reqS "status") e)]> rec)]> um);
                            reviews := reviews (stored d) |})
                _ (<["watchStates" := JObj (updated_entries rt m (body_field reqS "status") e)]> rec) e'
                (f_equal users (stored_written_users _ d))) as H12.
  rewrite lookup_insert_eq, lookup_insert_ne in H12 by done.
  specialize (H12 eq_refl He'). cbn zeta in H12.
  pose proof (put_entry_run rt u "watchStates" m (body_field reqS "status")
                (written {| users := JObj (<[id u := JObj (<["ratings" := JObj (updated_entries rt m' (body_field reqR "rating") e')]> rec)]> um);
                            reviews := reviews (stored d) |})
                _ (<["ratings" := JObj (updated_entries rt m' (body_field reqR "rating") e')]> rec) e
                (f_equal users (stored_written_users _ d))) as H21.
  rewrite lookup_insert_eq, lookup_insert_ne in H21 by done.
  specialize (H21 eq_refl He). cbn zeta in H21.
  rewrite !stored_written_users in H12, H21. cbn [reviews] in H12, H21.
  rewrite !insert_insert_eq in H12, H21.
  rewrite (insert_insert_ne rec "watchStates" "ratings") in H21 by done.
  eexists _, _, _, _, _.
  rewrite !(put_status_run rt reqS u m _ HuS HmS HvS).
  rewrite !(put_rating_run rt reqR u m' _ HuR HmR HvR).
  split; [exact Hrun|]. split; [exact H12|]. split; [exact Hrun'|]. exact H21.
Qed.

End More_tracking.
Section Sessions.
Context (rt : Runtime).

Lemma fresh_is_bare_with_profile u :
  ∃ rec, bare_record = JObj rec ∧ fresh_record u = JObj (<["profile" := user_json u]> rec).
Proof.
  eexists. split; [reflexivity|]. unfold fresh_record, object_literal. by f_equal.
Qed.

(** X9.  [GET /api/me] of an authenticated user whose stored record is a
    record of the data model answers the session user and writes the
    store with the [profile] of the user's record replaced by the session
    user: the watch states and the ratings of the record, the records of
    the other users and the reviews are kept, and a user without a record
    gets the fresh one.  Without a session it answers [user: null] and
    leaves the disk as it is. *)
Theorem me_refreshes_profile (req : Request) (u : AuthUser) (d : disk) :
  req_user req = Some u → caller_ok d (id u) →
  (∃ d' um um' rec',
     get_me req d = (Ok (res_json 200 [("user", Some (user_json u))]), d')
     ∧ reviews (stored d') = reviews (stored d)
     ∧ users (stored d) = JObj um ∧ users (stored d') = JObj um'
     ∧ (∀ k, k ≠ id u → um' !! k = um !! k)
     ∧ um' !! id u = Some (JObj rec')
     ∧ rec' !! "profile" = Some (user_json u)
     ∧ entries_of (JObj rec') "watchStates" = entries_of (record_of d u) "watchStates"
     ∧ entries_of (JObj rec') "ratings" = entries_of (record_of d u) "ratings"
     ∧ (nullish (um !! id u) JNull = JNull → JObj rec' = fresh_record u))
  ∧ (∀ anon d0, req_user anon = None →
       get_me anon d0 = (Ok (res_json 200 [("user", Some JNull)]), d0)).
Proof.
  intros Hu Hok. split; [|intros anon d0 Hanon; unfold get_me; by rewrite Hanon].
  unfold caller_ok in Hok.
  destruct (users (stored d)) as [| | | | |um] eqn:Hum; try done.
  destruct (fresh_is_bare_with_profile u) as (bare & Hbare & Hfresh).
  assert (∃ rec, nullish (um !! id u) bare_record = JObj rec
                 ∧ entries_of (JObj rec) "watchStates"
                   = entries_of (record_of d u) "watchStates"
                 ∧ entries_of (JObj rec) "ratings" = entries_of (record_of d u) "ratings"
                 ∧ (nullish (um !! id u) JNull = JNull → rec = bare))
    as (rec & Hrec & Hws & Hrs & Hnew).
  { unfold record_of. rewrite Hum.
    destruct (um !! id u) as [[| | | | |rec]|]; try done; cbn [nullish].
    - exists bare. rewrite Hbare, Hfresh. cbn [nullish entries_of].
      by rewrite !lookup_insert_ne.
    - by exists rec.
    - exists bare. rewrite Hbare, Hfresh. cbn [nullish entries_of].
      by rewrite !lookup_insert_ne. }
  rewrite (get_me_run req u d um rec Hu Hum Hrec).
  eexists _, um, _, _. split; [done|]. rewrite stored_written_users. cbn [users reviews].
  split; [done|]. split; [done|]. split; [done|].
  split; [intros k Hk; by rewrite lookup_insert_ne|].
  split; [by rewrite lookup_insert_eq|].
  split; [by rewrite lookup_insert_eq|].
  cbn [entries_of] in *. rewrite !lookup_insert_ne by done.
  split; [done|]. split; [done|].
  intros Hnull. by rewrite (Hnew Hnull), Hfresh.
Qed.

(** X10.  [GET /api/user-data] of an authenticated user on a store whose
    users are a mapping answers 200 and writes the store with the user's
    record put back under the user's id: when the user has a record the
    store read back is the one that was there, a user without one gets
    the fresh record, and the same request right after it gives the same
    reply and the same disk. *)
Theorem user_data_keeps_the_store (req : Request) (u : AuthUser) (d : disk)
    (um : gmap string json) :
  req_user req = Some u →
  users (stored d) = JObj um →
  ∃ r d',
    get_user_data req d = (Ok r, d') ∧ status r = 200
    ∧ reviews (stored d') = reviews (stored d)
    ∧ users (stored d') = JObj (<[id u := record_of d u]> um)
    ∧ (∀ rec, um !! id u = Some rec → rec ≠ JNull → stored d' = stored d)
    ∧ (nullish (um !! id u) JNull = JNull → record_of d' u = fresh_record u)
    ∧ get_user_data req d' = (Ok r, d').
Proof.
  intros Hu Hum.
  rewrite (get_user_data_run req u d um Hu Hum). cbn zeta.
  assert (record_of d u = nullish (um !! id u) (fresh_record u)) as Hrec.
  { unfold record_of. by rewrite Hum. }
  rewrite <- Hrec.
  assert (record_of d u ≠ JNull) as Hnn.
  { rewrite Hrec. by destruct (um !! id u) as [[]|]. }
  eexists _, _. split; [done|]. split; [done|].
  rewrite stored_written_users. cbn [users reviews].
  split; [done|]. split; [done|]. split; [|split].
  - intros rec Hin Hnull.
    assert (record_of d u = rec) as -> by (rewrite Hrec, Hin; by destruct rec).
    rewrite insert_id by done. rewrite <- Hum. by destruct (stored d).
  - intros Hnull. unfold record_of at 1. rewrite stored_written_users. cbn [users].
    rewrite lookup_insert_eq. rewrite Hrec.
    destruct (um !! id u) as [[]|]; try done.
  - erewrite get_user_data_run; [|done|by rewrite stored_written_users].
    cbn zeta. rewrite stored_written_users. cbn [users reviews].
    rewrite lookup_insert_eq, insert_insert_eq.
    assert (nullish (Some (record_of d u)) (fresh_record u) = record_of d u) as ->.
    { by destruct (record_of d u). }
    done.
Qed.

(** X11.  [GET /api/reviews/:movieId] for a movie id that is not a number
    ([Number] gives [NaN]), or for a movie no stored review is about,
    answers 200 with an empty list; it writes nothing but the store file
    it makes when there is none, and the store read back is the same. *)
Theorem reviews_of_unknown_movie (req : Request) (d : disk) (l : list json) :
  reviews (stored d) = JArr l → JNull ∉ l →
  ToNumber rt (req_params_movieId req) = NaN
  ∨ (∀ r, r ∈ l → about_movie (ToNumber rt (req_params_movieId req)) r = false) →
  get_reviews rt req d
  = (Ok (res_json 200 [("reviews", Some (JArr []))]), Some (ensured d))
  ∧ stored (Some (ensured d)) = stored d.
Proof.
  intros Hl Hnull Hcase. split; [|apply stored_ensured].
  assert (∀ r, r ∈ l → about_movie (ToNumber rt (req_params_movieId req)) r = false)
    as Hnot.
  { destruct Hcase as [Hnan | Hnot]; [|done]. intros r _. rewrite Hnan.
    destruct r as [| | | | |rec]; try done. cbn. by destruct (rec !! "movieId") as [[]|]. }
  unfold get_reviews. rewrite bind_readStore, Hl, bind_lift. cbn [array_filter].
  rewrite filter_reviews by done.
  assert (List.filter (about_movie (ToNumber rt (req_params_movieId req))) l = []) as ->.
  { clear Hl Hnull Hcase. induction l as [|x l IH]; [done|]. cbn.
    rewrite (Hnot x) by by left. apply IH. intros r Hr. apply Hnot. by right. }
  by rewrite bind_lift.
Qed.

End Sessions.

Section Store_round_trip.

(** X12.  [writeStore] followed by [readStore] reads back the store that
    was written, whatever the disk held before, provided neither its
    users nor its reviews are [null]; in general a [null] field reads
    back as the empty mapping or the empty list. *)
Theorem write_then_read (s : Store) (d : disk) :
  users s ≠ JNull → reviews s ≠ JNull →
  (writeStore s ;; readStore) d = (Ok s, written s)
  ∧ ∀ s' d0,
      (writeStore s' ;; readStore) d0
      = (Ok {| users := nullish (Some (users s')) (JObj ∅);
               reviews := nullish (Some (reviews s')) (JArr []) |}, written s').
Proof.
  assert (∀ s' d0, (writeStore s' ;; readStore) d0 = (Ok (stored (written s')), written s'))
    as H.
  { intros s' d0. unfold mbind at 1, io_bind. rewrite writeStore_run.
    by rewrite readStore_run. }
  intros Hu Hr. split.
  - by rewrite H, stored_written.
  - intros s' d0. by rewrite H.
Qed.

End Store_round_trip.

Section History.
Context (rt : Runtime).

Lemma put_entry_reads_store u field m value d1 d2 :
  stored d1 = stored d2 →
  (put_entry rt u field m value d1).1 = (put_entry rt u field m value d2).1
  ∧ stored (put_entry rt u field m value d1).2 = stored (put_entry rt u field m value d2).2.
Proof.
  intros Heq. unfold put_entry. rewrite !bind_readStore, Heq.
  repeat first
    [ rewrite !bind_writeStore
    | rewrite !bind_lift
    | match goal with
      | |- context [match ?o with Ok _ => _ | Throw => _ | Exotic => _ end] =>
          destruct o; cbn [fst snd]; rewrite ?stored_ensured; try done
      end ].
Qed.

(** A handler sees the disk through [readStore] only. *)
Lemma handle_reads_store c req d1 d2 :
  stored d1 = stored d2 →
  (handle rt c req d1).1 = (handle rt c req d2).1
  ∧ stored (handle rt c req d1).2 = stored (handle rt c req d2).2.
Proof.
  intros Heq. destruct c; cbn [handle].
  - unfold get_me. destruct (req_user req) as [u|]; [|done].
    rewrite !bind_readStore, Heq.
    repeat first
      [ rewrite !bind_writeStore
      | rewrite !bind_lift
      | match goal with
        | |- context [match ?o with Ok _ => _ | Throw => _ | Exotic => _ end] =>
            destruct o; cbn [fst snd]; rewrite ?stored_ensured; try done
        end ].
  - unfold get_user_data, requireAuth. destruct (req_user req) as [u|]; [|done].
    rewrite !bind_readStore, Heq.
    repeat first
      [ rewrite !bind_writeStore
      | rewrite !bind_lift
      | match goal with
        | |- context [match ?o with Ok _ => _ | Throw => _ | Exotic => _ end] =>
            destruct o; cbn [fst snd]; rewrite ?stored_ensured; try done
        end ].
  - unfold get_reviews. rewrite !bind_readStore, Heq.
    repeat first
      [ rewrite !bind_lift
      | match goal with
        | |- context [match ?o with Ok _ => _ | Throw => _ | Exotic => _ end] =>
            destruct o; cbn [fst snd]; rewrite ?stored_ensured; try done
        end ].
  - destruct (req_user req) as [u|] eqn:Hu.
    + rewrite !(put_status_unfold rt req u _ Hu).
      destruct (body_field req "movieId") as [[| |m| | |]|]; try done.
      destruct (status_rejected _); [done|]. by apply put_entry_reads_store.
    + unfold put_status, requireAuth. by rewrite Hu.
  - destruct (req_user req) as [u|] eqn:Hu.
    + rewrite !(put_rating_unfold rt req u _ Hu).
      destruct (body_field req "movieId") as [[| |m| | |]|]; try done.
      destruct (rating_rejected _); [done|]. by apply put_entry_reads_store.
    + unfold put_rating, requireAuth. by rewrite Hu.
  - destruct (req_user req) as [u|] eqn:Hu.
    + rewrite !(post_reviews_unfold rt now created req u _ Hu).
      destruct (body_field req "movieId") as [[| |m| | |]|]; try done.
      destruct (body_field req "content") as [[| | |text| |]|]; try done.
      destruct (String.eqb _ _); [done|]. destruct (rating_rejected _); [done|].
      rewrite Heq. destruct (spread_elems _); cbn [fst snd]; rewrite ?stored_ensured; done.
    + unfold post_reviews, requireAuth. by rewrite Hu.
Qed.

(** X13.  A store file that does not parse is served as an empty store:
    [readStore] gives the empty store and leaves the file, and every
    request is answered on it as it is on a missing file, with the same
    store read back afterwards; so the first accepted write replaces the
    unreadable content. *)
Theorem corrupt_file_is_an_empty_store (c : call) (req : Request) :
  readStore (Some Unparseable) = (Ok empty_store, Some Unparseable)
  ∧ (handle rt c req (Some Unparseable)).1 = (handle rt c req None).1
  ∧ stored (handle rt c req (Some Unparseable)).2 = stored (handle rt c req None).2.
Proof.
  split; [by rewrite readStore_run|]. by apply handle_reads_store.
Qed.

Lemma new_review_valid now created u m text rating :
  trim rt text ≠ "" → rating_accepted rating →
  review_valid (new_review rt now created u m text rating).
Proof.
  intros Htrim Hr. unfold review_valid, new_review, object_literal.
  destruct Hr as [-> | (q & z & -> & Hq & Hz)].
  - eexists _, m, (trim rt text). split; [reflexivity|].
    split; [done|]. split; [done|]. split; [done|]. split; [by left|].
    split; by eexists.
  - eexists _, m, (trim rt text). split; [reflexivity|].
    split; [done|]. split; [done|]. split; [done|].
    split; [right; by exists q, z|]. split; by eexists.
Qed.

Lemma handle_adds_review c req d l :
  reviews (stored d) = JArr l →
  reviews (stored (handle rt c req d).2) = JArr l
  ∨ ∃ review, review_valid review
      ∧ reviews (stored (handle rt c req d).2) = JArr (review :: l).
Proof.
  intros Hl. destruct c as [| | | | |now created];
    try (left; rewrite reviews_kept by done; done).
  cbn [handle]. destruct (post_reviews_cases rt now created req d)
    as [[r ->] | (u & m & text & Hu & Hm & Htext & Htrim & Hr)]; [by left|].
  right. rewrite (post_reviews_run rt now created req u m text d l) by done. cbn [snd].
  rewrite reviews_written by done. eexists. split; [|done].
  by apply new_review_valid.
Qed.

Lemma run_adds_reviews cs d l :
  store_ok d → reviews (stored d) = JArr l →
  ∃ d' added, run rt cs d = Some d' ∧ reviews (stored d') = JArr (added ++ l)
              ∧ Forall review_valid added ∧ (length added ≤ length cs)%nat.
Proof.
  revert d l. induction cs as [|[c req] cs IH]; intros d l Hok Hl.
  - exists d, []. by repeat split.
  - rewrite run_cons by done.
    destruct (handle_followed rt c req d Hok) as [_ Hok'].
    destruct (handle_adds_review c req d l Hl) as [Hsame | (review & Hvalid & Hmore)].
    + destruct (IH _ _ Hok' Hsame) as (d' & added & Hrun & Hrev & Hall & Hlen).
      exists d', added. repeat split; try done. cbn [length]. lia.
    + destruct (IH _ _ Hok' Hmore) as (d' & added & Hrun & Hrev & Hall & Hlen).
      exists d', ((added ++ [review])%list). rewrite <- app_assoc. repeat split; try done.
      * apply Forall_app. by split; [|apply Forall_singleton].
      * rewrite length_app. cbn [length]. lia.
Qed.

(** X14.  Requests served one after the other, each to its end before
    the next is read, lose and alter no stored review: on a store of the
    shape of the data model the reviews after the sequence are the
    reviews before it with new ones in front, at most one for each
    request, each a valid review (numeric movie id, content that is not
    empty, rating [null] or an integer from 1 to 5, author and user id).
    So every review of a store the server made from nothing in this way
    is valid.  Requests that overlap are not covered: the handlers read
    the whole store and write it back, so the later write of two can drop
    the review of the earlier. *)
Theorem reviews_only_grow (cs : list (call * Request)) (d : disk) (l : list json) :
  store_ok d → reviews (stored d) = JArr l →
  (∃ d' added, run rt cs d = Some d' ∧ reviews (stored d') = JArr (added ++ l)
               ∧ Forall review_valid added ∧ (length added ≤ length cs)%nat)
  ∧ (∃ d0 l0, run rt cs None = Some d0 ∧ reviews (stored d0) = JArr l0
              ∧ Forall review_valid l0 ∧ (length l0 ≤ length cs)%nat).
Proof.
  intros Hok Hl. split; [by apply run_adds_reviews|].
  destruct (run_adds_reviews cs None []) as (d0 & added & Hrun & Hrev & Hall & Hlen).
  - split; [|by exists []]. unfold users_ok. cbn. apply map_Forall_empty.
  - done.
  - exists d0, added. by rewrite app_nil_r in Hrev.
Qed.

Lemma post_reviews_reads_first (now created : Z) (req : Request) (u : AuthUser)
    (m : Q) (text : string) (d : disk) :
  req_user req = Some u →
  body_field req "movieId" = Some (JNum m) →
  body_field req "content" = Some (JStr text) →
  trim rt text ≠ "" →
  rating_accepted (body_field req "rating") →
  post_reviews rt now created req d
  = (readStore ≫= post_reviews_after_read rt now created u m text
                     (body_field req "rating")) d.
Proof.
  intros Hu Hm Hc Htrim Hr. unfold post_reviews, requireAuth. rewrite Hu.
  rewrite body_get, bind_lift, body_get, bind_lift, body_get, bind_lift by done.
  rewrite Hm, Hc. apply String.eqb_neq in Htrim. rewrite Htrim.
  apply rating_rejected_spec in Hr. by rewrite Hr.
Qed.

Lemma user_at_written um r k :
  r ≠ JNull → user_at (written {| users := JObj um; reviews := r |}) k = um !! k.
Proof. intros Hr. unfold user_at. by rewrite stored_written. Qed.

Lemma user_at_same d d' k : users (stored d') = users (stored d) → user_at d' k = user_at d k.
Proof. unfold user_at. by intros ->. Qed.

Lemma handle_others c req d k :
  users_ok d → ¬ called_by k (c, req) →
  user_at (handle rt c req d).2 k = user_at d k.
Proof.
  intros Hok Hk.
  assert (∀ u, req_user req = Some u → k ≠ id u) as Hne.
  { intros u Hu ->. apply Hk. by exists u. }
  pose proof Hok as Hok0. unfold users_ok in Hok0.
  destruct (users (stored d)) as [| | | | |um] eqn:Hum; try done.
  assert (user_at d k = um !! k) as Hat by (unfold user_at; by rewrite Hum).
  destruct c as [| | | | |now created]; cbn [handle].
  - destruct (req_user req) as [u|] eqn:Hu; [|unfold get_me; by rewrite Hu].
    assert (∃ rec0, nullish (um !! id u) bare_record = JObj rec0) as [rec0 Hrec0].
    { specialize (Hok0 (id u)). destruct (um !! id u) as [[]|]; try by eexists.
      all: by specialize (Hok0 _ eq_refl). }
    erewrite get_me_run by done. cbn [snd].
    rewrite user_at_written by apply stored_reviews_not_null.
    rewrite lookup_insert_ne by by apply not_eq_sym, Hne. done.
  - destruct (req_user req) as [u|] eqn:Hu;
      [|unfold get_user_data, requireAuth; by rewrite Hu].
    erewrite get_user_data_run by done. cbn [snd].
    rewrite user_at_written by apply stored_reviews_not_null.
    rewrite lookup_insert_ne by by apply not_eq_sym, Hne. done.
  - apply user_at_same. by rewrite get_reviews_disk, stored_ensured.
  - destruct (put_status_cases rt req d) as [[r ->] | (u & m & Hu & Hm & Hs)]; [done|].
    rewrite (put_status_run rt req u m d Hu Hm Hs).
    destruct (put_accepted rt u "watchStates" m (body_field req "status") d)
      as (um' & ? & ? & Hum' & _ & _ & ->); [by apply users_ok_caller | by left |].
    rewrite Hum in Hum'. injection Hum' as <-. cbn [snd].
    rewrite user_at_written by apply stored_reviews_not_null.
    rewrite lookup_insert_ne by by apply not_eq_sym, Hne. done.
  - destruct (put_rating_cases rt req d) as [[r ->] | (u & m & Hu & Hm & Hs)]; [done|].
    rewrite (put_rating_run rt req u m d Hu Hm Hs).
    destruct (put_accepted rt u "ratings" m (body_field req "rating") d)
      as (um' & ? & ? & Hum' & _ & _ & ->); [by apply users_ok_caller | by right |].
    rewrite Hum in Hum'. injection Hum' as <-. cbn [snd].
    rewrite user_at_written by apply stored_reviews_not_null.
    rewrite lookup_insert_ne by by apply not_eq_sym, Hne. done.
  - apply user_at_same. apply post_reviews_users.
Qed.

(** X15.  A user's record is touched by that user's requests only: after
    any sequence of requests none of which is made in the session of a
    user, accepted or refused, the store holds under that user's id
    exactly what it held before. *)
Theorem other_users_untouched (cs : list (call * Request)) (d : disk) (k : string) :
  store_ok d →
  Forall (λ cr, ¬ called_by k cr) cs →
  ∃ d', run rt cs d = Some d' ∧ user_at d' k = user_at d k.
Proof.
  revert d. induction cs as [|[c req] cs IH]; intros d Hok Hcs.
  - by exists d.
  - rewrite run_cons by done. apply Forall_cons in Hcs as [Hc Hcs].
    destruct (handle_followed rt c req d Hok) as [_ Hok'].
    destruct (IH _ Hok' Hcs) as (d' & Hrun & Hat).
    exists d'. split; [done|]. rewrite Hat. apply handle_others; [apply Hok | done].
Qed.

End History.

(** * The stored records *)

Section Stored_records.
Context (rt : Runtime).

(** What [put_entry] stores: the record it found for the caller, or the
    fresh one, with the map [field] updated under the movie id. *)
Lemma put_entry_stored u field m value d :
  caller_ok d (id u) →
  field = "watchStates" ∨ field = "ratings" →
  ∃ rec e d',
    let e' := updated_entries rt m value e in
    put_entry rt u field m value d = (Ok (res_json 200 [(field, Some (JObj e'))]), d')
    ∧ nullish (user_at d (id u)) (fresh_record u) = JObj rec
    ∧ nullish (rec !! field) (JObj ∅) = JObj e
    ∧ user_at d' (id u) = Some (JObj (<[field := JObj e']> rec))
    ∧ (∀ k, k ≠ id u → user_at d' k = user_at d k)
    ∧ reviews (stored d') = reviews (stored d).
Proof.
  intros Hok Hfield.
  destruct (caller_ok_inv d u field Hok Hfield) as (um & rec & e & Hum & Hrec & He).
  exists rec, e. eexists. cbn zeta.
  rewrite (put_entry_run rt u field m value d um rec e Hum Hrec He).
  split; [done|]. unfold user_at. rewrite stored_written_users, Hum. cbn [users reviews].
  split; [done|]. split; [done|]. split; [by rewrite lookup_insert_eq|].
  split; [|done]. intros k Hk. by rewrite lookup_insert_ne.
Qed.

Lemma put_entry_writes_entry u field m value d :
  caller_ok d (id u) →
  field = "watchStates" ∨ field = "ratings" →
  ∃ r d', put_entry rt u field m value d = (Ok r, d') ∧ status r = 200
          ∧ only_entry_written d d' u field (ToString rt m).
Proof.
  intros Hok Hfield.
  destruct (put_entry_stored u field m value d Hok Hfield)
    as (rec & e & d' & Hrun & Hrec & He & Hat & Hothers & Hreviews).
  cbn zeta in Hrun, Hat. rewrite Hrun. eexists _, d'.
  split; [done|]. split; [done|]. split; [done|]. split; [done|].
  eexists _, _. split; [exact Hat|]. split; [by rewrite lookup_insert_eq|].
  assert (∀ k, k ≠ ToString rt m →
            updated_entries rt m value e !! k = e !! k) as Hkeys.
  { intros k Hk. unfold updated_entries. by rewrite lookup_partial_alter_ne. }
  assert (caller_ok d (id u)) as Hshape by done.
  unfold caller_ok in Hshape. unfold user_at in *.
  destruct (users (stored d)) as [| | | | |um]; try done.
  destruct (um !! id u) as [[| | | | |rec0]|] eqn:Hfound; try done; cbn in Hrec.
  - split; [done|]. injection Hrec as <-.
    assert (JObj e = JObj ∅) as [= ->] by (rewrite <- He; by destruct Hfield as [-> | ->]).
    split; [|intros k Hk; by rewrite Hkeys].
    eexists. split; [done|]. intros f Hf. by rewrite lookup_insert_ne.
  - injection Hrec as ->. split; [intros f Hf; by rewrite lookup_insert_ne|].
    exists e. by split.
  - split; [done|]. injection Hrec as <-.
    assert (JObj e = JObj ∅) as [= ->] by (rewrite <- He; by destruct Hfield as [-> | ->]).
    split; [|intros k Hk; by rewrite Hkeys].
    eexists. split; [done|]. intros f Hf. by rewrite lookup_insert_ne.
Qed.

(** C10.  An accepted [PUT /api/rating] for movie [m] by an authenticated
    user [u] whose stored record, if any, is a record of the data model
    answers 200 and writes a store that differs from the one it read at
    most in what is stored for [u]: the reviews and what is stored under
    every other id are the same.  A record that was stored for [u] keeps
    every field but its ratings (the watch states, the profile), and its
    ratings, empty if the record had none, differ at most under [m].
    Where nothing or [null] was stored for [u], the call stores the record
    as well: the fresh record of [u], with empty watch states and the
    profile of the session, its ratings holding at most the entry under
    [m].  [PUT /api/status] does the same with the watch states. *)
Theorem put_changes_one_entry (req : Request) (u : AuthUser) (m : Q) (d : disk) :
  req_user req = Some u →
  body_field req "movieId" = Some (JNum m) →
  caller_ok d (id u) →
  (rating_accepted (body_field req "rating") →
     ∃ r d', put_rating rt req d = (Ok r, d') ∧ status r = 200
             ∧ only_entry_written d d' u "ratings" (ToString rt m))
  ∧ (status_accepted (body_field req "status") →
     ∃ r d', put_status rt req d = (Ok r, d') ∧ status r = 200
             ∧ only_entry_written d d' u "watchStates" (ToString rt m)).
Proof.
  intros Hu Hm Hok. split; intros Hv.
  - rewrite (put_rating_run rt req u m d Hu Hm Hv).
    apply put_entry_writes_entry; [done|by right].
  - rewrite (put_status_run rt req u m d Hu Hm Hv).
    apply put_entry_writes_entry; [done|by left].
Qed.

Lemma get_me_reads_first (req : Request) (u : AuthUser) :
  req_user req = Some u → get_me req = readStore ≫= me_after_read u.
Proof. intros Hu. unfold get_me. by rewrite Hu. Qed.

Lemma upsert_stored c req u d :
  users_ok d → req_user req = Some u → upserts c req →
  upserted rt c req u (user_at d (id u)) (user_at (handle rt c req d).2 (id u))
  ∧ ∀ k, k ≠ id u → user_at (handle rt c req d).2 k = user_at d k.
Proof.
  intros Hok Hu Hup. split.
  2:{ intros k Hk. apply handle_others; [done|]. intros (u' & Hu' & <-). cbn in Hu'. congruence. }
  destruct (record_of_ok d u Hok) as (um & rec & Hum & Hrec & Hrok & Hfresh).
  unfold record_of in Hrec. rewrite Hum in Hrec.
  assert (user_at d (id u) = um !! id u) as Hat by (unfold user_at; by rewrite Hum).
  unfold upserted. rewrite Hat.
  destruct c; try done; cbn [handle upserts] in *.
  - exists rec. split; [done|].
    assert (∃ rec0, nullish (um !! id u) bare_record = JObj rec0
              ∧ <["profile" := user_json u]> rec0 = <["profile" := user_json u]> rec)
      as (rec0 & Hrec0 & Hsame).
    { unfold users_ok in Hok. rewrite Hum in Hok.
      destruct (um !! id u) as [v|] eqn:Hv.
      - apply Hok in Hv. destruct v; try done.
        + eexists. split; [done|]. cbn in Hrec. injection Hrec as <-. by apply map_eq.
        + eexists. split; [done|]. cbn in Hrec. by injection Hrec as <-.
      - eexists. split; [done|]. cbn in Hrec. injection Hrec as <-. by apply map_eq. }
    erewrite get_me_run by done. cbn [snd].
    rewrite user_at_written by apply stored_reviews_not_null.
    by rewrite lookup_insert_eq, Hsame.
  - exists rec. split; [done|].
    erewrite get_user_data_run by done. cbn [snd].
    rewrite user_at_written by apply stored_reviews_not_null.
    by rewrite lookup_insert_eq, Hrec.
  - destruct Hup as [[m Hm] Hs]. rewrite (put_status_run rt req u m d Hu Hm Hs).
    destruct (put_entry_stored u "watchStates" m (body_field req "status") d)
      as (rec1 & e & d' & Hrun & Hrec1 & He & Hkept & _); [by apply users_ok_caller|by left|].
    cbn zeta in Hrun, Hkept. rewrite Hrun. cbn [snd]. rewrite Hat in Hrec1.
    exists rec1. split; [done|]. by exists m, e.
  - destruct Hup as [[m Hm] Hs]. rewrite (put_rating_run rt req u m d Hu Hm Hs).
    destruct (put_entry_stored u "ratings" m (body_field req "rating") d)
      as (rec1 & e & d' & Hrun & Hrec1 & He & Hkept & _); [by apply users_ok_caller|by right|].
    cbn zeta in Hrun, Hkept. rewrite Hrun. cbn [snd]. rewrite Hat in Hrec1.
    exists rec1. split; [done|]. by exists m, e.
Qed.

Lemma handle_keeps_record c req d k rec :
  users_ok d → user_at d k = Some (JObj rec) →
  ∃ rec', user_at (handle rt c req d).2 k = Some (JObj rec').
Proof.
  intros Hok Hrec.
  destruct (req_user req) as [u|] eqn:Hu.
  2:{ rewrite handle_others; [by eexists|done|]. intros (u & Hu' & _). cbn in Hu'. congruence. }
  destruct (decide (k = id u)) as [-> | Hk].
  2:{ rewrite handle_others; [by eexists|done|].
      intros (u' & Hu' & <-). cbn in Hu'. congruence. }
  assert (∀ d', users (stored d') = users (stored d) →
                ∃ rec', user_at d' (id u) = Some (JObj rec')) as Hsame.
  { intros d' Hd'. exists rec. by rewrite (user_at_same d d'). }
  assert (∀ c', upserts c' req →
                ∃ rec', user_at (handle rt c' req d).2 (id u) = Some (JObj rec')) as Hup.
  { intros c' Hc'.
    destruct (upsert_stored c' req u d Hok Hu Hc') as [(rec0 & _ & Hkept) _].
    destruct c'; try done; try by eexists.
    - destruct Hkept as (m & e & _ & _ & ->). by eexists.
    - destruct Hkept as (m & e & _ & _ & ->). by eexists. }
  destruct c as [| | | | |now created].
  - by apply (Hup Me).
  - by apply (Hup UserData).
  - apply Hsame. cbn [handle]. by rewrite get_reviews_disk, stored_ensured.
  - destruct (put_status_cases rt req d) as [[r Hr] | (u' & m & Hu' & Hm & Hs)].
    + apply Hsame. cbn [handle]. by rewrite Hr.
    + apply (Hup PutStatus). split; [by exists m|done].
  - destruct (put_rating_cases rt req d) as [[r Hr] | (u' & m & Hu' & Hm & Hs)].
    + apply Hsame. cbn [handle]. by rewrite Hr.
    + apply (Hup PutRating). split; [by exists m|done].
  - apply Hsame. cbn [handle]. apply post_reviews_users.
Qed.

Lemma run_keeps_record cs d d' k rec :
  store_ok d → user_at d k = Some (JObj rec) → run rt cs d = Some d' →
  ∃ rec', user_at d' k = Some (JObj rec').
Proof.
  revert d rec. induction cs as [|[c req] cs IH]; intros d rec Hok Hrec Hrun.
  { injection Hrun as <-. by exists rec. }
  rewrite run_cons in Hrun by done.
  destruct (handle_keeps_record c req d k rec (proj1 Hok) Hrec) as [rec1 Hrec1].
  destruct (handle_followed rt c req d Hok) as [_ Hok1].
  by apply (IH _ rec1 Hok1 Hrec1).
Qed.

(** C9.  Requests served one after the other keep one record for each
    user.  In every sequence of calls on a store of the shape of the data
    model (the users a mapping of records, the reviews a list), an
    upserting call of an authenticated user [u] ([GET /api/me], [GET
    /api/user-data], an accepted [PUT /api/status] or [PUT /api/rating])
    is answered 200 and leaves one key for the id of [u], with an object
    stored under it: the record that was found there, or the fresh record
    with empty watch states and ratings when nothing or [null] was found,
    with the profile of the session for [GET /api/me] and with the entry
    set for a [PUT].  What is stored under the other ids is not touched.
    After the rest of the sequence, whatever the calls and whoever the
    callers, the store still has that shape, with one key for the id of
    [u] and an object under it.  A missing store file is such a store.
    Requests that overlap are not covered: they can lose a record, as
    the sample data show. *)
Theorem one_record_per_user (cs1 cs2 : list (call * Request)) (c : call)
    (req : Request) (u : AuthUser) (d : disk) :
  store_ok d → req_user req = Some u → upserts c req →
  ∃ d1 d3,
    run rt cs1 d = Some d1
    ∧ run rt (cs1 ++ (c, req) :: cs2) d = Some d3
    ∧ let d2 := (handle rt c req d1).2 in
      (∃ r, (handle rt c req d1).1 = Ok r ∧ status r = 200)
      ∧ records_under d2 (id u) = 1
      ∧ upserted rt c req u (user_at d1 (id u)) (user_at d2 (id u))
      ∧ (∃ rec2, user_at d2 (id u) = Some (JObj rec2))
      ∧ (nullish (user_at d1 (id u)) JNull = JNull →
         match c with
         | Me | UserData => user_at d2 (id u) = Some (fresh_record u)
         | _ => True
         end)
      ∧ (∀ k, k ≠ id u →
           records_under d2 k = records_under d1 k ∧ user_at d2 k = user_at d1 k)
      ∧ (records_under d1 (id u) = 0 →
         record_of d1 u = fresh_record u
         ∧ match c with
           | Me | UserData => record_of d2 u = fresh_record u
           | PutStatus =>
               ∃ m, body_field req "movieId" = Some (JNum m)
                    ∧ only_entry_changed d1 d2 u "watchStates" (ToString rt m)
           | PutRating =>
               ∃ m, body_field req "movieId" = Some (JNum m)
                    ∧ only_entry_changed d1 d2 u "ratings" (ToString rt m)
           | _ => True
           end)
      ∧ store_ok d3
      ∧ records_under d3 (id u) = 1
      ∧ (∃ rec3, user_at d3 (id u) = Some (JObj rec3))
      ∧ store_ok None.
Proof.
  intros Hok Hu Hup.
  destruct (run_grows rt cs1 d Hok) as (d1 & Hrun1 & Hok1 & _).
  destruct (upsert_step rt c req u d1 (proj1 Hok1) Hu Hup) as (Hreply & Hone & Hfresh).
  destruct (upsert_stored c req u d1 (proj1 Hok1) Hu Hup) as [Hstored Hrest].
  destruct (handle_grows rt c req d1 (proj1 Hok1)) as (_ & _ & Hothers).
  destruct (handle_followed rt c req d1 Hok1) as [_ Hok2].
  destruct (run_grows rt cs2 _ Hok2) as (d3 & Hrun3 & Hok3 & Hkeep).
  assert (∃ rec2, user_at (handle rt c req d1).2 (id u) = Some (JObj rec2)) as [rec2 Hrec2].
  { destruct Hstored as (rec & _ & Hkept).
    destruct c; try done; try by eexists.
    - destruct Hkept as (m & e & _ & _ & ->). by eexists.
    - destruct Hkept as (m & e & _ & _ & ->). by eexists. }
  exists d1, d3. split; [done|].
  split; [by rewrite (run_app rt cs1 _ d d1 Hrun1), run_cons|].
  cbn zeta. split; [done|]. split; [done|]. split; [done|]. split; [by exists rec2|].
  split.
  { intros Hnone. destruct Hstored as (rec & Hrec & Hkept).
    assert (fresh_record u = JObj rec) as Hfr.
    { by destruct (user_at d1 (id u)) as [[]|]. }
    destruct c; try done.
    - rewrite Hkept, Hfr. f_equal. f_equal. injection Hfr as <-. by apply map_eq.
    - by rewrite Hkept, Hfr. }
  split.
  { intros k Hk. split; [|by apply Hrest]. apply Hothers. rewrite Hu. simpl. congruence. }
  split; [done|]. split; [done|]. split; [by apply Hkeep|].
  split; [by apply (run_keeps_record cs2 _ d3 (id u) rec2 Hok2 Hrec2)|].
  split; [|by eexists]. unfold users_ok. simpl. apply map_Forall_empty.
Qed.

End Stored_records.

(** * Properties of the client state *)

Section Genres.

Lemma genre_fold_lookup (l : list Genre) (acc : gmap N string) (i : N) :
  foldl (λ acc genre, <[genre_id genre := genre_name genre]> acc) acc l !! i
  = match last (filter (λ g, genre_id g = i) l) with
    | Some g => Some (genre_name g)
    | None => acc !! i
    end.
Proof.
  revert acc. induction l as [|g l IH]; intros acc; [done|].
  cbn [foldl]. rewrite IH. rewrite filter_cons.
  destruct (decide (genre_id g = i)) as [<- | Hne].
  - rewrite last_cons. destruct (last (filter _ l)); [done|].
    by rewrite lookup_insert_eq.
  - destruct (last _); [done|]. by rewrite lookup_insert_ne.
Qed.

(** X16.  [genreMap] names a genre id after the last genre of the list
    that carries the id, and has no entry for an id no genre of the list
    carries. *)
Theorem genreMap_last_wins (st : AppState) (i : N) :
  genreMap st !! i = genre_name <$> last (filter (λ g, genre_id g = i) (st_genres st)).
Proof.
  unfold genreMap. rewrite genre_fold_lookup. by destruct (last _).
Qed.

Lemma omap_shorter {A B} (f : A → option B) (l : list A) :
  (length (omap f l) ≤ length l)%nat.
Proof.
  induction l as [|x l IH]; [done|]. cbn. destruct (f x); cbn; lia.
Qed.

Lemma known_names (names : list (option string)) (name : string) :
  name ∈ omap (λ n : option string, n) (filter (λ n, truthy n) names)
  ↔ name ≠ "" ∧ Some name ∈ names.
Proof.
  rewrite list_elem_of_omap. split.
  - intros (o & Hin & ->). apply list_elem_of_filter in Hin as [Ht Hin].
    split; [|done]. intros ->. done.
  - intros [Hne Hin]. exists (Some name). split; [|done].
    apply list_elem_of_filter. split; [|done]. by destruct name.
Qed.

(** X17.  For a movie that carries no [genres] of its own,
    [getMovieGenres] gives exactly the names, other than the empty one,
    that the genre map has for the genre ids of the movie, never more
    names than ids; when the map knows none of the ids it gives nothing
    and the card shows the placeholder.  A movie with [genres] of its own
    is given their names, whatever the map. *)
Theorem movie_genres_are_known_names (genres : option (list Genre)) (movie : Movie)
    (names : gmap N string) (unlisted : string) :
  genres = None ∨ genres = Some [] →
  (∀ name, name ∈ getMovieGenres genres movie names
     ↔ name ≠ "" ∧ ∃ i, i ∈ default [] (genre_ids movie) ∧ names !! i = Some name)
  ∧ (length (getMovieGenres genres movie names)
       ≤ length (default [] (genre_ids movie)))%nat
  ∧ ((∀ i, i ∈ default [] (genre_ids movie) → names !! i = None) →
     getMovieGenres genres movie names = []
     ∧ genre_line unlisted (getMovieGenres genres movie names) = unlisted)
  ∧ (∀ g gs names', getMovieGenres (Some (g :: gs)) movie names'
                    = genre_name <$> (g :: gs)).
Proof.
  intros Hnone.
  assert (getMovieGenres genres movie names
          = omap (λ n : option string, n)
              (filter (λ n, truthy n)
                 ((λ i, names !! i) <$> default [] (genre_ids movie)))) as ->.
  { by destruct Hnone as [-> | ->]. }
  split; [|split; [|split]].
  - intros name. rewrite known_names. rewrite list_elem_of_fmap.
    split; intros [Hne (i & H1 & H2)]; (split; [done|]); by exists i.
  - etrans; [apply omap_shorter|]. etrans; [apply length_filter|]. by rewrite length_fmap.
  - intros Hall.
    assert (omap (λ n : option string, n)
              (filter (λ n, truthy n)
                 ((λ i, names !! i) <$> default [] (genre_ids movie))) = []) as ->; [|done].
    induction (default [] (genre_ids movie)) as [|i l IH]; [done|].
    cbn [fmap list_fmap]. rewrite filter_cons, (Hall i) by by left.
    cbn. apply IH. intros j Hj. apply Hall. by right.
  - done.
Qed.

End Genres.

Section Statistics.

Lemma values_in_any_order {A} (P : A → Prop) `{∀ x, Decision (P x)} (o : gmap Z A) :
  length (filter P (Object_values o)) = length (filter P (map_to_list o).*2).
Proof.
  unfold Object_values. by rewrite (merge_sort_Permutation id_le (map_to_list o)).
Qed.

Lemma marked_insert s (ws : gmap Z WatchState) (i : Z) (new : WatchState) :
  (marked s (<[i := new]> ws) + (if decide (ws !! i = Some s) then 1 else 0)
   = marked s ws + (if decide (new = s) then 1 else 0))%nat.
Proof.
  unfold marked. rewrite !values_in_any_order.
  assert (∀ (m : gmap Z WatchState) v, m !! i = None →
            length (filter (λ state, state = s) (map_to_list (<[i := v]> m)).*2)
            = (length (filter (λ state, state = s) (map_to_list m).*2)
               + (if decide (v = s) then 1 else 0))%nat) as Hfresh.
  { intros m v Hm. rewrite (map_to_list_insert m i v Hm).
    cbn [fmap list_fmap snd]. rewrite filter_cons.
    destruct (decide (v = s)); cbn [length]; lia. }
  destruct (ws !! i) as [old|] eqn:Hi.
  - rewrite <- (insert_delete_eq ws i new) at 1.
    rewrite <- (insert_delete_id ws i old Hi) at 2.
    rewrite !Hfresh by apply lookup_delete_eq.
    destruct (decide (old = s)), (decide (Some old = Some s)), (decide (new = s));
      try congruence; lia.
  - rewrite Hfresh by done. destruct (decide (None = Some s)); [done|lia].
Qed.

(** X18.  [onStatusChange] applies the change locally whatever becomes
    of the request: the watch states have the new status under the movie
    id and are otherwise as before, and the counters of [stats] follow,
    the watched (watchlist) count losing one when the movie was watched
    (on the watchlist) before and gaining one when it is now, with the
    average rating untouched.  A failed request leaves this in place and
    only sets the error message. *)
Theorem status_change_moves_the_counts (API_BASE_URL : option string)
    (put : Z → WatchState → outcome unit) (movieId : Z) (status : WatchState)
    (st : AppState) :
  put movieId status ≠ Exotic →
  ∃ st',
    onStatusChange API_BASE_URL put movieId status st = Ok st'
    ∧ st_watchStates st' !! movieId = Some status
    ∧ (∀ k, k ≠ movieId → st_watchStates st' !! k = st_watchStates st !! k)
    ∧ (watchedCount (stats st')
       + (if decide (st_watchStates st !! movieId = Some watched) then 1 else 0)
       = watchedCount (stats st) + (if decide (status = watched) then 1 else 0))%nat
    ∧ (watchlistCount (stats st')
       + (if decide (st_watchStates st !! movieId = Some watchlist) then 1 else 0)
       = watchlistCount (stats st) + (if decide (status = watchlist) then 1 else 0))%nat
    ∧ avgRating (stats st') = avgRating (stats st)
    ∧ (st_error st' = st_error st ∨ st_error st' = Some "Could not save watch status.").
Proof.
  intros Hput.
  assert (∃ st', onStatusChange API_BASE_URL put movieId status st = Ok st'
                 ∧ st_watchStates st' = <[movieId := status]> (st_watchStates st)
                 ∧ st_ratings st' = st_ratings st
                 ∧ (st_error st' = st_error st
                    ∨ st_error st' = Some "Could not save watch status."))
    as (st' & -> & Hws & Hrs & Herr).
  { unfold onStatusChange. destruct (negb _ || negb _).
    - eexists. split; [done|]. split; [done|]. split; [done|]. by left.
    - destruct (put movieId status) as [[]| |]; try done.
      + eexists. split; [done|]. split; [done|]. split; [done|]. by left.
      + eexists. split; [done|]. split; [done|]. split; [done|]. by right. }
  exists st'. split; [done|]. rewrite Hws.
  split; [by rewrite lookup_insert_eq|].
  split; [intros k Hk; by rewrite lookup_insert_ne|].
  unfold stats. cbn [watchedCount watchlistCount avgRating]. rewrite Hws, Hrs.
  split; [apply (marked_insert watched)|]. split; [apply (marked_insert watchlist)|].
  done.
Qed.

Lemma round_half_even_le (a b K : Z) :
  (0 < b)%Z → (a ≤ K * b)%Z → (round_half_even a b ≤ K)%Z.
Proof.
  intros Hb Ha. unfold round_half_even.
  pose proof (Z.div_mod a b ltac:(lia)) as Hdiv.
  pose proof (Z.mod_pos_bound a b Hb) as Hmod.
  assert (a / b ≤ K)%Z as Hq by nia.
  assert (0 < a mod b → a / b + 1 ≤ K)%Z as Hup by nia.
  destruct (Z.compare_spec (2 * (a mod b)) b) as [Heq|Hlt|Hgt]; [|done|lia].
  destruct (Z.even (a / b)); lia.
Qed.

Lemma round_half_even_ge (a b K : Z) :
  (0 < b)%Z → (K * b ≤ a)%Z → (K ≤ round_half_even a b)%Z.
Proof.
  intros Hb Ha. unfold round_half_even.
  pose proof (Z.div_mod a b ltac:(lia)) as Hdiv.
  pose proof (Z.mod_pos_bound a b Hb) as Hmod.
  assert (K ≤ a / b)%Z as Hq by nia.
  destruct (2 * (a mod b) ?= b)%Z; [|done|lia].
  destruct (Z.even (a / b)); lia.
Qed.

Lemma binary64_eq (x y : Q) : (x == y)%Q → binary64 x = binary64 y.
Proof. intros Hxy. unfold binary64. by rewrite (Qred_complete x y Hxy). Qed.

Lemma binary64_pos_between (lo hi : Z) (n d : positive) :
  (1 ≤ lo)%Z → (hi < 2 ^ 53)%Z →
  (lo * Z.pos d ≤ Z.pos n)%Z → (Z.pos n ≤ hi * Z.pos d)%Z →
  (inject_Z lo <= binary64_pos n d ∧ binary64_pos n d <= inject_Z hi)%Q.
Proof.
  intros Hlo Hhi Hn_lo Hn_hi. unfold binary64_pos.
  assert (Z.pos d ≤ Z.pos n)%Z as Hdn by nia.
  unfold floor_log2. rewrite (proj2 (Z.leb_le _ _) Hdn).
  set (e := Z.log2 (Z.pos n / Z.pos d)).
  assert (1 ≤ Z.pos n / Z.pos d)%Z as Hq_lo.
  { apply Z.div_le_lower_bound; lia. }
  assert (Z.pos n / Z.pos d < 2 ^ 53)%Z as Hq_hi.
  { apply Z.div_lt_upper_bound; [lia|]. nia. }
  assert (0 ≤ e ≤ 52)%Z as He.
  { split; [apply Z.log2_nonneg|].
    assert (e < 53)%Z; [|lia]. apply Z.log2_lt_pow2; lia. }
  rewrite (Z.max_l (e - 52) (-1074)) by lia.
  rewrite (Z.max_l 0 (e - 52)) by lia.
  rewrite (Z.max_r 0 (- (e - 52))) by lia.
  set (k := (- (e - 52))%Z).
  assert (0 < 2 ^ k)%Z as Hk by (apply Z.pow_pos_nonneg; lia).
  rewrite Z.pow_0_r, !Z.mul_1_r.
  set (m := round_half_even (Z.pos n * 2 ^ k) (Z.pos d)).
  assert (lo * 2 ^ k ≤ m)%Z as Hm_lo.
  { apply round_half_even_ge; [lia|]. nia. }
  assert (m ≤ hi * 2 ^ k)%Z as Hm_hi.
  { apply round_half_even_le; [lia|]. nia. }
  rewrite Qred_correct. unfold Qle, inject_Z. cbn [Qnum Qden].
  rewrite Z2Pos.id by done. lia.
Qed.

Lemma binary64_between (lo hi : Z) (x : Q) :
  (1 ≤ lo)%Z → (hi < 2 ^ 53)%Z →
  (inject_Z lo <= x ∧ x <= inject_Z hi)%Q →
  (inject_Z lo <= binary64 x ∧ binary64 x <= inject_Z hi)%Q.
Proof.
  intros Hlo Hhi [Hx_lo Hx_hi]. unfold binary64.
  rewrite <- (Qred_correct x) in Hx_lo, Hx_hi.
  destruct (Qred x) as [[|n|n] d]; cbn [Qnum Qden].
  - unfold Qle, inject_Z in Hx_lo. cbn in Hx_lo. lia.
  - apply binary64_pos_between; try done.
    + unfold Qle, inject_Z in Hx_lo. cbn [Qnum Qden] in Hx_lo. lia.
    + unfold Qle, inject_Z in Hx_hi. cbn [Qnum Qden] in Hx_hi. lia.
  - unfold Qle, inject_Z in Hx_lo. cbn in Hx_lo. lia.
Qed.

Lemma binary64_whole (n : Z) :
  (1 ≤ n < 2 ^ 53)%Z → (binary64 (inject_Z n) == inject_Z n)%Q.
Proof.
  intros [Hlo Hhi].
  destruct (binary64_between n n (inject_Z n) Hlo Hhi) as [H1 H2]; [split; apply Qle_refl|].
  by apply Qle_antisym.
Qed.

Lemma sum_of_wholes (lo hi : Z) (l : list Q) (acc : Q) (a : Z) :
  (1 ≤ lo)%Z → (0 ≤ a)%Z → (acc == inject_Z a)%Q →
  (a + hi * Z.of_nat (length l) < 2 ^ 53)%Z →
  Forall (whole_between lo hi) l →
  ∃ s : Z,
    (foldl (λ a b, binary64 (a + b)) acc l == inject_Z s)%Q
    ∧ (a + lo * Z.of_nat (length l) ≤ s ≤ a + hi * Z.of_nat (length l))%Z.
Proof.
  intros Hlo. revert acc a. induction l as [|x l IH]; intros acc a Ha Hacc Hsum Hall.
  - exists a. cbn [foldl length]. split; [done|lia].
  - apply Forall_cons in Hall as [(n & Hx & Hn) Hall]. cbn [foldl].
    cbn [length] in Hsum. rewrite Nat2Z.inj_succ in Hsum.
    destruct (IH (binary64 (acc + x)) (a + n)%Z) as (s & Hs & Hbounds); try done.
    + lia.
    + rewrite (binary64_eq (acc + x) (inject_Z (a + n))).
      * apply binary64_whole. nia.
      * rewrite Hacc, Hx. by rewrite inject_Z_plus.
    + nia.
    + exists s. split; [done|]. cbn [length]. rewrite Nat2Z.inj_succ. nia.
Qed.

Lemma values_are_held {A} (P : A → Prop) (o : gmap Z A) :
  (∀ k v, o !! k = Some v → P v) → Forall P (Object_values o).
Proof.
  intros Hall. unfold Object_values. apply Forall_fmap, Forall_forall.
  intros [k v] Hin. rewrite merge_sort_Permutation in Hin.
  apply (Hall k). by apply elem_of_map_to_list.
Qed.

Lemma values_length {A} (o : gmap Z A) : length (Object_values o) = size o.
Proof.
  unfold Object_values. rewrite length_fmap, merge_sort_Permutation.
  by rewrite length_map_to_list.
Qed.

Lemma average_bounds (lo hi : Z) (rs : gmap Z Q) (st : AppState) :
  st_ratings st = rs → rs ≠ ∅ →
  (1 ≤ lo)%Z → (hi * Z.of_nat (size rs) < 2 ^ 53)%Z →
  (∀ k r, rs !! k = Some r → whole_between lo hi r) →
  (inject_Z lo <= avgRating (stats st) ∧ avgRating (stats st) <= inject_Z hi)%Q.
Proof.
  intros Hrs Hne Hlo Hhi Hall. unfold stats. cbn [avgRating]. rewrite Hrs.
  pose proof (values_are_held _ rs Hall) as Hvalues.
  pose proof (values_length rs) as Hlen.
  assert (0 < size rs)%nat as Hsize.
  { destruct (decide (size rs = 0)) as [Hz|]; [|lia]. by apply map_size_empty_inv in Hz. }
  destruct (sum_of_wholes lo hi (Object_values rs) 0%Q 0%Z) as (s & Hs & Hbounds);
    try done.
  { rewrite Hlen. lia. }
  rewrite Hlen in *.
  destruct (size rs) as [|n] eqn:Hn; [lia|]. cbn [Nat.eqb].
  assert (0 < inject_Z (Z.of_nat (S n)))%Q as Hpos.
  { rewrite <- (Zlt_Qlt 0). lia. }
  assert (hi < 2 ^ 53)%Z as Hhi' by nia.
  apply binary64_between; [done|done|]. rewrite Hs. split.
  - apply Qle_shift_div_l; [done|]. rewrite <- inject_Z_mult, <- Zle_Qle. lia.
  - apply Qle_shift_div_r; [done|]. rewrite <- inject_Z_mult, <- Zle_Qle. lia.
Qed.

(** X19.  [onRatingChange] records the rating locally whatever becomes of
    the request, and the average of [stats], computed in doubles, stays
    within the stars: when the ratings held and the new one are whole
    numbers between two bounds (1 and 5 for the stars of the rating
    strip), the lower bound at least 1 and the ratings few enough for
    their sum to stay below 2^53, the average afterwards lies between
    the bounds, the two counters being untouched.  With no rating at all
    the average is 0. *)
Theorem rating_change_keeps_the_average_in_range (API_BASE_URL : option string)
    (put : Z → Q → outcome unit) (movieId : Z) (rating : Q) (lo hi : Z)
    (st : AppState) :
  put movieId rating ≠ Exotic →
  (1 ≤ lo)%Z → (hi * Z.of_nat (S (size (st_ratings st))) < 2 ^ 53)%Z →
  (∀ k r, st_ratings st !! k = Some r → whole_between lo hi r) →
  whole_between lo hi rating →
  (st_ratings st = ∅ → avgRating (stats st) = 0%Q)
  ∧ ∃ st',
      onRatingChange API_BASE_URL put movieId rating st = Ok st'
      ∧ st_ratings st' !! movieId = Some rating
      ∧ (∀ k, k ≠ movieId → st_ratings st' !! k = st_ratings st !! k)
      ∧ (inject_Z lo <= avgRating (stats st') ∧ avgRating (stats st') <= inject_Z hi)%Q
      ∧ watchedCount (stats st') = watchedCount (stats st)
      ∧ watchlistCount (stats st') = watchlistCount (stats st).
Proof.
  intros Hput Hlo Hhi Hall Hrating. split.
  { intros Hnone. unfold stats. cbn [avgRating]. rewrite Hnone.
    by rewrite values_length, map_size_empty. }
  assert (∃ st', onRatingChange API_BASE_URL put movieId rating st = Ok st'
                 ∧ st_ratings st' = <[movieId := rating]> (st_ratings st)
                 ∧ st_watchStates st' = st_watchStates st)
    as (st' & -> & Hrs & Hws).
  { unfold onRatingChange. destruct (negb _ || negb _); [by eexists|].
    destruct (put movieId rating) as [[]| |]; try done; by eexists. }
  exists st'. split; [done|].
  split; [by rewrite Hrs, lookup_insert_eq|].
  split; [intros k Hk; by rewrite Hrs, lookup_insert_ne|].
  split; [|unfold stats; cbn [watchedCount watchlistCount]; by rewrite Hws].
  apply (average_bounds lo hi _ st' Hrs).
  - apply insert_non_empty.
  - done.
  - assert (size (<[movieId := rating]> (st_ratings st)) ≤ S (size (st_ratings st)))%nat.
    { destruct (st_ratings st !! movieId) eqn:Hm.
      - rewrite map_size_insert_Some by done. lia.
      - rewrite map_size_insert_None by done. lia. }
    destruct Hrating as (n & _ & Hn). nia.
  - intros k r. destruct (decide (k = movieId)) as [-> | Hk].
    + rewrite lookup_insert_eq. by intros [= <-].
    + rewrite lookup_insert_ne by done. apply Hall.
Qed.

End Statistics.

Section Client_reviews.
Context (rt : Runtime).

Lemma filter_none {A} (P : A → Prop) `{∀ x, Decision (P x)} (l : list A) :
  Forall (λ x, ¬ P x) l → filter P l = [].
Proof.
  induction 1 as [|x l Hx Hl IH]; [done|]. by rewrite filter_cons_False.
Qed.

Lemma filter_all {A} (P : A → Prop) `{∀ x, Decision (P x)} (l : list A) :
  Forall P l → filter P l = l.
Proof.
  induction 1 as [|x l Hx Hl IH]; [done|]. rewrite filter_cons_True by done. by f_equal.
Qed.

(** X20.  [mergeMovieReviews] with reviews that are all about the movie
    replaces the local reviews of that movie by them and keeps the
    reviews of every other movie, in their order; merging the same
    reviews again changes nothing, and merging an empty answer removes
    the local reviews of the movie.  Whatever is merged, the reviews of
    the movie afterwards are the incoming ones about it. *)
Theorem merge_replaces_the_reviews_of_a_movie (movieId : Z) (incoming : list UserReview)
    (st : AppState) :
  Forall (λ review, review_movieId review = movieId) incoming →
  let st' := mergeMovieReviews movieId incoming st in
  filter (λ review, review_movieId review = movieId) (st_reviews st') = incoming
  ∧ filter (λ review, review_movieId review ≠ movieId) (st_reviews st')
    = filter (λ review, review_movieId review ≠ movieId) (st_reviews st)
  ∧ mergeMovieReviews movieId incoming st' = st'
  ∧ (∀ review, review ∈ st_reviews (mergeMovieReviews movieId [] st) ↔
               review ∈ st_reviews st ∧ review_movieId review ≠ movieId)
  ∧ (∀ others,
       filter (λ review, review_movieId review = movieId)
         (st_reviews (mergeMovieReviews movieId others st))
       = filter (λ review, review_movieId review = movieId) others).
Proof.
  intros Hall st'. unfold st', mergeMovieReviews. cbn [st_reviews setReviews].
  assert (filter (λ review, review_movieId review = movieId)
            (filter (λ review, review_movieId review ≠ movieId) (st_reviews st)) = [])
    as Hnone.
  { apply filter_none, Forall_forall. intros r Hr%list_elem_of_filter. by destruct Hr. }
  assert (filter (λ review, review_movieId review ≠ movieId)
            (filter (λ review, review_movieId review ≠ movieId) (st_reviews st))
          = filter (λ review, review_movieId review ≠ movieId) (st_reviews st))
    as Hsame.
  { apply filter_all, Forall_forall. intros r Hr%list_elem_of_filter. by destruct Hr. }
  assert (filter (λ review, review_movieId review ≠ movieId) incoming = []) as Hinc.
  { apply filter_none. eapply Forall_impl; [exact Hall|]. intros r Hr Hne. done. }
  rewrite !filter_app, Hnone, Hsame, Hinc, app_nil_r, (filter_all _ incoming Hall).
  split; [done|]. split; [done|]. split; [|split].
  - unfold setReviews. cbn [st_currentUser st_movies st_recommendations st_genres
      st_feed st_selectedGenre st_query st_searchInput st_loading st_error
      st_activeMovie st_watchStates st_ratings st_reviews st_reviewDraft].
    by rewrite filter_app, Hinc, Hsame.
  - intros review. cbn [app]. rewrite list_elem_of_filter. tauto.
  - intros others. by rewrite filter_app, Hnone, app_nil_r.
Qed.

Lemma array_sort_pure {A} (c : A → A → num) (l : list A) :
  ∃ l', array_sort (λ a b, Ok (c a b)) l = Ok l' ∧ l' ≡ₚ l.
Proof.
  assert (∀ x s, ∃ s', insertM (λ a b, Ok (c a b)) x s = Ok s' ∧ s' ≡ₚ x :: s) as Hins.
  { intros x s. induction s as [|y s IH]; [by exists [x]|].
    cbn. destruct (num_positive (c x y)); [|by eexists].
    destruct IH as (s' & -> & Hperm). exists (y :: s'). split; [done|].
    by rewrite Hperm, Permutation_swap. }
  induction l as [|x l IH]; [by exists []|].
  destruct IH as (s & Hs & Hperm). cbn [array_sort]. rewrite Hs. cbn.
  destruct (Hins x s) as (s' & -> & Hperm'). exists s'. split; [done|].
  by rewrite Hperm', Hperm.
Qed.

(** The reviews shown for the active movie: all the local reviews of the
    movie and no other. *)
Lemma active_reviews_shown st movie :
  st_activeMovie st = Some movie →
  ∃ shown, activeMovieReviews rt st = Ok shown
    ∧ shown ≡ₚ filter (λ review, review_movieId review = movie_id movie) (st_reviews st)
    ∧ Forall (λ review, review_movieId review = movie_id movie) shown.
Proof.
  intros Hactive. unfold activeMovieReviews. rewrite Hactive.
  destruct (array_sort_pure
              (λ a b, num_sub (DateMs rt (Some (JStr (review_createdAt b))))
                              (DateMs rt (Some (JStr (review_createdAt a)))))
              (filter (λ review, review_movieId review = movie_id movie) (st_reviews st)))
    as (shown & Hsort & Hperm).
  exists shown. split; [done|]. split; [done|].
  rewrite Hperm. apply Forall_forall. intros r Hr%list_elem_of_filter. by destruct Hr.
Qed.

(** X21.  [activeMovieReviews] shows, for the active movie, every local
    review of that movie once and no review of another movie, whatever
    their dates; when the dates of those reviews all parse they are shown
    the newest first.  Without an active movie it shows nothing. *)
Theorem active_reviews_newest_first (st : AppState) (movie : Movie) :
  st_activeMovie st = Some movie →
  (∃ shown,
     activeMovieReviews rt st = Ok shown
     ∧ shown ≡ₚ filter (λ review, review_movieId review = movie_id movie) (st_reviews st)
     ∧ ((∀ review, review ∈ st_reviews st → review_movieId review = movie_id movie →
           ∃ t, DateMs rt (Some (JStr (review_createdAt review))) = Fin t) →
        StronglySorted (newest_first (review_time rt)) shown))
  ∧ (∀ st0, st_activeMovie st0 = None → activeMovieReviews rt st0 = Ok []).
Proof.
  intros Hactive. split; [|intros st0 Hnone; unfold activeMovieReviews; by rewrite Hnone].
  destruct (active_reviews_shown st movie Hactive) as (shown & Hshown & Hperm & Hall).
  exists shown. split; [done|]. split; [done|]. intros Hdates.
  unfold activeMovieReviews in Hshown. rewrite Hactive in Hshown.
  destruct (array_sort_sorted
              (λ a b, Ok (num_sub (DateMs rt (Some (JStr (review_createdAt b))))
                                  (DateMs rt (Some (JStr (review_createdAt a))))))
              (review_time rt)
              (filter (λ review, review_movieId review = movie_id movie) (st_reviews st)))
    as (sorted & Hsort & _ & Hsorted).
  - intros x y [Hx Hx']%list_elem_of_filter [Hy Hy']%list_elem_of_filter.
    destruct (Hdates x Hx' Hx) as [tx Htx]. destruct (Hdates y Hy' Hy) as [ty Hty].
    unfold review_time. by rewrite Htx, Hty.
  - rewrite Hshown in Hsort. by injection Hsort as ->.
Qed.

End Client_reviews.

Section Submitting.
Context (rt : Runtime) (API_BASE_URL : option string) (now created : Z).
Context (post : Z → string → option Q → outcome (option UserReview)).

(** X22.  In a guest session (not signed in, or without an API) a review
    with a draft that is not blank is kept locally and nothing is sent:
    the result does not depend on the server.  The review carries the
    trimmed draft, the name of the profile ([Guest Viewer] without a
    user) and the local rating of the movie; it is put in front of the
    reviews shown for the movie, the reviews of other movies are kept,
    the draft is emptied, and the reviews shown afterwards are the new
    one and those shown before. *)
Theorem guest_review_stays_local (st : AppState) (movie : Movie) :
  st_activeMovie st = Some movie →
  trim rt (st_reviewDraft st) ≠ "" →
  publishes API_BASE_URL st = false →
  ∃ shown guest st',
    activeMovieReviews rt st = Ok shown
    ∧ onReviewSubmit rt API_BASE_URL now created post st = Ok st'
    ∧ st_reviews st'
      = (guest :: shown
         ++ filter (λ review, review_movieId review ≠ movie_id movie) (st_reviews st))%list
    ∧ review_movieId guest = movie_id movie
    ∧ review_content guest = trim rt (st_reviewDraft st)
    ∧ review_author guest = profile_displayName st
    ∧ review_rating guest = st_ratings st !! movie_id movie
    ∧ (st_currentUser st = None → review_author guest = "Guest Viewer")
    ∧ st_reviewDraft st' = ""
    ∧ st_error st' = st_error st
    ∧ (∃ shown', activeMovieReviews rt st' = Ok shown' ∧ shown' ≡ₚ guest :: shown)
    ∧ ∀ post', onReviewSubmit rt API_BASE_URL now created post' st = Ok st'.
Proof.
  intros Hactive Hdraft Hguest.
  destruct (active_reviews_shown rt st movie Hactive) as (shown & Hshown & Hperm & Hall).
  apply String.eqb_neq in Hdraft.
  assert (negb (isSignedIn st) || negb (truthy API_BASE_URL) = true) as Hpath.
  { unfold publishes in Hguest. by destruct (isSignedIn st), (truthy API_BASE_URL). }
  exists shown. eexists. eexists. split; [done|].
  unfold onReviewSubmit. rewrite Hshown. cbn [mbind outcome_bind].
  rewrite Hactive, Hdraft, Hpath.
  split; [reflexivity|]. cbn [st_reviews setReviewDraft mergeMovieReviews setReviews
    review_movieId review_content review_author review_rating st_reviewDraft st_error].
  split; [done|]. split; [done|]. split; [done|]. split; [done|]. split; [done|].
  split; [unfold profile_displayName; by intros ->|].
  split; [done|]. split; [done|]. split; [|done].
  match goal with |- ∃ _, activeMovieReviews rt ?s = _ ∧ _ =>
    destruct (active_reviews_shown rt s movie Hactive) as (shown' & Hshown' & Hperm' & _)
  end.
  exists shown'. split; [done|]. rewrite Hperm'.
  cbn [st_reviews setReviewDraft mergeMovieReviews setReviews].
  rewrite filter_app, filter_cons_True by done.
  rewrite (filter_all _ shown Hall).
  rewrite filter_none; [by rewrite app_nil_r|].
  apply Forall_forall. intros r Hr%list_elem_of_filter. by destruct Hr.
Qed.

(** X23.  In a session that publishes, a review with a draft that is not
    blank is sent with the trimmed draft and the local rating of the
    movie.  When the request fails or is answered with an error, the
    reviews and the draft stay as they were and the error message is set;
    when it is accepted, the review of the answer is put in front of the
    reviews shown for the movie and the draft is emptied.  With no active
    movie or a blank draft, submitting changes nothing in any session. *)
Theorem refused_review_keeps_the_draft (st : AppState) (movie : Movie) :
  st_activeMovie st = Some movie →
  trim rt (st_reviewDraft st) ≠ "" →
  publishes API_BASE_URL st = true →
  let answer := post (movie_id movie) (trim rt (st_reviewDraft st))
                     (st_ratings st !! movie_id movie) in
  (answer = Throw ∨ answer = Ok None →
   ∃ st', onReviewSubmit rt API_BASE_URL now created post st = Ok st'
          ∧ st_reviews st' = st_reviews st
          ∧ st_reviewDraft st' = st_reviewDraft st
          ∧ st_error st' = Some "Could not publish review.")
  ∧ (∀ review, answer = Ok (Some review) →
     ∃ shown st', activeMovieReviews rt st = Ok shown
          ∧ onReviewSubmit rt API_BASE_URL now created post st = Ok st'
          ∧ st_reviews st'
            = (review :: shown
               ++ filter (λ r, review_movieId r ≠ movie_id movie) (st_reviews st))%list
          ∧ st_reviewDraft st' = ""
          ∧ st_error st' = st_error st)
  ∧ (∀ st0, st_activeMovie st0 = None ∨ trim rt (st_reviewDraft st0) = "" →
       onReviewSubmit rt API_BASE_URL now created post st0 = Ok st0).
Proof.
  intros Hactive Hdraft Hpub answer. split; [|split].
  - destruct (active_reviews_shown rt st movie Hactive) as (shown & Hshown & _).
    apply String.eqb_neq in Hdraft.
    assert (negb (isSignedIn st) || negb (truthy API_BASE_URL) = false) as Hpath.
    { unfold publishes in Hpub. by destruct (isSignedIn st), (truthy API_BASE_URL). }
    unfold onReviewSubmit. rewrite Hshown. cbn [mbind outcome_bind].
    rewrite Hactive, Hdraft, Hpath. fold answer.
    intros [-> | ->]; by eexists.
  - destruct (active_reviews_shown rt st movie Hactive) as (shown & Hshown & _).
    apply String.eqb_neq in Hdraft.
    assert (negb (isSignedIn st) || negb (truthy API_BASE_URL) = false) as Hpath.
    { unfold publishes in Hpub. by destruct (isSignedIn st), (truthy API_BASE_URL). }
    unfold onReviewSubmit. rewrite Hshown. cbn [mbind outcome_bind].
    rewrite Hactive, Hdraft, Hpath. fold answer.
    intros review ->. by exists shown; eexists.
  - intros st0 Hno. unfold onReviewSubmit.
    destruct (st_activeMovie st0) as [movie0|] eqn:Hactive0.
    + destruct Hno as [? | Hblank]; [done|].
      destruct (active_reviews_shown rt st0 movie0 Hactive0) as (shown & -> & _).
      cbn [mbind outcome_bind]. by rewrite Hblank.
    + unfold activeMovieReviews. by rewrite Hactive0.
Qed.

End Submitting.

Section Loading.
Context (rt : Runtime) (env : Env).

(** X24.  [loadGenres] never empties the genre list: the list afterwards
    is the one before, the sample genres, or a list of the catalog that
    is not empty.  Without credentials and after a failed request it is
    the sample genres; an answer without genres leaves the state as it
    is. *)
Theorem genres_are_never_emptied (catalog : outcome (option (list Genre)))
    (st : AppState) :
  catalog ≠ Exotic →
  ∃ st',
    loadGenres env catalog st = Ok st'
    ∧ (st_genres st ≠ [] → st_genres st' ≠ [])
    ∧ (st_genres st' = st_genres st ∨ st_genres st' = fallbackGenres
       ∨ catalog = Ok (Some (st_genres st')))
    ∧ (credentials env = false → st_genres st' = fallbackGenres)
    ∧ (credentials env = true → catalog = Throw → st_genres st' = fallbackGenres)
    ∧ (credentials env = true → (catalog = Ok None ∨ catalog = Ok (Some [])) →
       st' = st).
Proof.
  intros Hfollowed. unfold loadGenres, fetchTmdb_at, credentials.
  destruct (truthy (TMDB_API_KEY env)), (truthy (TMDB_READ_ACCESS_TOKEN env));
    cbn [negb andb orb].
  4: { eexists. split; [done|]. cbn [st_genres setGenres]. repeat split; try done.
       by right; left. }
  all: destruct catalog as [[[|g gs]|]| |]; try done; cbn;
    eexists; (split; [reflexivity|]); cbn [st_genres setGenres];
    repeat split; try done; try (intros _ [? | ?]; done); eauto.
Qed.

Context (catalog : string → list (string * json) → outcome (option (list Movie))).

Lemma credentials_false :
  credentials env = false →
  negb (truthy (TMDB_API_KEY env)) && negb (truthy (TMDB_READ_ACCESS_TOKEN env)) = true.
Proof. unfold credentials. by destruct (truthy _), (truthy _). Qed.

Lemma credentials_true {A} (response : outcome A) :
  credentials env = true →
  negb (truthy (TMDB_API_KEY env)) && negb (truthy (TMDB_READ_ACCESS_TOKEN env)) = false
  ∧ fetchTmdb_at env response = response.
Proof. unfold credentials, fetchTmdb_at. by destruct (truthy _), (truthy _). Qed.

Lemma or_first_fallback_some current : is_Some (or_first_fallback current).
Proof. destruct current; by eexists. Qed.

(** X25.  [loadMovies] always settles: whatever the catalog answers, it
    ends with [loading] off, at most 24 movies, an active movie whenever
    there is a movie to show, and an error message only beside an empty
    result or the sample movies; the watch states, the ratings, the
    reviews, the query and the feed are left alone. *)
Theorem movies_load_settles (st : AppState) :
  (∀ path params, catalog path params ≠ Exotic) →
  ∃ st',
    loadMovies rt env catalog st = Ok st'
    ∧ st_loading st' = false
    ∧ (length (st_movies st') ≤ 24)%nat
    ∧ (st_movies st' ≠ [] → is_Some (st_activeMovie st'))
    ∧ (st_error st' = None ∨ st_movies st' = [] ∨ st_movies st' = fallbackMovies)
    ∧ st_watchStates st' = st_watchStates st
    ∧ st_ratings st' = st_ratings st
    ∧ st_reviews st' = st_reviews st
    ∧ st_query st' = st_query st
    ∧ st_feed st' = st_feed st.
Proof.
  intros Hfollowed. unfold loadMovies.
  destruct (credentials env) eqn:Hcred.
  - destruct (credentials_true (@Throw unit) Hcred) as [-> _].
    set (request := if truthy (Some (trim rt (st_query st))) then _ else _).
    destruct request as [path params].
    destruct (credentials_true (catalog path params) Hcred) as [_ ->].
    specialize (Hfollowed path params).
    destruct (catalog path params) as [results| |]; [| |done].
    + cbn [mbind outcome_bind try_catch].
      assert (length (take 24 (default [] results)) ≤ 24)%nat as Hlen.
      { rewrite length_take. lia. }
      destruct (truthy (Some (trim rt (st_query st)))
                && (length (take 24 (default [] results)) =? 0)%nat) eqn:Hnone.
      * eexists. split; [reflexivity|].
        cbn [st_loading st_movies st_activeMovie st_error st_watchStates st_ratings
             st_reviews st_query st_feed setLoading setError setMovies setActiveMovie].
        apply andb_true_iff in Hnone as [_ Hnone%Nat.eqb_eq].
        repeat split; try done.
        -- by destruct (take 24 (default [] results)).
        -- right; left. by destruct (take 24 (default [] results)).
      * eexists. split; [reflexivity|].
        cbn [st_loading st_movies st_activeMovie st_error st_watchStates st_ratings
             st_reviews st_query st_feed setLoading setError setMovies setActiveMovie].
        repeat split; try done.
        -- by destruct (take 24 (default [] results)).
        -- by left.
    + cbn [mbind outcome_bind try_catch]. eexists. split; [reflexivity|].
      cbn [st_loading st_movies st_activeMovie st_error st_watchStates st_ratings
           st_reviews st_query st_feed setLoading setError setMovies setActiveMovie].
      repeat split; try done.
      * cbn. lia.
      * intros _. apply or_first_fallback_some.
      * by right; right.
  - rewrite (credentials_false Hcred). eexists. split; [reflexivity|].
    cbn [st_loading st_movies st_activeMovie st_error st_watchStates st_ratings
         st_reviews st_query st_feed setLoading setError setMovies setActiveMovie
         setRecommendations].
    repeat split; try done.
    + cbn. lia.
    + intros _. apply or_first_fallback_some.
    + by left.
Qed.

(** X26.  Without credentials, or when every catalog request fails,
    [loadMovies] shows the three sample movies and keeps the active movie
    if there is one, taking the first sample movie otherwise.  Without
    credentials no request is made, no error is shown and the
    recommendations are the first two sample movies; after a failure the
    offline message is shown and the recommendations are left alone. *)
Theorem sample_movies_stand_in (st : AppState) :
  credentials env = false ∨ (∀ path params, catalog path params = Throw) →
  ∃ st',
    loadMovies rt env catalog st = Ok st'
    ∧ st_movies st' = fallbackMovies
    ∧ length (st_movies st') = 3%nat
    ∧ (∀ movie, st_activeMovie st = Some movie → st_activeMovie st' = Some movie)
    ∧ (st_activeMovie st = None → st_activeMovie st' = head fallbackMovies)
    ∧ (credentials env = false →
       st_error st' = None
       ∧ st_recommendations st' = take 2 fallbackMovies
       ∧ ∀ catalog', loadMovies rt env catalog' st = Ok st')
    ∧ (credentials env = true →
       st_error st'
       = Some "Could not load movies right now. Showing offline sample data."
       ∧ st_recommendations st' = st_recommendations st).
Proof.
  intros Hcase. unfold loadMovies.
  destruct (credentials env) eqn:Hcred.
  - destruct Hcase as [? | Hfail]; [done|].
    destruct (credentials_true (@Throw unit) Hcred) as [-> _].
    set (request := if truthy (Some (trim rt (st_query st))) then _ else _).
    destruct request as [path params].
    destruct (credentials_true (catalog path params) Hcred) as [_ ->].
    rewrite Hfail. cbn [mbind outcome_bind try_catch].
    eexists. split; [reflexivity|].
    cbn [st_movies st_activeMovie st_error st_recommendations setLoading setError
         setMovies setActiveMovie].
    repeat split; try done.
    + by intros movie ->.
    + by intros ->.
  - rewrite (credentials_false Hcred). eexists. split; [reflexivity|].
    cbn [st_movies st_activeMovie st_error st_recommendations setLoading setError
         setMovies setActiveMovie setRecommendations].
    repeat split; try done.
    + by intros movie ->.
    + by intros ->.
Qed.

(** X27.  A query that is not blank takes precedence over the feed: with
    credentials, [loadMovies] asks [/search/movie] for the trimmed query
    and page 1, whatever the feed and the genre selected, and shows the
    first 24 results with the first of them active.  When the search
    finds nothing, no movie is shown or active and the error names the
    trimmed query between double quotes. *)
Theorem search_takes_precedence (st : AppState) (results : option (list Movie)) :
  credentials env = true →
  trim rt (st_query st) ≠ "" →
  catalog "/search/movie" (search_params (trim rt (st_query st))) = Ok results →
  ∃ st',
    loadMovies rt env catalog st = Ok st'
    ∧ st_movies st' = take 24 (default [] results)
    ∧ st_activeMovie st' = head (st_movies st')
    ∧ (st_movies st' ≠ [] → st_error st' = None)
    ∧ (st_movies st' = [] →
       st_error st' = Some ("No results found for " +:+ dquote
                            +:+ trim rt (st_query st) +:+ dquote +:+ "."))
    ∧ st_loading st' = false.
Proof.
  intros Hcred Hquery Hfound. unfold loadMovies.
  destruct (credentials_true (@Throw unit) Hcred) as [-> _].
  assert (truthy (Some (trim rt (st_query st))) = true) as ->.
  { by destruct (trim rt (st_query st)). }
  destruct (credentials_true
              (catalog "/search/movie" (search_params (trim rt (st_query st)))) Hcred)
    as [_ Hfetch].
  unfold search_params in Hfetch, Hfound. rewrite Hfetch, Hfound.
  cbn [mbind outcome_bind try_catch andb].
  destruct (take 24 (default [] results)) as [|movie l] eqn:Hnext.
  - eexists. split; [reflexivity|]. repeat split; try done.
  - eexists. split; [reflexivity|]. repeat split; try done.
Qed.

End Loading.

Section More_recommendations.
Context (env : Env) (discover : list N → outcome (option (list Movie))).
Context (movies : list Movie).
Context (watchStates : gmap Z WatchState) (ratings : gmap Z Q).

Lemma take_filter_complete {A} (P : A → Prop) `{∀ x, Decision (P x)} (n : nat)
    (l : list A) (x : A) :
  x ∈ l → P x → x ∈ take n (filter P l) ∨ length (take n (filter P l)) = n.
Proof.
  intros Hin HP.
  destruct (decide (length (filter P l) ≤ n)%nat) as [Hle | Hgt].
  - left. rewrite take_ge by done. apply list_elem_of_filter. by split.
  - right. rewrite length_take. lia.
Qed.

(** X28.  With credentials and a ranked genre, when the catalog answers,
    the recommendations are drawn in order from its results, at most
    eight, and none of them has a watch state, not even [watchlist]; an
    untracked result is left out only when eight are recommended, and an
    answer without results recommends nothing. *)
Theorem recommendations_leave_out_tracked_movies (ranked : list N)
    (results : option (list Movie)) :
  rankedGenres movies watchStates ratings = Ok ranked →
  credentials env = true → ranked ≠ [] →
  discover ranked = Ok results →
  ∃ recs,
    loadRecommendations env discover movies watchStates ratings = Ok recs
    ∧ (length recs ≤ 8)%nat
    ∧ recs `sublist_of` default [] results
    ∧ (∀ movie, movie ∈ recs → watchStates !! movie_id movie = None)
    ∧ (∀ movie, movie ∈ default [] results → watchStates !! movie_id movie = None →
         movie ∈ recs ∨ length recs = 8%nat)
    ∧ (results = None → recs = []).
Proof.
  intros Hranked Hcred Hne Hfound. unfold loadRecommendations. rewrite Hranked.
  cbn [mbind outcome_bind]. unfold credentials in Hcred.
  assert ((length ranked =? 0)%nat = false) as ->.
  { apply Nat.eqb_neq. by destruct ranked. }
  rewrite orb_false_r.
  assert (negb (truthy (TMDB_API_KEY env)) && negb (truthy (TMDB_READ_ACCESS_TOKEN env))
          = false) as ->.
  { by destruct (truthy (TMDB_API_KEY env)), (truthy (TMDB_READ_ACCESS_TOKEN env)). }
  assert (fetchTmdb env discover ranked = Ok results) as ->.
  { unfold fetchTmdb. rewrite Hfound.
    by destruct (truthy (TMDB_API_KEY env)), (truthy (TMDB_READ_ACCESS_TOKEN env)). }
  cbn [mbind outcome_bind try_catch]. eexists. split; [reflexivity|].
  split; [rewrite length_take; lia|].
  split; [etrans; [apply sublist_take|apply sublist_filter]|].
  split; [intros movie Hin%subseteq_take%list_elem_of_filter; by destruct Hin|].
  split; [intros movie Hin Hnone; by apply take_filter_complete|].
  by intros ->.
Qed.

(** X29.  Without credentials the recommendations never involve the
    catalog: they are the same whatever it would answer, drawn in order
    from the browse set, at most eight, each untracked or on the
    watchlist; such a movie of the browse set is left out only when eight
    are recommended. *)
Theorem offline_recommendations_come_from_the_browse_set
    (discover' : list N → outcome (option (list Movie))) :
  credentials env = false →
  ∃ recs,
    loadRecommendations env discover movies watchStates ratings = Ok recs
    ∧ loadRecommendations env discover' movies watchStates ratings = Ok recs
    ∧ (length recs ≤ 8)%nat
    ∧ recs `sublist_of` movies
    ∧ (∀ movie, movie ∈ recs →
         watchStates !! movie_id movie = None
         ∨ watchStates !! movie_id movie = Some watchlist)
    ∧ (∀ movie, movie ∈ movies →
         watchStates !! movie_id movie = None
         ∨ watchStates !! movie_id movie = Some watchlist →
         movie ∈ recs ∨ length recs = 8%nat).
Proof.
  intros Hcred.
  destruct (ranking movies watchStates ratings) as (ranked & Hranked & _).
  rewrite (fallback_is_filtered env discover movies watchStates ratings ranked Hranked)
    by by left.
  rewrite (fallback_is_filtered env discover' movies watchStates ratings ranked Hranked)
    by by left.
  eexists. split; [reflexivity|]. split; [reflexivity|].
  split; [rewrite length_take; lia|].
  split; [etrans; [apply sublist_take|apply sublist_filter]|].
  split; [intros movie Hin%subseteq_take%list_elem_of_filter; by destruct Hin|].
  intros movie Hin Hnone. by apply take_filter_complete.
Qed.

End More_recommendations.

(** * The properties on the sample data *)

Lemma unauthenticated_is_rejected_witness :
  let req := {| req_user := None;
                req_body := Some (JObj {["movieId" := JNum 90001; "rating" := JNum 5]});
                req_params_movieId := "" |} in
  put_status sample_runtime req None = (Ok (error_reply 401 "Unauthorized"), None)
  ∧ put_rating sample_runtime req None = (Ok (error_reply 401 "Unauthorized"), None)
  ∧ post_reviews sample_runtime 0 0 req None = (Ok (error_reply 401 "Unauthorized"), None)
  ∧ status (error_reply 401 "Unauthorized") = 401.
Proof.
  intros req. apply (unauthenticated_is_rejected sample_runtime 0 0 req None).
  reflexivity.
Defined.

Lemma readStore_total_witness :
  ∃ s, readStore None = (Ok s, Some (ensured None))
    ∧ s = empty_store
    ∧ ensured None = JSON_stringify (store_json empty_store)
    ∧ is_mapping (users s) ∧ is_list (reviews s).
Proof.
  destruct (readStore_total None)
    as (s & Hrun & Hmissing & _ & _ & _ & _ & _ & Husers & Hreviews).
  exists s. split; [exact Hrun|].
  destruct (Hmissing eq_refl) as [Hs He]. split; [exact Hs|]. split; [exact He|].
  split; [apply Husers | apply Hreviews]; intros v Hv; vm_compute in Hv;
    injection Hv as <-; right; eexists; reflexivity.
Defined.

Lemma six_stars_not_accepted : ¬ rating_accepted (body_field put_six_stars "rating").
Proof. intros H. apply rating_rejected_spec in H. vm_compute in H. discriminate H. Qed.

Lemma invalid_rating_is_rejected_witness :
  put_rating sample_runtime put_six_stars None = (Ok (error_reply 400 "Invalid rating"), None)
  ∧ status (error_reply 400 "Invalid rating") = 400.
Proof.
  apply (invalid_rating_is_rejected sample_runtime put_six_stars alice 90001 None).
  - reflexivity.
  - reflexivity.
  - exact six_stars_not_accepted.
Defined.

Lemma watched_is_accepted : status_accepted (body_field put_watched "status").
Proof. right. exists "watched". split; [reflexivity | by left]. Qed.

Lemma five_stars_accepted : rating_accepted (body_field put_five_stars "rating").
Proof. right. exists 5%Q, 5%Z. split; [reflexivity|]. split; [reflexivity | lia]. Qed.

Lemma empty_disk_users_ok : users_ok None.
Proof. unfold users_ok. simpl. apply map_Forall_empty. Qed.

Lemma status_then_user_data_witness :
  ∃ r1 d1 ws rs d2,
    put_status sample_runtime put_watched None = (Ok r1, d1) ∧ status r1 = 200
    ∧ get_user_data put_watched d1 =
        (Ok (res_json 200 [("watchStates", Some (JObj ws)); ("ratings", Some rs)]), d2)
    ∧ (∀ s, body_field put_watched "status" = Some (JStr s) →
            ws !! ToString sample_runtime 90001 = Some (JStr s))
    ∧ (body_field put_watched "status" = Some JNull →
       ws !! ToString sample_runtime 90001 = None).
Proof.
  apply (status_then_user_data sample_runtime put_watched put_watched alice 90001 None).
  - reflexivity.
  - reflexivity.
  - exact watched_is_accepted.
  - exact (users_ok_caller None (id alice) empty_disk_users_ok).
  - reflexivity.
Defined.

Lemma alice_fits_her_disk : caller_ok disk_with_alice (id alice).
Proof. vm_compute. by split. Qed.

Lemma put_changes_one_entry_witness :
  ∃ r d',
    put_rating sample_runtime put_five_stars disk_with_alice = (Ok r, d')
    ∧ status r = 200
    ∧ only_entry_written disk_with_alice d' alice "ratings" (ToString sample_runtime 90001)
    ∧ user_at d' (id alice)
      = Some (object_literal [("watchStates", Some (JObj {["90001" := JStr "watched"]}));
                              ("ratings", Some (JObj {["90001" := JNum 5]}));
                              ("profile", Some (user_json alice))]).
Proof.
  destruct (put_changes_one_entry sample_runtime put_five_stars alice 90001 disk_with_alice)
    as [Hrating _].
  - reflexivity.
  - reflexivity.
  - exact alice_fits_her_disk.
  - destruct (Hrating five_stars_accepted) as (r & d' & Hrun & Hstatus & Hframe).
    exists r, d'. split; [exact Hrun|]. split; [exact Hstatus|]. split; [exact Hframe|].
    vm_compute in Hrun. injection Hrun as _ <-. reflexivity.
Defined.

(** C10, as the claim has it, fails for a user who has no record yet: the
    first [PUT /api/rating] of Alice on a missing file stores, beside the
    rating, the watch states and the profile of a record that the store
    did not hold. *)
Lemma first_put_writes_a_whole_record :
  ∃ r d' rec,
    put_rating sample_runtime put_five_stars None = (Ok r, d')
    ∧ status r = 200
    ∧ user_at None (id alice) = None
    ∧ user_at d' (id alice) = Some (JObj rec)
    ∧ rec !! "watchStates" = Some (JObj ∅)
    ∧ rec !! "profile" = Some (user_json alice)
    ∧ rec !! "ratings" = Some (JObj {["90001" := JNum 5]}).
Proof.
  destruct (put_rating sample_runtime put_five_stars None) as [o d'] eqn:Hrun.
  vm_compute in Hrun. injection Hrun as <- <-.
  eexists _, _, _. split; [reflexivity|]. split; [reflexivity|]. split; [reflexivity|].
  split; [reflexivity|]. split; [reflexivity|]. split; reflexivity.
Qed.

Lemma empty_disk_store_ok : store_ok None.
Proof. split; [exact empty_disk_users_ok | by eexists]. Qed.

Lemma one_record_per_user_witness :
  let calls := [(Me, put_watched); (PutStatus, put_watched); (PutRating, put_six_stars)] in
  ∃ d rec,
    run sample_runtime calls None = Some d
    ∧ store_ok d ∧ records_under d (id alice) = 1
    ∧ user_at d (id alice) = Some (JObj rec)
    ∧ user_at (get_me put_watched None).2 (id alice) = Some (fresh_record alice).
Proof.
  intros calls.
  destruct (one_record_per_user sample_runtime [] [(PutStatus, put_watched);
              (PutRating, put_six_stars)] Me put_watched alice None)
    as (d1 & d3 & Hrun1 & Hrun & _ & _ & _ & _ & Hfresh & _ & _ & Hok & Hone
        & [rec3 Hrec3] & _).
  - exact empty_disk_store_ok.
  - reflexivity.
  - exact I.
  - injection Hrun1 as <-. exists d3, rec3. split; [exact Hrun|].
    split; [exact Hok|]. split; [exact Hone|]. split; [exact Hrec3|].
    apply Hfresh. reflexivity.
Defined.

(** C9, as the claim has it, fails when two calls overlap: [GET /api/me]
    of Alice and of Bob both read the missing store before either
    writes, both are answered 200, and the store written last holds the
    record of Bob and none for Alice. *)
Lemma overlapping_calls_lose_a_record :
  ∃ d,
    overlapped (me_after_read alice) (me_after_read bob) None
      = (Ok (res_json 200 [("user", Some (user_json alice))],
             res_json 200 [("user", Some (user_json bob))]), d)
    ∧ records_under d (id alice) = 0
    ∧ user_at d (id alice) = None
    ∧ user_at d (id bob) = Some (fresh_record bob).
Proof.
  destruct (overlapped (me_after_read alice) (me_after_read bob) None) as [o d] eqn:Hrun.
  vm_compute in Hrun. injection Hrun as <- <-.
  eexists. split; [reflexivity|]. split; [reflexivity|]. split; reflexivity.
Qed.

Lemma three_reviews_no_null : JNull ∉ three_reviews.
Proof.
  intros H. repeat (apply elem_of_cons in H as [H|H]; [discriminate H|]).
  by apply elem_of_nil in H.
Qed.

Lemma three_reviews_dated (n : num) (r : json) :
  r ∈ three_reviews → about_movie n r = true → has_date sample_runtime r.
Proof.
  intros H _. repeat (apply elem_of_cons in H as [->|H]; [eexists; reflexivity|]).
  by apply elem_of_nil in H.
Qed.

Lemma reviews_newest_first_witness :
  ∃ out d',
    get_reviews sample_runtime get_reviews_90002 disk_with_reviews
      = (Ok (res_json 200 [("reviews", Some (JArr out))]), d')
    ∧ out ≡ₚ [review_at 90002 "1000" "first"; review_at 90002 "2000" "second"]
    ∧ StronglySorted (newest_first (time_of sample_runtime)) out.
Proof.
  destruct (reviews_newest_first sample_runtime get_reviews_90002 disk_with_reviews
              three_reviews)
    as (out & d' & Hrun & Hperm & _ & Hsorted & _).
  - reflexivity.
  - exact three_reviews_no_null.
  - exact (three_reviews_dated _).
  - exists out, d'. split; [exact Hrun|]. split; [exact Hperm | exact Hsorted].
Defined.

Lemma great_film_trims : trim sample_runtime " Great film " ≠ "".
Proof. discriminate. Qed.

Lemma great_film_rating : rating_accepted (body_field post_great_film "rating").
Proof. right. exists 4%Q, 4%Z. split; [reflexivity|]. split; [reflexivity | lia]. Qed.

Lemma review_is_stored_first_witness :
  ∃ rec d',
    post_reviews sample_runtime 1767225600000 1767225600000 post_great_film
        disk_with_reviews
      = (Ok (res_json 201 [("review", Some (JObj rec))]), d')
    ∧ rec !! "author" = Some (JStr "Alice")
    ∧ rec !! "content" = Some (JStr "Great film")
    ∧ rec !! "createdAt" = Some (JStr "2026-01-01T00:00:00.000Z")
    ∧ ∃ rest d'',
        get_reviews sample_runtime get_reviews_90002 d'
          = (Ok (res_json 200 [("reviews", Some (JArr (JObj rec :: rest)))]), d'').
Proof.
  destruct (review_is_stored_first sample_runtime 1767225600000 1767225600000
              post_great_film alice 90002 " Great film " disk_with_reviews three_reviews)
    as [(rec & d' & Hrun & Hauthor & Hcontent & _ & _ & _ & Hget & _) _].
  - reflexivity.
  - reflexivity.
  - reflexivity.
  - exact great_film_trims.
  - exact great_film_rating.
  - reflexivity.
  - exists rec, d'. split; [exact Hrun|]. split; [exact Hauthor|]. split; [exact Hcontent|].
    split.
    { vm_compute in Hrun. injection Hrun as <- _. reflexivity. }
    destruct (Hget get_reviews_90002 90002%Q 1767225600000%Q) as (rest & d'' & Hrun' & _).
    + reflexivity.
    + reflexivity.
    + exact three_reviews_no_null.
    + reflexivity.
    + intros r H _.
      repeat (apply elem_of_cons in H as [->|H];
              [eexists; split; [reflexivity | by vm_compute]|]).
      by apply elem_of_nil in H.
    + by exists rest, d''.
Defined.

(** C5, as the claim has it, fails on a store that holds a review of the
    movie dated later than the new one: the review posted on 1 January
    2026 is put in front of the stored list, but [GET /api/reviews/90002]
    sorts by date and lists the review of 2030 first. *)
Lemma later_dated_review_stays_first :
  ∃ rec d' d'',
    post_reviews sample_runtime 1767225600000 1767225600000 post_great_film
        disk_with_later_review
      = (Ok (res_json 201 [("review", Some (JObj rec))]), d')
    ∧ reviews (stored d') = JArr [JObj rec; review_of_2030]
    ∧ get_reviews sample_runtime get_reviews_90002 d'
      = (Ok (res_json 200 [("reviews", Some (JArr [review_of_2030; JObj rec]))]), d'')
    ∧ JObj rec ≠ review_of_2030.
Proof.
  destruct (post_reviews sample_runtime 1767225600000 1767225600000 post_great_film
              disk_with_later_review) as [o d'] eqn:Hpost.
  vm_compute in Hpost. injection Hpost as <- <-.
  eexists _, _, _. split; [reflexivity|]. split; [reflexivity|].
  split; [vm_compute; reflexivity|]. discriminate.
Qed.

Lemma genres_ranked_by_weight_witness :
  let watchStates : gmap Z WatchState := {[3%Z := watchlist]} in
  let ratings : gmap Z Q := {[1%Z := 5%Q; 2%Z := 5%Q]} in
  (accumulated watchStates ratings [action_one; action_two; drama_three] 18
   < accumulated watchStates ratings [action_one; action_two; drama_three] 28)%Z
  ∧ rankedGenres [action_one; action_two; drama_three] watchStates ratings = Ok [28%N; 18%N].
Proof.
  intros watchStates ratings.
  destruct (genres_ranked_by_weight [] ∅ ∅) as (_ & _ & Hexample).
  apply (Hexample action_one action_two drama_three 28%N 18%N watchStates ratings);
    try reflexivity.
  discriminate.
Defined.

Lemma seen_not_accepted : ¬ status_accepted (body_field put_seen "status").
Proof. intros H. apply status_rejected_spec in H. vm_compute in H. discriminate H. Qed.

Lemma invalid_status_is_rejected_witness :
  put_status sample_runtime put_seen None = (Ok (error_reply 400 "Invalid status"), None)
  ∧ status (error_reply 400 "Invalid status") = 400.
Proof.
  apply (invalid_status_is_rejected sample_runtime put_seen alice 90001 None).
  - reflexivity.
  - reflexivity.
  - exact seen_not_accepted.
Defined.

Lemma invalid_movieId_is_rejected_witness :
  put_status sample_runtime put_text_id None
  = (Ok (error_reply 400 "Invalid movieId"), None)
  ∧ put_rating sample_runtime put_text_id None
    = (Ok (error_reply 400 "Invalid movieId"), None)
  ∧ post_reviews sample_runtime 0 0 put_text_id None
    = (Ok (error_reply 400 "Invalid movieId"), None)
  ∧ status (error_reply 400 "Invalid movieId") = 400.
Proof.
  apply (invalid_movieId_is_rejected sample_runtime 0 0 put_text_id alice None).
  - reflexivity.
  - intros m H. vm_compute in H. discriminate H.
Defined.

Lemma nine_stars_not_accepted : ¬ rating_accepted (body_field post_nine_stars "rating").
Proof. intros H. apply rating_rejected_spec in H. vm_compute in H. discriminate H. Qed.

Lemma review_with_invalid_rating_is_rejected_witness :
  post_reviews sample_runtime 3000 3000 post_nine_stars disk_with_reviews
  = (Ok (error_reply 400 "Invalid rating"), disk_with_reviews)
  ∧ status (error_reply 400 "Invalid rating") = 400.
Proof.
  apply (review_with_invalid_rating_is_rejected sample_runtime 3000 3000 post_nine_stars
           alice 90002 "Fine" disk_with_reviews).
  - reflexivity.
  - reflexivity.
  - reflexivity.
  - discriminate.
  - exact nine_stars_not_accepted.
Defined.


Lemma alice_fits_the_empty_disk : caller_ok None (id alice).
Proof. exact (users_ok_caller None (id alice) empty_disk_users_ok). Qed.

Lemma rating_then_user_data_witness :
  ∃ r1 d1 ws rs d2,
    put_rating sample_runtime put_five_stars None = (Ok r1, d1) ∧ status r1 = 200
    ∧ get_user_data put_five_stars d1 =
        (Ok (res_json 200 [("watchStates", Some ws); ("ratings", Some (JObj rs))]), d2)
    ∧ rs !! ToString sample_runtime 90001 = Some (JNum 5).
Proof.
  destruct (rating_then_user_data sample_runtime put_five_stars put_five_stars alice
              90001 None)
    as (r1 & d1 & ws & rs & d2 & Hput & Hstatus & Hget & _ & Hset & _).
  - reflexivity.
  - reflexivity.
  - exact five_stars_accepted.
  - exact alice_fits_the_empty_disk.
  - reflexivity.
  - exists r1, d1, ws, rs, d2. split; [exact Hput|]. split; [exact Hstatus|].
    split; [exact Hget|]. apply Hset. reflexivity.
Defined.

Lemma put_twice_is_put_once_witness :
  ∃ r d1, put_status sample_runtime put_watched None = (Ok r, d1)
          ∧ put_status sample_runtime put_watched d1 = (Ok r, d1).
Proof.
  destruct (put_twice_is_put_once sample_runtime put_watched alice 90001 None)
    as [Hstatus _].
  - reflexivity.
  - reflexivity.
  - exact alice_fits_the_empty_disk.
  - exact (Hstatus watched_is_accepted).
Defined.

Lemma cleared_entry_is_gone_witness :
  ∃ r1 d1 r2 d2 e,
    put_status sample_runtime put_watched None = (Ok r1, d1)
    ∧ put_status sample_runtime put_unwatch d1 = (Ok r2, d2)
    ∧ put_status sample_runtime put_unwatch None = (Ok r2, d2)
    ∧ entries_of (record_of d2 alice) "watchStates" = JObj e
    ∧ e !! ToString sample_runtime 90001 = None.
Proof.
  destruct (cleared_entry_is_gone sample_runtime put_watched put_unwatch alice 90001 None)
    as [Hstatus _].
  - reflexivity.
  - reflexivity.
  - reflexivity.
  - reflexivity.
  - exact alice_fits_the_empty_disk.
  - apply Hstatus; [exact watched_is_accepted | reflexivity].
Defined.

Lemma status_and_rating_commute_witness :
  ∃ r1 d1 r2 d2 d1',
    put_status sample_runtime put_watched None = (Ok r1, d1)
    ∧ put_rating sample_runtime put_five_stars d1 = (Ok r2, d2)
    ∧ put_rating sample_runtime put_five_stars None = (Ok r2, d1')
    ∧ put_status sample_runtime put_watched d1' = (Ok r1, d2).
Proof.
  apply (status_and_rating_commute sample_runtime put_watched put_five_stars alice
           90001 90001 None).
  - reflexivity.
  - reflexivity.
  - reflexivity.
  - reflexivity.
  - exact watched_is_accepted.
  - exact five_stars_accepted.
  - exact alice_fits_the_empty_disk.
Defined.

Lemma me_refreshes_profile_witness :
  ∃ d' rec',
    get_me put_watched None = (Ok (res_json 200 [("user", Some (user_json alice))]), d')
    ∧ reviews (stored d') = reviews (stored None)
    ∧ rec' !! "profile" = Some (user_json alice)
    ∧ JObj rec' = fresh_record alice.
Proof.
  destruct (me_refreshes_profile put_watched alice None)
    as [(d' & um & um' & rec' & Hrun & Hreviews & Hum & _ & _ & _ & Hprofile & _ & _ & Hnew) _].
  - reflexivity.
  - exact alice_fits_the_empty_disk.
  - exists d', rec'. split; [exact Hrun|]. split; [exact Hreviews|].
    split; [exact Hprofile|]. apply Hnew.
    injection Hum as <-. reflexivity.
Defined.

Lemma user_data_keeps_the_store_witness :
  ∃ r d',
    get_user_data put_watched None = (Ok r, d') ∧ status r = 200
    ∧ record_of d' alice = fresh_record alice
    ∧ get_user_data put_watched d' = (Ok r, d').
Proof.
  destruct (user_data_keeps_the_store put_watched alice None ∅)
    as (r & d' & Hrun & Hstatus & _ & _ & _ & Hnew & Hagain).
  - reflexivity.
  - reflexivity.
  - exists r, d'. split; [exact Hrun|]. split; [exact Hstatus|].
    split; [apply Hnew; reflexivity | exact Hagain].
Defined.

Lemma reviews_of_unknown_movie_witness :
  get_reviews sample_runtime get_reviews_abc disk_with_reviews
  = (Ok (res_json 200 [("reviews", Some (JArr []))]), Some (ensured disk_with_reviews))
  ∧ stored (Some (ensured disk_with_reviews)) = stored disk_with_reviews.
Proof.
  apply (reviews_of_unknown_movie sample_runtime get_reviews_abc disk_with_reviews
           three_reviews).
  - reflexivity.
  - exact three_reviews_no_null.
  - left. reflexivity.
Defined.

Lemma write_then_read_witness :
  (writeStore empty_store ;; readStore) None = (Ok empty_store, written empty_store).
Proof.
  destruct (write_then_read empty_store None) as [Hback _].
  - discriminate.
  - discriminate.
  - exact Hback.
Defined.

Lemma reviews_only_grow_witness :
  let calls := [(PostReviews 1767225600000 1767225600000, post_great_film)] in
  ∃ d' added,
    run sample_runtime calls disk_with_reviews = Some d'
    ∧ reviews (stored d') = JArr (added ++ three_reviews)%list
    ∧ Forall review_valid added ∧ (length added ≤ 1)%nat.
Proof.
  intros calls.
  destruct (reviews_only_grow sample_runtime calls disk_with_reviews three_reviews)
    as [Hgrown _].
  - split; [|by eexists]. unfold users_ok. cbn. apply map_Forall_empty.
  - reflexivity.
  - exact Hgrown.
Defined.

(** Two [POST /api/reviews] that overlap, of Alice and of Bob: both read
    the missing store before either writes, both are answered 201, and
    the store written last holds the review of Bob alone. *)
Lemma overlapping_posts_lose_a_review :
  let post u text :=
    post_reviews_after_read sample_runtime 1767225600000 1767225600000 u 90002 text
      (Some (JNum 4)) in
  ∃ first second d,
    overlapped (post alice "Great film") (post bob "Slow start") None
      = (Ok (res_json 201 [("review", Some (JObj first))],
             res_json 201 [("review", Some (JObj second))]), d)
    ∧ first !! "author" = Some (JStr "Alice")
    ∧ second !! "author" = Some (JStr "Bob")
    ∧ reviews (stored d) = JArr [JObj second].
Proof.
  intros post.
  destruct (overlapped (post alice "Great film") (post bob "Slow start") None)
    as [o d] eqn:Hrun.
  vm_compute in Hrun. injection Hrun as <- <-.
  eexists _, _, _. split; [reflexivity|]. split; [reflexivity|].
  split; reflexivity.
Qed.

(** A movie id that is not a whole number is its own key: [PUT
    /api/rating {movieId: 1.5, rating: 5}] stores the rating under
    ["1.5"]. *)
Lemma fractional_id_is_its_own_key :
  let req := {| req_user := Some alice;
                req_body := Some (JObj {["movieId" := JNum (3 # 2); "rating" := JNum 5]});
                req_params_movieId := "" |} in
  put_rating sample_runtime req None
  = (Ok (res_json 200 [("ratings", Some (JObj {["1.5" := JNum 5]}))]),
     written {| users := JObj {["1001" := object_literal [
                  ("watchStates", Some (JObj ∅));
                  ("ratings", Some (JObj {["1.5" := JNum 5]}));
                  ("profile", Some (user_json alice))]]};
                reviews := JArr [] |}).
Proof. intros req. by vm_compute. Qed.

Lemma other_users_untouched_witness :
  ∃ d', run sample_runtime [(PutStatus, put_watched); (PutRating, put_five_stars)] None
        = Some d'
        ∧ user_at d' "2002" = user_at None "2002".
Proof.
  apply (other_users_untouched sample_runtime
           [(PutStatus, put_watched); (PutRating, put_five_stars)] None "2002").
  - exact empty_disk_store_ok.
  - repeat constructor; intros (u & Hu & Hid); injection Hu as <-; discriminate Hid.
Defined.

Lemma movie_genres_are_known_names_witness :
  "Thriller" ∈ getMovieGenres None north_star (genreMap initial_state)
  ∧ (length (getMovieGenres None north_star (genreMap initial_state)) ≤ 2)%nat.
Proof.
  destruct (movie_genres_are_known_names None north_star (genreMap initial_state)
              "Unlisted Genre")
    as (Hin & Hlen & _).
  - left. reflexivity.
  - split; [|exact Hlen]. apply Hin. split; [discriminate|].
    exists 53%N. split; [left | reflexivity].
Defined.

Lemma status_change_moves_the_counts_witness :
  ∃ st',
    onStatusChange None (λ _ _, Throw) 90001 watched drafting = Ok st'
    ∧ st_watchStates st' !! 90001%Z = Some watched
    ∧ (watchedCount (stats st') + 0 = watchedCount (stats drafting) + 1)%nat
    ∧ (watchlistCount (stats st') + 1 = watchlistCount (stats drafting) + 0)%nat.
Proof.
  destruct (status_change_moves_the_counts None (λ _ _, Throw) 90001 watched drafting)
    as (st' & Hrun & Hset & _ & Hwatched & Hlist & _).
  - discriminate.
  - exists st'. split; [exact Hrun|]. split; [exact Hset|].
    split; [exact Hwatched | exact Hlist].
Defined.

Lemma drafting_ratings_are_stars (k : Z) (r : Q) :
  st_ratings drafting !! k = Some r → whole_between 1 5 r.
Proof.
  intros H. change (st_ratings drafting) with ({[90001%Z := 5%Q]} : gmap Z Q) in H.
  apply lookup_singleton_Some in H as [_ <-]. by exists 5%Z.
Qed.

Lemma rating_change_keeps_the_average_in_range_witness :
  ∃ st',
    onRatingChange None (λ _ _, Throw) 90002 4%Q drafting = Ok st'
    ∧ st_ratings st' !! 90002%Z = Some 4%Q
    ∧ (1 <= avgRating (stats st') ∧ avgRating (stats st') <= 5)%Q.
Proof.
  destruct (rating_change_keeps_the_average_in_range None (λ _ _, Throw) 90002 4%Q
              1 5 drafting)
    as (_ & st' & Hrun & Hset & _ & Hrange & _).
  - discriminate.
  - lia.
  - by vm_compute.
  - exact drafting_ratings_are_stars.
  - by exists 4%Z.
  - exists st'. split; [exact Hrun|]. split; [exact Hset | exact Hrange].
Defined.

(** The average is a double: three ratings of 0.1, the double nearest to
    a tenth, sum to 0.30000000000000004 and average to
    0.10000000000000002, above each of them. *)
Lemma average_of_tenths_is_rounded :
  let tenth := binary64 (1 # 10) in
  let st := setRatings (λ _, {[1%Z := tenth; 2%Z := tenth; 3%Z := tenth]}) initial_state in
  (tenth < avgRating (stats st))%Q
  ∧ number_to_string tenth = "0.1"
  ∧ number_to_string (avgRating (stats st)) = "0.10000000000000002".
Proof. intros tenth st. split; [by vm_compute|]. split; by vm_compute. Qed.

Lemma merge_replaces_the_reviews_of_a_movie_witness :
  let incoming := [local_review "r4" 90001 "3000"] in
  let st' := mergeMovieReviews 90001 incoming drafting in
  filter (λ review, review_movieId review = 90001%Z) (st_reviews st') = incoming
  ∧ filter (λ review, review_movieId review ≠ 90001%Z) (st_reviews st')
    = filter (λ review, review_movieId review ≠ 90001%Z) (st_reviews drafting)
  ∧ mergeMovieReviews 90001 incoming st' = st'.
Proof.
  intros incoming st'.
  destruct (merge_replaces_the_reviews_of_a_movie 90001 incoming drafting)
    as (Hin & Hout & Hagain & _).
  - repeat constructor.
  - split; [exact Hin|]. split; [exact Hout | exact Hagain].
Defined.

Lemma local_reviews_dated (review : UserReview) :
  review ∈ st_reviews drafting → review_movieId review = movie_id north_star →
  ∃ t, DateMs sample_runtime (Some (JStr (review_createdAt review))) = Fin t.
Proof.
  intros H _. repeat (apply elem_of_cons in H as [->|H]; [eexists; reflexivity|]).
  by apply elem_of_nil in H.
Qed.

Lemma active_reviews_newest_first_witness :
  ∃ shown,
    activeMovieReviews sample_runtime drafting = Ok shown
    ∧ shown ≡ₚ [local_review "r1" 90001 "1000"; local_review "r3" 90001 "2000"]
    ∧ StronglySorted (newest_first (review_time sample_runtime)) shown.
Proof.
  destruct (active_reviews_newest_first sample_runtime drafting north_star)
    as [(shown & Hrun & Hperm & Hsorted) _].
  - reflexivity.
  - exists shown. split; [exact Hrun|]. split; [exact Hperm|].
    apply Hsorted. exact local_reviews_dated.
Defined.

Lemma guest_review_stays_local_witness :
  ∃ shown guest st',
    activeMovieReviews sample_runtime drafting = Ok shown
    ∧ onReviewSubmit sample_runtime None 3000 3000 (λ _ _ _, Throw) drafting = Ok st'
    ∧ st_reviews st'
      = (guest :: shown
         ++ filter (λ review, review_movieId review ≠ 90001%Z) (st_reviews drafting))%list
    ∧ review_content guest = "Loved it"
    ∧ review_author guest = "Guest Viewer"
    ∧ st_reviewDraft st' = "".
Proof.
  destruct (guest_review_stays_local sample_runtime None 3000 3000 (λ _ _ _, Throw)
              drafting north_star)
    as (shown & guest & st' & Hshown & Hrun & Hreviews & _ & Hcontent & _ & _ & Hauthor
        & Hdraft & _).
  - reflexivity.
  - discriminate.
  - reflexivity.
  - exists shown, guest, st'. split; [exact Hshown|]. split; [exact Hrun|].
    split; [exact Hreviews|]. split; [exact Hcontent|].
    split; [apply Hauthor; reflexivity | exact Hdraft].
Defined.

Lemma refused_review_keeps_the_draft_witness :
  ∃ st',
    onReviewSubmit sample_runtime (Some "http://localhost:4000") 3000 3000
      (λ _ _ _, Throw) signed_in = Ok st'
    ∧ st_reviews st' = st_reviews signed_in
    ∧ st_reviewDraft st' = " Loved it "
    ∧ st_error st' = Some "Could not publish review.".
Proof.
  destruct (refused_review_keeps_the_draft sample_runtime (Some "http://localhost:4000")
              3000 3000 (λ _ _ _, Throw) signed_in north_star)
    as (Hrefused & _).
  - reflexivity.
  - discriminate.
  - reflexivity.
  - apply Hrefused. left. reflexivity.
Defined.

Lemma genres_are_never_emptied_witness :
  ∃ st',
    loadGenres key_env Throw initial_state = Ok st'
    ∧ st_genres st' ≠ []
    ∧ st_genres st' = fallbackGenres.
Proof.
  destruct (genres_are_never_emptied key_env Throw initial_state)
    as (st' & Hrun & Hkept & _ & _ & Hfail & _).
  - discriminate.
  - exists st'. split; [exact Hrun|]. split.
    + apply Hkept. discriminate.
    + apply Hfail; reflexivity.
Defined.

Lemma sample_catalog_followed (path : string) (params : list (string * json)) :
  sample_catalog path params ≠ Exotic.
Proof. unfold sample_catalog. destruct (String.eqb _ _); discriminate. Qed.

Lemma movies_load_settles_witness :
  ∃ st',
    loadMovies sample_runtime key_env sample_catalog initial_state = Ok st'
    ∧ st_loading st' = false
    ∧ (length (st_movies st') ≤ 24)%nat
    ∧ st_reviews st' = st_reviews initial_state.
Proof.
  destruct (movies_load_settles sample_runtime key_env sample_catalog initial_state)
    as (st' & Hrun & Hloading & Hlen & _ & _ & _ & _ & Hreviews & _).
  - exact sample_catalog_followed.
  - exists st'. split; [exact Hrun|]. split; [exact Hloading|].
    split; [exact Hlen | exact Hreviews].
Defined.

Lemma sample_movies_stand_in_witness :
  ∃ st',
    loadMovies sample_runtime no_env sample_catalog initial_state = Ok st'
    ∧ st_movies st' = fallbackMovies
    ∧ st_activeMovie st' = head fallbackMovies
    ∧ st_error st' = None
    ∧ st_recommendations st' = take 2 fallbackMovies.
Proof.
  destruct (sample_movies_stand_in sample_runtime no_env sample_catalog initial_state)
    as (st' & Hrun & Hmovies & _ & _ & Hactive & Hoffline & _).
  - left. reflexivity.
  - destruct (Hoffline eq_refl) as (Herror & Hrecs & _).
    exists st'. split; [exact Hrun|]. split; [exact Hmovies|].
    split; [apply Hactive; reflexivity|]. split; [exact Herror | exact Hrecs].
Defined.

Lemma search_takes_precedence_witness :
  ∃ st',
    loadMovies sample_runtime key_env sample_catalog drafting = Ok st'
    ∧ st_movies st' = [north_star]
    ∧ st_activeMovie st' = head (st_movies st')
    ∧ st_loading st' = false.
Proof.
  destruct (search_takes_precedence sample_runtime key_env sample_catalog drafting
              (Some [north_star]))
    as (st' & Hrun & Hmovies & Hactive & _ & _ & Hloading).
  - reflexivity.
  - discriminate.
  - reflexivity.
  - exists st'. split; [exact Hrun|]. split; [exact Hmovies|].
    split; [exact Hactive | exact Hloading].
Defined.

Lemma recommendations_leave_out_tracked_movies_witness :
  let watchStates : gmap Z WatchState := {[3%Z := watchlist]} in
  let ratings : gmap Z Q := {[1%Z := 5%Q; 2%Z := 5%Q]} in
  let discover := λ _ : list N, Ok (Some [action_one; drama_three; action_two]) in
  ∃ recs,
    loadRecommendations key_env discover [action_one; action_two; drama_three]
      watchStates ratings = Ok recs
    ∧ recs `sublist_of` [action_one; drama_three; action_two]
    ∧ ∀ movie, movie ∈ recs → watchStates !! movie_id movie = None.
Proof.
  intros watchStates ratings discover.
  destruct (recommendations_leave_out_tracked_movies key_env discover
              [action_one; action_two; drama_three] watchStates ratings
              [28%N; 18%N] (Some [action_one; drama_three; action_two]))
    as (recs & Hrun & _ & Hsub & Hnone & _).
  - by vm_compute.
  - reflexivity.
  - discriminate.
  - reflexivity.
  - exists recs. split; [exact Hrun|]. split; [exact Hsub | exact Hnone].
Defined.

Lemma offline_recommendations_come_from_the_browse_set_witness :
  let watchStates : gmap Z WatchState := {[1%Z := watched; 3%Z := watchlist]} in
  ∃ recs,
    loadRecommendations no_env (λ _, Throw) [action_one; action_two; drama_three]
      watchStates ∅ = Ok recs
    ∧ loadRecommendations no_env (λ _, Ok None) [action_one; action_two; drama_three]
        watchStates ∅ = Ok recs
    ∧ recs `sublist_of` [action_one; action_two; drama_three].
Proof.
  intros watchStates.
  destruct (offline_recommendations_come_from_the_browse_set no_env (λ _, Throw)
              [action_one; action_two; drama_three] watchStates ∅ (λ _, Ok None))
    as (recs & Hrun & Hsame & _ & Hsub & _).
  - reflexivity.
  - exists recs. split; [exact Hrun|]. split; [exact Hsame | exact Hsub].
Defined.
